(** * globus-transfer: the activation / transfer / hold-resolution core of
      [globus/cli.py], embedded as executable Rocq definitions.

    The command-line layer talks to three outside parties: the Globus
    transfer service, the HTCondor scheduler and the operator at the
    terminal.  Their answers are collected in an environment record [Env];
    every answer is indexed by the number of calls to the outside that were
    answered before it, so an environment may answer the same question
    differently at different moments.  The program itself is deterministic
    and runs in a small state-and-exit monad over a [World] that holds the
    event trace and the scheduler's job records.

    Left out: the records written through [logging], which steer nothing;
    the construction of the SDK's client and [TransferData] objects, taken
    as pure; and exceptions of the transfer service other than the
    [TransferAPIError] that [wait_for_task_or_exit] catches.  Loops that the
    source leaves unbounded take a [fuel] argument. *)

From Stdlib Require Import List String Ascii ZArith Bool Lia Arith.
From Stdlib Require Import DecimalString DecimalNat FinFun.
Import ListNotations.
Local Open Scope string_scope.
Local Open Scope Z_scope.
Local Open Scope list_scope.

(** String concatenation, kept apart from list append. *)
Infix "+++" := String.append (at level 60, right associativity).

(** ** Python strings *)

Module Py.

(** [str(n)] for a non-negative [int] coming from [enumerate]. *)
Definition str_of_nat (n : nat) : string :=
  NilEmpty.string_of_uint (Nat.to_uint n).

(** [str(z)] for an arbitrary [int]. *)
Definition str_of_Z (z : Z) : string :=
  NilZero.string_of_int (Z.to_int z).

(** [sep.join(parts)]. *)
Fixpoint join (sep : string) (parts : list string) : string :=
  match parts with
  | [] => ""
  | [p] => p
  | p :: rest => p +++ sep +++ join sep rest
  end.

(** [s.split(sep)] for a one-character separator: the pieces between the
    occurrences of [sep]; a string with [n] separators has [n + 1] pieces
    and the empty string splits into one empty piece. *)
Fixpoint split (sep : ascii) (s : string) : list string :=
  match s with
  | EmptyString => [EmptyString]
  | String c rest =>
      if Ascii.eqb c sep then EmptyString :: split sep rest
      else match split sep rest with
           | [] => [String c EmptyString]
           | p :: ps => String c p :: ps
           end
  end.

(** [s[-1]]: the last character, or nothing where Python raises
    [IndexError]. *)
Fixpoint last_char (s : string) : option ascii :=
  match s with
  | EmptyString => None
  | String c EmptyString => Some c
  | String _ rest => last_char rest
  end.

(** [s.startswith(p)]. *)
Definition startswith (p s : string) : bool := String.prefix p s.

(** The exceptions that can leave a command uncaught. *)
Inductive Exn :=
| ValueError
| IndexError.

End Py.

(** ** Constants *)

(** Modelled from the spec: the exit codes of the [constants] module, which
    is not among the sources.  The spec's error taxonomy lists them as
    distinct process exit codes; [ENDPOINT_INFO_ERROR] stands for the code
    with which [EndpointInfo.get_or_exit] leaves when a lookup fails. *)
Inductive ExitCode :=
| AUTHORIZATION_ERROR
| ENDPOINT_INFO_ERROR
| ENDPOINT_ACTIVATION_ERROR
| INVALID_TRANSFER_SPECIFICATION_ERROR
| WAIT_TASK_TIMEOUT
| WAIT_TASK_ERROR.

(** Modelled from the spec: [constants.ENDPOINT_ACTIVATION_REQUIRED], the
    prefix of the attribute names [ENDPOINT_ACTIVATION_REQUIRED_<index>]. *)
Definition ENDPOINT_ACTIVATION_REQUIRED : string := "ENDPOINT_ACTIVATION_REQUIRED".

(** ** Data model *)

(** What [EndpointInfo.get_or_exit] hands back; the fields the callers read. *)
Record EndpointInfo := {
  id : string;
  is_active : bool;
  activation_expires_in : Z
}.

(** The value of a job attribute: a string, or [classad.Value.Undefined]. *)
Inductive AdValue :=
| AdString (s : string)
| AdUndefined.

(** A ClassAd as the list of its items, in the order [items()] yields them. *)
Definition ClassAd := list (string * AdValue).

(** A job record of the scheduler. *)
Record Job := {
  cluster_id : Z;
  is_globus_job : bool;
  is_held : bool;
  attrs : ClassAd
}.

(** One [add_item] of a [TransferData]. *)
Record TransferItem := {
  item_source : string;
  item_destination : string;
  item_recursive : bool
}.

Record TransferData := {
  source_endpoint : string;
  destination_endpoint : string;
  label : option string;
  sync_level : string;
  preserve_timestamp : bool;
  verify_checksum : bool;
  items : list TransferItem
}.

(** The result of one [transfer_client.task_wait] call: it returns a flag,
    or raises [globus_sdk.TransferAPIError] with a message. *)
Inductive PollOutcome :=
| PollReturn (done : bool)
| PollTransferAPIError (message : string).

(** ** Events and the world *)

Inductive Event :=
| EvEndpointInfo (endpoint : string) (r : option EndpointInfo)
| EvAutoactivate (endpoint : string) (code : string)
| EvConfirm (acknowledged : bool)
| EvSetJobAttr (scratch_ad : option Z) (key : string) (value : AdValue)
| EvSubmitTransfer (tdata : TransferData) (task_id : string)
| EvTaskWait (task_id : string) (r : PollOutcome)
| EvRelease (cluster : Z)
| EvOut (msg : string)
| EvWarning (msg : string).

(** The answers of the outside parties.  The [nat] argument is the clock of
    the world at the call: the number of answers given before. *)
Record Env := {
  (** [utils.is_interactive()] *)
  is_interactive : bool;
  (** [settings[AUTH].get(REFRESH_TOKEN)] *)
  refresh_token : option string;
  (** [EndpointInfo.get_or_exit]: [None] when the lookup fails and the
      helper exits *)
  endpoint_info : nat -> string -> option EndpointInfo;
  (** [transfer_client.endpoint_autoactivate(endpoint)["code"]] *)
  endpoint_autoactivate : nat -> string -> string;
  (** [click.confirm]: [false] when the operator interrupts with ctrl-c *)
  confirm : nat -> bool;
  (** [transfer_client.submit_transfer(tdata)["task_id"]] *)
  submit_transfer : nat -> string;
  (** [transfer_client.task_wait] *)
  task_wait : nat -> PollOutcome;
  (** [urllib.parse.urlencode({"origin_id": id})] *)
  urlencode_origin_id : string -> string
}.

Record World := {
  (** everything that happened so far, oldest first *)
  trace : list Event;
  (** the number of answers obtained from the environment so far *)
  clock : nat;
  (** the record of the job this process runs as *)
  current_ad : ClassAd;
  (** the scheduler's job records *)
  queue : list Job
}.

(** ** The command monad *)

Inductive Outcome (A : Type) :=
| Ret (a : A)
| Exit (code : ExitCode) (msg : string)
| Raise (exn : Py.Exn)
| Abort
| OutOfFuel.

Arguments Ret {A} a.
Arguments Exit {A} code msg.
Arguments Raise {A} exn.
Arguments Abort {A}.
Arguments OutOfFuel {A}.

Definition M (A : Type) : Type := World -> Outcome A * World.

Definition ret {A} (a : A) : M A := fun w => (Ret a, w).

Definition bind {A B} (m : M A) (k : A -> M B) : M B :=
  fun w =>
    match m w with
    | (Ret a, w') => k a w'
    | (Exit code msg, w') => (Exit code msg, w')
    | (Raise exn, w') => (Raise exn, w')
    | (Abort, w') => (Abort, w')
    | (OutOfFuel, w') => (OutOfFuel, w')
    end.

Declare Scope cmd_scope.
Delimit Scope cmd_scope with cmd.
Notation "x <- m ;; k" := (bind m (fun x => k))
  (at level 100, m at next level, right associativity) : cmd_scope.
Notation "m ;; k" := (bind m (fun _ => k))
  (at level 100, right associativity) : cmd_scope.
Local Open Scope cmd_scope.

(** [error(msg, exit_code)]: print and [sys.exit]. *)
Definition error {A} (msg : string) (exit_code : ExitCode) : M A :=
  fun w => (Exit exit_code msg, w).

Definition py_raise {A} (exn : Py.Exn) : M A := fun w => (Raise exn, w).

Definition out_of_fuel {A} : M A := fun w => (OutOfFuel, w).

(** An event without an answer. *)
Definition emit (ev : Event) (w : World) : World :=
  {| trace := trace w ++ [ev]; clock := clock w;
     current_ad := current_ad w; queue := queue w |}.

(** An event that carries an answer of the environment. *)
Definition answered (ev : Event) (w : World) : World :=
  {| trace := trace w ++ [ev]; clock := S (clock w);
     current_ad := current_ad w; queue := queue w |}.

(** [click.secho] / [click.echo] on standard output. *)
Definition secho (msg : string) : M unit := fun w => (Ret tt, emit (EvOut msg) w).

(** [warning(msg)]. *)
Definition warning (msg : string) : M unit :=
  fun w => (Ret tt, emit (EvWarning msg) w).

(** ** Job records *)

(** Assignment [d[key] = value] on an insertion-ordered dictionary: an
    existing key keeps its place and takes the new value, a new key goes to
    the end. *)
Fixpoint dict_set {V : Type} (key : string) (value : V) (d : list (string * V))
  : list (string * V) :=
  match d with
  | [] => [(key, value)]
  | (k, v) :: rest =>
      if String.eqb k key then (k, value) :: rest
      else (k, v) :: dict_set key value rest
  end.

(** [d.get(key)]. *)
Fixpoint dict_get {V : Type} (key : string) (d : list (string * V)) : option V :=
  match d with
  | [] => None
  | (k, v) :: rest => if String.eqb k key then Some v else dict_get key rest
  end.

Definition with_attrs (j : Job) (a : ClassAd) : Job :=
  {| cluster_id := cluster_id j; is_globus_job := is_globus_job j;
     is_held := is_held j; attrs := a |}.

Definition with_held (j : Job) (h : bool) : Job :=
  {| cluster_id := cluster_id j; is_globus_job := is_globus_job j;
     is_held := h; attrs := attrs j |}.

(** Modelled from the spec: [jobs.set_job_attr(key, value, scratch_ad)], the
    spec's [setAttribute(job, key, value)].  Without [scratch_ad] the
    attribute goes onto the record of the job this process runs as; with it,
    onto the scheduler's record of that job.  The record of the running job
    is kept as [current_ad], apart from [queue]: that the scheduler lists it
    among the owned jobs when the command itself runs as a job is not
    modelled.  What is stated about the records of [queue] is therefore
    stated only of runs in which no such write occurs (an event
    [EvSetJobAttr None] marks each of them in the trace). *)
Definition set_job_attr (key : string) (value : AdValue) (scratch_ad : option Job)
  : M unit :=
  fun w =>
    match scratch_ad with
    | None =>
        (Ret tt,
         emit (EvSetJobAttr None key value)
           {| trace := trace w; clock := clock w;
              current_ad := dict_set key value (current_ad w);
              queue := queue w |})
    | Some job =>
        (Ret tt,
         emit (EvSetJobAttr (Some (cluster_id job)) key value)
           {| trace := trace w; clock := clock w;
              current_ad := current_ad w;
              queue := map (fun j => if cluster_id j =? cluster_id job
                                     then with_attrs j (dict_set key value (attrs j))
                                     else j) (queue w) |})
    end.

(** Modelled from the spec: [jobs.get_globus_jobs()], the spec's
    [listOwnedJobs()]: all scheduler jobs tagged as belonging to this
    tool. *)
Definition get_globus_jobs : M (list Job) :=
  fun w => (Ret (filter is_globus_job (queue w)), w).

(** [schedd.act(htcondor.JobAction.Release, "ClusterId == c")]. *)
Definition schedd_act_release (c : Z) : M unit :=
  fun w =>
    (Ret tt,
     emit (EvRelease c)
       {| trace := trace w; clock := clock w;
          current_ad := current_ad w;
          queue := map (fun j => if cluster_id j =? c then with_held j false else j)
                       (queue w) |}).

Section Commands.

Variable env : Env.

(** *** Calls to the outside *)

(** Modelled from the spec: [EndpointInfo.get_or_exit(transfer_client,
    endpoint)], the spec's [getEndpointStatus]; a failed lookup ends the
    command. *)
Definition get_or_exit (endpoint : string) : M EndpointInfo :=
  fun w =>
    let r := endpoint_info env (clock w) endpoint in
    let w' := answered (EvEndpointInfo endpoint r) w in
    match r with
    | Some info => (Ret info, w')
    | None => (Exit ENDPOINT_INFO_ERROR ("Could not get info for endpoint " +++ endpoint), w')
    end.

Definition tc_endpoint_autoactivate (endpoint : string) : M string :=
  fun w =>
    let code := endpoint_autoactivate env (clock w) endpoint in
    (Ret code, answered (EvAutoactivate endpoint code) w).

(** [click.confirm(...)]: returns after the operator's ENTER, aborts the
    command on ctrl-c. *)
Definition click_confirm : M unit :=
  fun w =>
    let ack := confirm env (clock w) in
    let w' := answered (EvConfirm ack) w in
    if ack then (Ret tt, w') else (Abort, w').

Definition tc_submit_transfer (tdata : TransferData) : M string :=
  fun w =>
    let task_id := submit_transfer env (clock w) in
    (Ret task_id, answered (EvSubmitTransfer tdata task_id) w).

Definition tc_task_wait (task_id : string) : M PollOutcome :=
  fun w =>
    let r := task_wait env (clock w) in
    (Ret r, answered (EvTaskWait task_id r) w).

(** *** CLI helpers *)

Definition get_transfer_client_or_exit (token : option string) : M unit :=
  match token with
  | None =>
      error "Was not able to find a refresh token; have you run 'globus login'?"
            AUTHORIZATION_ERROR
  | Some _ => ret tt
  end.

(** The loop of [activate_endpoints_automatically], with its accumulator
    [unactivated]. *)
Fixpoint auto_loop (endpoints unactivated : list string) : M (list string) :=
  match endpoints with
  | [] => ret unactivated
  | endpoint :: rest =>
      code <- tc_endpoint_autoactivate endpoint ;;
      if String.eqb code "AutoActivationFailed"
      then auto_loop rest (unactivated ++ [endpoint])
      else auto_loop rest unactivated
  end.

Definition activate_endpoints_automatically (endpoints : list string)
  : M (list string) :=
  auto_loop endpoints [].

(** The interactive [while not ...is_active] loop; [fuel] bounds the
    number of status checks. *)
Fixpoint wait_until_active (fuel : nat) (endpoint msg : string) : M unit :=
  match fuel with
  | O => out_of_fuel
  | S fuel' =>
      info <- get_or_exit endpoint ;;
      if is_active info then ret tt
      else
        secho msg ;;
        click_confirm ;;
        wait_until_active fuel' endpoint msg
  end.

(** The key written for the endpoint at position [idx]. *)
Definition activation_key (idx : nat) : string :=
  ENDPOINT_ACTIVATION_REQUIRED +++ "_" +++ Py.str_of_nat idx.

(** The loop of [activate_endpoints_manually] over
    [enumerate(endpoints)], started at [idx]. *)
Fixpoint manual_loop (fuel : nat) (idx : nat) (endpoints unactivated : list string)
  : M (list string) :=
  match endpoints with
  | [] => ret unactivated
  | endpoint :: rest =>
      info <- get_or_exit endpoint ;;
      let url := "https://app.globus.org/file-manager?"
                 +++ urlencode_origin_id env (id info) in
      let msg := "Endpoint " +++ endpoint
                 +++ " requires manual activation, please open the following URL in a browser to activate the endpoint: "
                 +++ url in
      if is_interactive env then
        wait_until_active fuel endpoint msg ;;
        manual_loop fuel (S idx) rest unactivated
      else
        set_job_attr (activation_key idx) (AdString endpoint) None ;;
        manual_loop fuel (S idx) rest (unactivated ++ [endpoint])
  end.

Definition activate_endpoints_manually (fuel : nat) (endpoints : list string)
  : M (list string) :=
  manual_loop fuel 0%nat endpoints [].

(** [[e for e in endpoints if not get_or_exit(e).is_active]]. *)
Fixpoint inactive_endpoints (endpoints : list string) : M (list string) :=
  match endpoints with
  | [] => ret []
  | e :: rest =>
      info <- get_or_exit e ;;
      more <- inactive_endpoints rest ;;
      ret (if is_active info then more else e :: more)
  end.

(** The closing loop of [activate_endpoints_or_exit]: one more lookup per
    endpoint, of which only [activation_expires_in] is read (and
    logged). *)
Fixpoint log_expirations (endpoints : list string) : M unit :=
  match endpoints with
  | [] => ret tt
  | endpoint :: rest =>
      _ <- get_or_exit endpoint ;;
      log_expirations rest
  end.

Definition activate_endpoints_or_exit (fuel : nat) (endpoints : list string)
  : M bool :=
  unactivated_endpoints <- inactive_endpoints endpoints ;;
  unactivated_endpoints <- activate_endpoints_automatically unactivated_endpoints ;;
  unactivated_endpoints <- activate_endpoints_manually fuel unactivated_endpoints ;;
  (if (0 <? List.length unactivated_endpoints)%nat
   then error ("Was not able to activate endpoints: "
               +++ Py.join " " unactivated_endpoints)
              ENDPOINT_ACTIVATION_ERROR
   else ret tt) ;;
  log_expirations endpoints ;;
  ret true.

(** *** Waiting for a task *)

(** One pass through the body of [while True] in [wait_for_task_or_exit],
    entered with the loop variables [attempts], [done] and [errored];
    [fuel] bounds the number of passes. *)
Fixpoint wait_loop (fuel : nat) (task_id : string) (max_attempts : Z)
         (attempts : Z) (done errored : bool) : M bool :=
  match fuel with
  | O => out_of_fuel
  | S fuel' =>
      let attempts := attempts + 1 in
      r <- tc_task_wait task_id ;;
      st <- match r with
            | PollReturn d => ret (d, errored)
            | PollTransferAPIError message =>
                warning ("Could not wait for task " +++ task_id
                         +++ " due to error: " +++ message) ;;
                ret (done, true)
            end ;;
      let done := fst st in
      let errored := snd st in
      if done then ret done
      else if attempts >=? max_attempts then
        error ("Timed out waiting for task " +++ task_id +++ " after "
               +++ Py.str_of_Z attempts +++ " attempts.")
              (if negb errored then WAIT_TASK_TIMEOUT else WAIT_TASK_ERROR)
      else wait_loop fuel' task_id max_attempts attempts done errored
  end.

Definition wait_for_task_or_exit (fuel : nat) (task_id : string)
           (timeout interval max_attempts : Z) : M bool :=
  wait_loop fuel task_id max_attempts 0 false false.

(** *** The transfer command *)

Definition add_item (tdata : TransferData) (src dst : string) (recursive : bool)
  : TransferData :=
  {| source_endpoint := source_endpoint tdata;
     destination_endpoint := destination_endpoint tdata;
     label := label tdata;
     sync_level := sync_level tdata;
     preserve_timestamp := preserve_timestamp tdata;
     verify_checksum := verify_checksum tdata;
     items := items tdata
              ++ [{| item_source := src; item_destination := dst;
                     item_recursive := recursive |}] |}.

(** The body of [for t in transfers]: [src, dst = t.split(":")] raises
    [ValueError] unless there are exactly two pieces, [src[-1]] and
    [dst[-1]] raise [IndexError] on an empty piece. *)
Definition add_transfer (t : string) (tdata : TransferData) : M TransferData :=
  match Py.split ":" t with
  | [src; dst] =>
      match Py.last_char src, Py.last_char dst with
      | Some s, Some d =>
          if Ascii.eqb s d && Ascii.eqb d "/" then
            ret (add_item tdata src dst true)
          else if Ascii.eqb s "/" || Ascii.eqb d "/" then
            error ("Invalid transfer specification '" +++ t
                   +++ "' (if transferring directories, both paths must end with /)")
                  INVALID_TRANSFER_SPECIFICATION_ERROR
          else
            ret (add_item tdata src dst false)
      | _, _ => py_raise Py.IndexError
      end
  | _ => py_raise Py.ValueError
  end.

Fixpoint add_transfers (transfers : list string) (tdata : TransferData)
  : M TransferData :=
  match transfers with
  | [] => ret tdata
  | t :: rest =>
      tdata <- add_transfer t tdata ;;
      add_transfers rest tdata
  end.

Definition transfer (fuel : nat)
           (source destination : string) (transfers : list string)
           (lbl : option string) (level : string)
           (preserve_timestamps verify_checksums wait : bool)
           (timeout interval attempts : Z) : M unit :=
  get_transfer_client_or_exit (refresh_token env) ;;
  let tdata := {| source_endpoint := source;
                  destination_endpoint := destination;
                  label := lbl;
                  sync_level := level;
                  preserve_timestamp := preserve_timestamps;
                  verify_checksum := verify_checksums;
                  items := [] |} in
  tdata <- add_transfers transfers tdata ;;
  activate_endpoints_or_exit fuel [source; destination] ;;
  task_id <- tc_submit_transfer tdata ;;
  (if wait
   then _ <- wait_for_task_or_exit fuel task_id timeout interval attempts ;; ret tt
   else ret tt) ;;
  secho task_id.

(** The [activate] and [wait] commands. *)
Definition activate (fuel : nat) (endpoint : string) : M bool :=
  get_transfer_client_or_exit (refresh_token env) ;;
  activate_endpoints_or_exit fuel [endpoint].

Definition wait (fuel : nat) (task_id : string) (timeout interval attempts : Z)
  : M unit :=
  get_transfer_client_or_exit (refresh_token env) ;;
  wait_for_task_or_exit fuel task_id timeout interval attempts ;;
  secho task_id.

(** *** The release command *)

(** The dictionary comprehension of [release]: endpoint identifier to
    attribute key, over the attributes whose key starts with the prefix
    and whose value is not [Undefined]. *)
Definition manual_endpoints_of (job : Job) : list (string * string) :=
  fold_left
    (fun d kv =>
       match snd kv with
       | AdString v =>
           if Py.startswith ENDPOINT_ACTIVATION_REQUIRED (fst kv)
           then dict_set v (fst kv) d
           else d
       | AdUndefined => d
       end)
    (attrs job) [].

(** [for k in manual_endpoints.values(): set_job_attr(k, "Undefined",
    scratch_ad=job)]. *)
Fixpoint reset_attrs (keys : list string) (job : Job) : M unit :=
  match keys with
  | [] => ret tt
  | k :: rest =>
      set_job_attr k AdUndefined (Some job) ;;
      reset_attrs rest job
  end.

Definition resolve_job (fuel : nat) (job : Job) : M unit :=
  secho ("Attempting to resolve holds for job " +++ Py.str_of_Z (cluster_id job)) ;;
  let manual_endpoints := manual_endpoints_of job in
  (if (0 <? List.length manual_endpoints)%nat then
     get_transfer_client_or_exit (refresh_token env) ;;
     _ <- activate_endpoints_manually fuel (map fst manual_endpoints) ;;
     reset_attrs (map snd manual_endpoints) job
   else ret tt) ;;
  secho ("Releasing job " +++ Py.str_of_Z (cluster_id job)) ;;
  schedd_act_release (cluster_id job).

(** [for ad_idx, job in enumerate(jobs)]. *)
Fixpoint release_loop (fuel : nat) (jobs : list Job) : M unit :=
  match jobs with
  | [] => ret tt
  | job :: rest =>
      resolve_job fuel job ;;
      release_loop fuel rest
  end.

Definition release (fuel : nat) : M unit :=
  jobs <- get_globus_jobs ;;
  release_loop fuel jobs.

End Commands.

(** * Observations on traces *)

Definition is_poll (ev : Event) : bool :=
  match ev with EvTaskWait _ _ => true | _ => false end.

Definition is_autoactivate (ev : Event) : bool :=
  match ev with EvAutoactivate _ _ => true | _ => false end.

Definition is_submit (ev : Event) : bool :=
  match ev with EvSubmitTransfer _ _ => true | _ => false end.

(** The events that only manual activation produces: prompts to the
    operator and writes of job attributes. *)
Definition is_manual (ev : Event) : bool :=
  match ev with
  | EvConfirm _ | EvSetJobAttr _ _ _ => true
  | _ => false
  end.

Definition count_events (p : Event -> bool) (tr : list Event) : nat :=
  List.length (filter p tr).

Definition is_api_error (r : PollOutcome) : bool :=
  match r with PollTransferAPIError _ => true | PollReturn _ => false end.

(** The number of passes [wait_for_task_or_exit] can still make when it has
    counted [attempts] of [max_attempts]: the exit test comes after the
    poll, so there is always at least one. *)
Definition attempts_left (max_attempts attempts : Z) : nat :=
  Z.to_nat (Z.max (max_attempts - attempts) 1).

(** The code with which an exhausted wait loop exits, given the flag it was
    entered with and the answers to the polls it made. *)
Definition exhausted_code (errored : bool) (polls : list PollOutcome) : ExitCode :=
  if errored || existsb is_api_error polls then WAIT_TASK_ERROR else WAIT_TASK_TIMEOUT.

(** The ways [wait_for_task_or_exit] ends: it returns the true flag of a
    finished task, or exits with one of the two wait codes. *)
Definition wait_finished (o : Outcome bool) : bool :=
  match o with
  | Ret done => done
  | Exit WAIT_TASK_TIMEOUT _ | Exit WAIT_TASK_ERROR _ => true
  | _ => false
  end.

(** * Sample environments and worlds *)

Module Sample.

Definition inactive_info : EndpointInfo :=
  {| id := "origin"; is_active := false; activation_expires_in := 0 |}.

Definition active_info : EndpointInfo :=
  {| id := "origin"; is_active := true; activation_expires_in := 3600 |}.

(** A terminal-less run with a credential; every endpoint is inactive
    and refuses automatic activation, no task ever finishes. *)
Definition batch : Env :=
  {| is_interactive := false;
     refresh_token := Some "token";
     endpoint_info := fun _ _ => Some inactive_info;
     endpoint_autoactivate := fun _ _ => "AutoActivationFailed";
     confirm := fun _ => true;
     submit_transfer := fun _ => "task";
     task_wait := fun _ => PollReturn false;
     urlencode_origin_id := fun i => "origin_id=" +++ i |}.

(** As [batch], but the first poll of a task fails in transport. *)
Definition flaky : Env :=
  {| is_interactive := false;
     refresh_token := Some "token";
     endpoint_info := fun _ _ => Some inactive_info;
     endpoint_autoactivate := fun _ _ => "AutoActivationFailed";
     confirm := fun _ => true;
     submit_transfer := fun _ => "task";
     task_wait := fun k => match k with
                           | O => PollTransferAPIError "connection reset"
                           | _ => PollReturn false
                           end;
     urlencode_origin_id := fun i => "origin_id=" +++ i |}.

Definition empty_world : World :=
  {| trace := []; clock := 0; current_ad := []; queue := [] |}.

End Sample.

(** * Shapes of transfer specifications *)

(** The number of occurrences of a character. *)
Fixpoint count_char (c : ascii) (s : string) : nat :=
  match s with
  | EmptyString => O
  | String a rest => ((if Ascii.eqb a c then 1 else 0) + count_char c rest)%nat
  end.

Definition no_colon (s : string) : bool := (count_char ":" s =? 0)%nat.

Definition ends_with_slash (s : string) : bool :=
  match Py.last_char s with
  | Some c => Ascii.eqb c "/"
  | None => false
  end.

(** A specification the loop of [transfer] passes over without leaving the
    command: two non-empty pieces that agree on the trailing slash. *)
Definition well_paired (t : string) : bool :=
  match Py.split ":" t with
  | [src; dst] =>
      match Py.last_char src, Py.last_char dst with
      | Some s, Some d => Bool.eqb (Ascii.eqb s "/") (Ascii.eqb d "/")
      | _, _ => false
      end
  | _ => false
  end.

(** A source path and a destination path written as one specification. *)
Definition spec_of (src dst : string) : string := src +++ ":" +++ dst.

(** Whether a command came back with a value. *)
Definition returned {A : Type} (o : Outcome A) : bool :=
  match o with Ret _ => true | _ => false end.

(** * Observations on activation *)

Definition is_lookup (ev : Event) : bool :=
  match ev with EvEndpointInfo _ _ => true | _ => false end.

(** A status query that reported the endpoint ACTIVE. *)
Definition reports_active (e : string) (ev : Event) : bool :=
  match ev with
  | EvEndpointInfo e' (Some info) => String.eqb e' e && is_active info
  | _ => false
  end.

(** An automatic activation of the endpoint that was not rejected. *)
Definition accepts_auto (e : string) (ev : Event) : bool :=
  match ev with
  | EvAutoactivate e' code =>
      String.eqb e' e && negb (String.eqb code "AutoActivationFailed")
  | _ => false
  end.

(** What the orchestrator takes as grounds for an endpoint being usable:
    some status query reported it ACTIVE, or its automatic activation was
    not rejected. *)
Definition vouched (e : string) (evs : list Event) : bool :=
  existsb (fun ev => reports_active e ev || accepts_auto e ev) evs.

(** The status the service reported at the last query about an endpoint;
    [None] when it was never (successfully) asked. *)
Fixpoint final_status (e : string) (evs : list Event) : option bool :=
  match evs with
  | [] => None
  | ev :: rest =>
      match final_status e rest with
      | Some b => Some b
      | None =>
          match ev with
          | EvEndpointInfo e' (Some info) =>
              if String.eqb e' e then Some (is_active info) else None
          | _ => None
          end
      end
  end.

(** The answers automatic activation gets for a list of endpoints when the
    first call is made at clock [t]. *)
Fixpoint auto_codes (env : Env) (t : nat) (endpoints : list string) : list string :=
  match endpoints with
  | [] => []
  | e :: rest => endpoint_autoactivate env t e :: auto_codes env (S t) rest
  end.

(** The endpoints among them whose automatic activation is rejected. *)
Fixpoint auto_rejected (env : Env) (t : nat) (endpoints : list string) : list string :=
  match endpoints with
  | [] => []
  | e :: rest =>
      if String.eqb (endpoint_autoactivate env t e) "AutoActivationFailed"
      then e :: auto_rejected env (S t) rest
      else auto_rejected env (S t) rest
  end.

Definition auto_events (endpoints codes : list string) : list Event :=
  map (fun ec => EvAutoactivate (fst ec) (snd ec)) (combine endpoints codes).

Definition lookup_events (endpoints : list string) (infos : list EndpointInfo)
  : list Event :=
  map (fun ei => EvEndpointInfo (fst ei) (Some (snd ei))) (combine endpoints infos).

(** The attributes written onto the current job record, in order. *)
Fixpoint attr_writes (evs : list Event) : list (string * AdValue) :=
  match evs with
  | [] => []
  | EvSetJobAttr None key value :: rest => (key, value) :: attr_writes rest
  | _ :: rest => attr_writes rest
  end.

(** [enumerate(endpoints)] started at [idx], as keys and values to write. *)
Fixpoint activation_attrs (idx : nat) (endpoints : list string)
  : list (string * AdValue) :=
  match endpoints with
  | [] => []
  | e :: rest => (activation_key idx, AdString e) :: activation_attrs (S idx) rest
  end.

(** A status query reported the endpoint ACTIVE. *)
Definition seen_active (e : string) (evs : list Event) : bool :=
  existsb (reports_active e) evs.

(** Some lookup among these endpoints fails at some moment. *)
Definition lookup_fails (env : Env) (endpoints : list string) : Prop :=
  exists e t, In e endpoints /\ endpoint_info env t e = None.

(** Writing a list of attributes onto a record, in order. *)
Definition write_all (kvs : list (string * AdValue)) (ad : ClassAd) : ClassAd :=
  fold_left (fun ad kv => dict_set (fst kv) (snd kv) ad) kvs ad.

(** The endpoints of the automatic activation calls, in order. *)
Fixpoint autoactivated (evs : list Event) : list string :=
  match evs with
  | [] => []
  | EvAutoactivate e _ :: rest => e :: autoactivated rest
  | _ :: rest => autoactivated rest
  end.

(** A status query that did not report ACTIVE (or any other event). *)
Definition not_reported_active (ev : Event) : bool :=
  match ev with
  | EvEndpointInfo _ (Some info) => negb (is_active info)
  | _ => true
  end.

Module SampleActivation.

(** Without a terminal; automatic activation is accepted for every
    endpoint while the service keeps reporting it inactive. *)
Definition trusting : Env :=
  {| is_interactive := false;
     refresh_token := Some "token";
     endpoint_info := fun _ _ => Some Sample.inactive_info;
     endpoint_autoactivate := fun _ _ => "AutoActivated.CachedCredential";
     confirm := fun _ => true;
     submit_transfer := fun _ => "task";
     task_wait := fun _ => PollReturn true;
     urlencode_origin_id := fun i => "origin_id=" +++ i |}.

(** Every endpoint reports ACTIVE whenever it is asked. *)
Definition all_active : Env :=
  {| is_interactive := false;
     refresh_token := Some "token";
     endpoint_info := fun _ _ => Some Sample.active_info;
     endpoint_autoactivate := fun _ _ => "AlreadyActivated";
     confirm := fun _ => true;
     submit_transfer := fun _ => "task";
     task_wait := fun _ => PollReturn true;
     urlencode_origin_id := fun i => "origin_id=" +++ i |}.

(** The current job record already carries an activation attribute. *)
Definition recorded_once : World :=
  {| trace := []; clock := 0;
     current_ad := [("ENDPOINT_ACTIVATION_REQUIRED_0", AdString "old-endpoint")];
     queue := [] |}.

End SampleActivation.

(** * Observations on hold resolution *)

(** The clusters the scheduler was told to release, in order. *)
Fixpoint released (evs : list Event) : list Z :=
  match evs with
  | [] => []
  | EvRelease c :: rest => c :: released rest
  | _ :: rest => released rest
  end.

(** No event writes attribute [key] of the jobs of cluster [c]. *)
Definition untouched (evs : list Event) (c : Z) (key : string) : Prop :=
  forall v, ~ In (EvSetJobAttr (Some c) key v) evs.

(** What the events may have done to one job record: the cluster and the
    ownership tag stay, and so does every attribute the events do not
    write. *)
Definition job_framed (evs : list Event) (j j' : Job) : Prop :=
  cluster_id j' = cluster_id j
  /\ is_globus_job j' = is_globus_job j
  /\ forall key, untouched evs (cluster_id j) key ->
                 dict_get key (attrs j') = dict_get key (attrs j).

Definition framed (evs : list Event) (q q' : list Job) : Prop :=
  Forall2 (job_framed evs) q q'.

(** The jobs [release] works on. *)
Definition owned_jobs (w : World) : list Job := filter is_globus_job (queue w).

Module SampleQueue.

(** With a terminal: the endpoint becomes ACTIVE after the operator's
    first acknowledgement. *)
Definition attended : Env :=
  {| is_interactive := true;
     refresh_token := Some "token";
     endpoint_info := fun t _ => match t with
                                 | 0%nat | 1%nat => Some Sample.inactive_info
                                 | _ => Some Sample.active_info
                                 end;
     endpoint_autoactivate := fun _ _ => "AutoActivationFailed";
     confirm := fun _ => true;
     submit_transfer := fun _ => "task";
     task_wait := fun _ => PollReturn true;
     urlencode_origin_id := fun i => "origin_id=" +++ i |}.

(** Without a terminal and without a credential. *)
Definition anonymous : Env :=
  {| is_interactive := false;
     refresh_token := None;
     endpoint_info := fun _ _ => Some Sample.inactive_info;
     endpoint_autoactivate := fun _ _ => "AutoActivationFailed";
     confirm := fun _ => true;
     submit_transfer := fun _ => "task";
     task_wait := fun _ => PollReturn true;
     urlencode_origin_id := fun i => "origin_id=" +++ i |}.

(** A held job of this tool that waits for the manual activation of one
    endpoint. *)
Definition waiting_job (c : Z) (endpoint : string) : Job :=
  {| cluster_id := c; is_globus_job := true; is_held := true;
     attrs := [("JobBatchName", AdString "globus transfer");
               ("ENDPOINT_ACTIVATION_REQUIRED_0", AdString endpoint)] |}.

(** A job of this tool that is not held and records no endpoint. *)
Definition running_job (c : Z) : Job :=
  {| cluster_id := c; is_globus_job := true; is_held := false;
     attrs := [("JobBatchName", AdString "globus ls")] |}.

Definition one_waiting : World :=
  {| trace := []; clock := 0; current_ad := [];
     queue := [waiting_job 7 "campus"] |}.

Definition two_waiting : World :=
  {| trace := []; clock := 0; current_ad := [];
     queue := [waiting_job 7 "campus"; waiting_job 8 "archive"] |}.

Definition one_running : World :=
  {| trace := []; clock := 0; current_ad := [];
     queue := [running_job 9] |}.

End SampleQueue.

(** How the resolution of a job can end: normally, or with the command
    terminated by a missing credential, a failed endpoint lookup, or (with
    a terminal) an interrupt of the operator or an endless wait. *)
Definition job_outcome (env : Env) (o : Outcome unit) : Prop :=
  match o with
  | Ret _ => True
  | Exit code _ =>
      (code = AUTHORIZATION_ERROR /\ refresh_token env = None)
      \/ (code = ENDPOINT_INFO_ERROR /\ exists e t, endpoint_info env t e = None)
  | Raise _ => False
  | Abort | OutOfFuel => is_interactive env = true
  end.

(** Every attribute write among the events is the reset of an attribute of
    one of the jobs, recorded for an endpoint that a status query reported
    ACTIVE. *)
Definition resets_justified (jobs : list Job) (evs : list Event) : Prop :=
  forall sc key v,
    In (EvSetJobAttr sc key v) evs ->
    v = AdUndefined
    /\ exists job e,
        In job jobs /\ sc = Some (cluster_id job)
        /\ In (e, key) (manual_endpoints_of job)
        /\ seen_active e evs = true.

(** The line [release] prints when it turns to a job, and the one it
    prints before it releases the job. *)
Definition attempt_line (job : Job) : Event :=
  EvOut ("Attempting to resolve holds for job " +++ Py.str_of_Z (cluster_id job)).

Definition releasing_line (job : Job) : Event :=
  EvOut ("Releasing job " +++ Py.str_of_Z (cluster_id job)).

(** The events that mark the progress of the scan over the jobs: its two
    lines and the releases.  Everything else in a run of [release] belongs
    to the resolution of the endpoints of one job. *)
Definition is_scan_mark (ev : Event) : bool :=
  match ev with
  | EvRelease _ => true
  | EvOut msg =>
      Py.startswith "Attempting to resolve holds for job " msg
      || Py.startswith "Releasing job " msg
  | _ => false
  end.

(** The marks of a job that was worked on and released. *)
Definition job_marks (job : Job) : list Event :=
  [attempt_line job; releasing_line job; EvRelease (cluster_id job)].

(** The marks of a scan that released the first [n] jobs one after the
    other and then either was through ([completed]) or turned to the next
    job and ended while resolving it. *)
Definition scan_marks (jobs : list Job) (n : nat) (completed : bool) : list Event :=
  flat_map job_marks (firstn n jobs)
  ++ (if completed then []
      else match nth_error jobs n with
           | Some job => [attempt_line job]
           | None => []
           end).

(** The events that change a record of the scheduler's queue. *)
Definition is_scheduler_write (ev : Event) : bool :=
  match ev with
  | EvRelease _ | EvSetJobAttr (Some _) _ _ => true
  | _ => false
  end.

Module SampleOperator.

(** With a terminal; the endpoint stays inactive and the operator
    interrupts at the first prompt. *)
Definition interrupting : Env :=
  {| is_interactive := true;
     refresh_token := Some "token";
     endpoint_info := fun _ _ => Some Sample.inactive_info;
     endpoint_autoactivate := fun _ _ => "AutoActivationFailed";
     confirm := fun _ => false;
     submit_transfer := fun _ => "task";
     task_wait := fun _ => PollReturn true;
     urlencode_origin_id := fun i => "origin_id=" +++ i |}.

End SampleOperator.

(** The attributes of the records in the scheduler's queue. *)
Definition attr_of_queue (w : World) : list ClassAd := map attrs (queue w).

(** * Further observations *)

(** The events the wait loop produces. *)
Definition is_wait_event (ev : Event) : bool :=
  match ev with
  | EvTaskWait _ _ | EvWarning _ => true
  | _ => false
  end.

(** A poll that found the task done. *)
Definition is_done_poll (ev : Event) : bool :=
  match ev with EvTaskWait _ (PollReturn true) => true | _ => false end.

(** A line on standard output. *)
Definition is_out (ev : Event) : bool :=
  match ev with EvOut _ => true | _ => false end.

Module SampleWait.

(** The first poll fails in transport, the second times out, the third
    finds the task done. *)
Definition third_time : Env :=
  {| is_interactive := false;
     refresh_token := Some "token";
     endpoint_info := fun _ _ => Some Sample.active_info;
     endpoint_autoactivate := fun _ _ => "AlreadyActivated";
     confirm := fun _ => true;
     submit_transfer := fun _ => "task";
     task_wait := fun k => match k with
                           | 0%nat => PollTransferAPIError "connection reset"
                           | 1%nat => PollReturn false
                           | _ => PollReturn true
                           end;
     urlencode_origin_id := fun i => "origin_id=" +++ i |}.

End SampleWait.

(** The [TransferData] the transfer command starts from. *)
Definition new_transfer_data (source destination : string) (lbl : option string)
           (level : string) (preserve_timestamps verify_checksums : bool)
  : TransferData :=
  {| source_endpoint := source;
     destination_endpoint := destination;
     label := lbl;
     sync_level := level;
     preserve_timestamp := preserve_timestamps;
     verify_checksum := verify_checksums;
     items := [] |}.

(** The events of the transfer service's task interface. *)
Definition is_task_event (ev : Event) : bool := is_submit ev || is_poll ev.

(** The item a well-paired source and destination give. *)
Definition item_of (sd : string * string) : TransferItem :=
  {| item_source := fst sd; item_destination := snd sd;
     item_recursive := ends_with_slash (fst sd) |}.

(** Source and destination are non-empty, free of colons and agree on the
    trailing slash. *)
Definition pairable (sd : string * string) : bool :=
  no_colon (fst sd) && no_colon (snd sd)
  && negb (String.eqb (fst sd) "") && negb (String.eqb (snd sd) "")
  && Bool.eqb (ends_with_slash (fst sd)) (ends_with_slash (snd sd)).

Module SampleTransfer.

(** Both endpoints are ACTIVE and the submitted task never finishes. *)
Definition stalled : Env :=
  {| is_interactive := false;
     refresh_token := Some "token";
     endpoint_info := fun _ _ => Some Sample.active_info;
     endpoint_autoactivate := fun _ _ => "AlreadyActivated";
     confirm := fun _ => true;
     submit_transfer := fun _ => "task-1";
     task_wait := fun _ => PollReturn false;
     urlencode_origin_id := fun i => "origin_id=" +++ i |}.

End SampleTransfer.

(** A prompt to the operator. *)
Definition is_prompt (ev : Event) : bool :=
  match ev with EvConfirm _ => true | _ => false end.

(** The endpoints of a list that the status queries made one after the
    other from clock [t] on report as not ACTIVE. *)
Fixpoint reported_inactive (env : Env) (t : nat) (endpoints : list string)
  : list string :=
  match endpoints with
  | [] => []
  | e :: rest =>
      match endpoint_info env t e with
      | Some info =>
          if is_active info then reported_inactive env (S t) rest
          else e :: reported_inactive env (S t) rest
      | None => []
      end
  end.

(** What a run of resets does to one job record, for a list of targeted
    (cluster, key) pairs: the cluster stays, an attribute that read
    [Undefined] still does, and every targeted attribute of the record
    reads [Undefined]. *)
Definition cleared (targets : list (Z * string)) (j j' : Job) : Prop :=
  cluster_id j' = cluster_id j
  /\ is_globus_job j' = is_globus_job j
  /\ (NoDup (map fst (attrs j)) -> NoDup (map fst (attrs j')))
  /\ (forall key e, In (key, AdString e) (attrs j') -> In (key, AdString e) (attrs j))
  /\ (forall key, dict_get key (attrs j) = Some AdUndefined ->
                  dict_get key (attrs j') = Some AdUndefined)
  /\ (forall key, In (cluster_id j, key) targets ->
                  dict_get key (attrs j') = Some AdUndefined).

(** No endpoint is recorded by two pending attributes of the job. *)
Definition recorded_once (job : Job) : Prop :=
  forall key1 key2 e,
    In (key1, AdString e) (attrs job) -> In (key2, AdString e) (attrs job) ->
    Py.startswith ENDPOINT_ACTIVATION_REQUIRED key1 = true ->
    Py.startswith ENDPOINT_ACTIVATION_REQUIRED key2 = true ->
    key1 = key2.

(** The job records no endpoint as pending. *)
Definition nothing_pending (job : Job) : Prop :=
  forall key e, In (key, AdString e) (attrs job) ->
                Py.startswith ENDPOINT_ACTIVATION_REQUIRED key = false.

(** One step of the comprehension of [release], as in
    [manual_endpoints_of]. *)
Definition collect (d : list (string * string)) (kv : string * AdValue)
  : list (string * string) :=
  match snd kv with
  | AdString v =>
      if Py.startswith ENDPOINT_ACTIVATION_REQUIRED (fst kv)
      then dict_set v (fst kv) d
      else d
  | AdUndefined => d
  end.

(** The (cluster, key) pairs [release] resets for a job. *)
Definition reset_targets (job : Job) : list (Z * string) :=
  map (fun ek => (cluster_id job, snd ek)) (manual_endpoints_of job).

(** The three events of a job that records nothing pending. *)
Definition plain_release_events (job : Job) : list Event :=
  [EvOut ("Attempting to resolve holds for job " +++ Py.str_of_Z (cluster_id job));
   EvOut ("Releasing job " +++ Py.str_of_Z (cluster_id job));
   EvRelease (cluster_id job)].

Module SampleRecords.

(** One endpoint recorded under two attributes, another under one, one
    attribute already cleared. *)
Definition twice_recorded : Job :=
  {| cluster_id := 11; is_globus_job := true; is_held := true;
     attrs := [("ENDPOINT_ACTIVATION_REQUIRED_0", AdString "campus");
               ("ENDPOINT_ACTIVATION_REQUIRED_1", AdString "archive");
               ("ENDPOINT_ACTIVATION_REQUIRED_2", AdUndefined);
               ("ENDPOINT_ACTIVATION_REQUIRED_3", AdString "campus")] |}.

(** A queue whose jobs have nothing pending. *)
Definition settled : World :=
  {| trace := []; clock := 0; current_ad := [];
     queue := [{| cluster_id := 7; is_globus_job := true; is_held := true;
                  attrs := [("JobBatchName", AdString "globus transfer");
                            ("ENDPOINT_ACTIVATION_REQUIRED_0", AdUndefined)] |};
               SampleQueue.running_job 9] |}.

End SampleRecords.

(** * The settings commands *)

(** The settings mapping as the commands of this file use it: the refresh
    token of the [AUTH] table and the [BOOKMARKS] table, a dictionary from
    bookmark to endpoint in insertion order. *)
Record Settings := {
  auth_refresh_token : option string;
  bookmark_table : list (string * string)
}.

Definition with_bookmarks (settings : Settings) (table : list (string * string))
  : Settings :=
  {| auth_refresh_token := auth_refresh_token settings; bookmark_table := table |}.

(** [d.pop(key)]: the value and the dictionary without the key; [None]
    where Python raises [KeyError]. *)
Fixpoint dict_pop {V : Type} (key : string) (d : list (string * V))
  : option (V * list (string * V)) :=
  match d with
  | [] => None
  | (k, v) :: rest =>
      if String.eqb k key then Some (v, rest)
      else match dict_pop key rest with
           | Some (x, rest') => Some (x, (k, v) :: rest')
           | None => None
           end
  end.

(** How a settings command ends: [save_settings(settings)] was reached with
    these settings, [error(msg)] left through [sys.exit] with its default
    code, or [click.confirm(abort=True)] aborted. *)
Inductive SettingsOutcome :=
| Saved (settings : Settings)
| SysExit (code : Z) (msg : string)
| ClickAbort.

Module Bookmarks.

(** [settings[BOOKMARKS][bookmark] = endpoint; save_settings(settings)]. *)
Definition add (settings : Settings) (bookmark endpoint : string) : SettingsOutcome :=
  Saved (with_bookmarks settings
           (dict_set bookmark endpoint (bookmark_table settings))).

(** [settings[BOOKMARKS][new_bookmark] = settings[BOOKMARKS].pop(bookmark)]:
    the right-hand side is evaluated first. *)
Definition rename (settings : Settings) (bookmark new_bookmark : string)
  : SettingsOutcome :=
  match dict_pop bookmark (bookmark_table settings) with
  | Some (endpoint, rest) =>
      Saved (with_bookmarks settings (dict_set new_bookmark endpoint rest))
  | None => SysExit 1 ("No bookmark found with name " +++ bookmark)
  end.

Definition rm (settings : Settings) (bookmark : string) : SettingsOutcome :=
  match dict_pop bookmark (bookmark_table settings) with
  | Some (_, rest) => Saved (with_bookmarks settings rest)
  | None => SysExit 1 ("No bookmark found with name " +++ bookmark)
  end.

(** [confirmed] is the operator's answer to [click.confirm]. *)
Definition clear (confirmed : bool) (settings : Settings) : SettingsOutcome :=
  if confirmed then Saved (with_bookmarks settings []) else ClickAbort.

End Bookmarks.

(** The callback of every endpoint argument:
    [ctx.obj[BOOKMARKS][value] if value in ctx.obj[BOOKMARKS] else value]. *)
Definition _map_endpoint_through_bookmarks (settings : Settings) (value : string)
  : string :=
  match dict_get value (bookmark_table settings) with
  | Some v => v
  | None => value
  end.

Module SampleSettings.

Definition two_bookmarks : Settings :=
  {| auth_refresh_token := Some "token";
     bookmark_table := [("home", "endpoint-a"); ("lab", "endpoint-b")] |}.

End SampleSettings.

(** * Shell completion *)

(** [p in s] on strings. *)
Fixpoint str_contains (p s : string) : bool :=
  String.prefix p s
  || match s with
     | EmptyString => false
     | String _ rest => str_contains p rest
     end.

Definition dq : string := String (Ascii.ascii_of_nat 34) EmptyString.
Definition nl : string := String (Ascii.ascii_of_nat 10) EmptyString.

Inductive Shell := bash | zsh | fish.

Definition shell_name (shell : Shell) : string :=
  match shell with bash => "bash" | zsh => "zsh" | fish => "fish" end.

(** The table of [enable_autocomplete]: the activation command ... *)
Definition completion_command (shell : Shell) : string :=
  match shell with
  | bash => "eval " +++ dq +++ "$(_GLOBUS_COMPLETE=source_bash globus)" +++ dq
  | zsh => "eval " +++ dq +++ "$(_GLOBUS_COMPLETE=source_zsh globus)" +++ dq
  | fish => "eval (env _GLOBUS_COMPLETE=source_fish foo-bar)"
  end.

(** ... and the startup file of the shell, below [Path.home()]. *)
Definition default_destination (home : string) (shell : Shell) : string :=
  match shell with
  | bash => home +++ "/.bashrc"
  | zsh => home +++ "/.zshrc"
  | fish => home +++ "/.config/fish/completions/globus.fish"
  end.

(** What is appended to the startup file. *)
Definition completion_block (shell : Shell) : string :=
  nl +++ "# enable globus-transfer autocompletion" +++ nl
     +++ completion_command shell +++ nl.

Inductive CompletionOutcome :=
| Printed (msg : string)
| FileNotFoundError.

(** The files by path.  [dst.read_text()] raises [FileNotFoundError] on a
    missing file; [dst.open(mode="a")] creates it, its directory taken to
    exist. *)
Definition enable_autocomplete (home : string) (shell : Shell) (force : bool)
    (destination : option string) (files : list (string * string))
  : CompletionOutcome * list (string * string) :=
  let cmd := completion_command shell in
  let dst := match destination with
             | Some d => d
             | None => default_destination home shell
             end in
  let append :=
    (Printed ("Autocompletion enabled for " +++ shell_name shell
              +++ " (startup command added to " +++ dst +++ ")"),
     dict_set dst
       (match dict_get dst files with Some text => text | None => "" end
        +++ completion_block shell)
       files) in
  if force then append
  else
    match dict_get dst files with
    | None => (FileNotFoundError, files)
    | Some text =>
        if str_contains cmd text
        then (Printed ("Autocompletion already enabled for " +++ shell_name shell),
              files)
        else append
    end.

(** * Submit descriptions *)

(** [" ".join((arg for arg in args if arg != constants.AS_JOB))]; the name
    of the flag is a constant that is not among the sources. *)
Definition args_string (AS_JOB : string) (args : list string) : string :=
  Py.join " " (filter (fun arg => negb (String.eqb arg AS_JOB)) args).

(** ['transfer' in args_string], the value of [+IsTransferJob]. *)
Definition IsTransferJob (AS_JOB : string) (args : list string) : bool :=
  str_contains "transfer" (args_string AS_JOB args).

(** The characters of a string differ from [c]. *)
Fixpoint free_of (c : ascii) (s : string) : bool :=
  match s with
  | EmptyString => true
  | String a rest => negb (Ascii.eqb a c) && free_of c rest
  end.

(* ================================================================== *)
(** * Theorems *)

Lemma count_events_app p tr1 tr2 :
  count_events p (tr1 ++ tr2) = (count_events p tr1 + count_events p tr2)%nat.
Proof. unfold count_events. now rewrite filter_app, length_app. Qed.

Lemma attempts_left_last max_attempts attempts :
  attempts + 1 >= max_attempts -> attempts_left max_attempts attempts = 1%nat.
Proof. unfold attempts_left. lia. Qed.

Lemma attempts_left_step max_attempts attempts :
  attempts + 1 < max_attempts ->
  attempts_left max_attempts attempts = S (attempts_left max_attempts (attempts + 1)).
Proof. unfold attempts_left. lia. Qed.

(** * The task wait loop *)

Section WaitLoop.

Variable env : Env.
Variable task_id : string.
Variable max_attempts : Z.

Lemma wait_loop_exhausted :
  forall fuel attempts errored w,
    (attempts_left max_attempts attempts <= fuel)%nat ->
    (forall k, (clock w <= k < clock w + attempts_left max_attempts attempts)%nat ->
               task_wait env k <> PollReturn true) ->
    exists msg w',
      wait_loop env fuel task_id max_attempts attempts false errored w
      = (Exit (exhausted_code errored
                 (map (task_wait env)
                      (seq (clock w) (attempts_left max_attempts attempts))))
              msg, w')
      /\ count_events is_poll (trace w')
         = (count_events is_poll (trace w) + attempts_left max_attempts attempts)%nat.
Proof.
  induction fuel as [|fuel IH]; intros attempts errored w Hfuel Hnot.
  - unfold attempts_left in Hfuel. lia.
  - cbn [wait_loop]. unfold bind at 1. unfold tc_task_wait at 1.
    assert (H0 : task_wait env (clock w) <> PollReturn true).
    { apply Hnot. unfold attempts_left. lia. }
    destruct (Z.geb_spec (attempts + 1) max_attempts) as [Hlast|Hmore].
    + (* the last pass *)
      rewrite (attempts_left_last max_attempts attempts) by lia.
      cbn [seq map]. unfold exhausted_code. cbn [existsb].
      destruct (task_wait env (clock w)) as [[|]|message] eqn:E;
        [congruence| |];
        unfold bind, ret, warning, error; cbn;
        (destruct (attempts + 1 >=? max_attempts) eqn:G; [|lia]);
        rewrite ?orb_false_r, ?orb_true_r;
        destruct errored;
        eexists; eexists; (split; [reflexivity|]);
        cbn [trace answered emit]; rewrite ?count_events_app; cbn; lia.
    + (* another pass follows *)
      rewrite (attempts_left_step max_attempts attempts) in * by lia.
      cbn [seq map]. unfold exhausted_code. cbn [existsb].
      destruct (task_wait env (clock w)) as [[|]|message] eqn:E; [congruence| |].
      * unfold bind at 1. unfold ret at 1. cbn [fst snd].
        destruct (attempts + 1 >=? max_attempts) eqn:G; [lia|].
        destruct (IH (attempts + 1) errored (answered (EvTaskWait task_id (PollReturn false)) w))
          as (msg & w' & Hrun & Hcount).
        { lia. }
        { intros k Hk. apply Hnot. cbn in Hk. lia. }
        exists msg, w'. split.
        -- rewrite Hrun. cbn [answered clock]. unfold exhausted_code.
           cbn. reflexivity.
        -- rewrite Hcount. cbn [trace answered emit].
           rewrite count_events_app. cbn. lia.
      * unfold bind at 1. unfold bind at 1. unfold warning at 1.
        unfold ret at 1. cbn [fst snd].
        destruct (attempts + 1 >=? max_attempts) eqn:G; [lia|].
        destruct (IH (attempts + 1) true
                     (emit (EvWarning ("Could not wait for task " +++ task_id
                                       +++ " due to error: " +++ message))
                           (answered (EvTaskWait task_id (PollTransferAPIError message)) w)))
          as (msg & w' & Hrun & Hcount).
        { lia. }
        { intros k Hk. apply Hnot. cbn in Hk. lia. }
        exists msg, w'. split.
        -- rewrite Hrun. cbn [answered emit clock]. unfold exhausted_code.
           cbn. rewrite orb_true_r. reflexivity.
        -- rewrite Hcount. cbn [trace answered emit].
           rewrite !count_events_app. cbn. lia.
Qed.

Lemma wait_loop_terminates :
  forall fuel attempts errored w,
    (attempts_left max_attempts attempts <= fuel)%nat ->
    exists o w' polls,
      wait_loop env fuel task_id max_attempts attempts false errored w = (o, w')
      /\ wait_finished o = true
      /\ (1 <= polls <= attempts_left max_attempts attempts)%nat
      /\ count_events is_poll (trace w')
         = (count_events is_poll (trace w) + polls)%nat.
Proof.
  induction fuel as [|fuel IH]; intros attempts errored w Hfuel.
  - unfold attempts_left in Hfuel. lia.
  - cbn [wait_loop]. unfold bind at 1. unfold tc_task_wait at 1.
    destruct (task_wait env (clock w)) as [[|]|message] eqn:E.
    + (* done *)
      unfold bind, ret. cbn [fst snd].
      eexists; eexists; exists 1%nat. split; [reflexivity|].
      split; [reflexivity|]. split; [unfold attempts_left; lia|].
      cbn [trace answered]. rewrite count_events_app. reflexivity.
    + (* not done *)
      unfold bind at 1. unfold ret at 1. cbn [fst snd].
      destruct (Z.geb_spec (attempts + 1) max_attempts) as [Hlast|Hmore].
      * unfold error. destruct errored;
          (eexists; eexists; exists 1%nat; split; [reflexivity|];
           split; [reflexivity|]; split; [unfold attempts_left; lia|];
           cbn [trace answered]; rewrite count_events_app; reflexivity).
      * destruct (IH (attempts + 1) errored
                     (answered (EvTaskWait task_id (PollReturn false)) w))
          as (o & w' & polls & Hrun & Hfin & Hbound & Hcount).
        { rewrite (attempts_left_step max_attempts attempts) in Hfuel by lia. lia. }
        exists o, w', (S polls). split; [exact Hrun|]. split; [exact Hfin|].
        split; [rewrite (attempts_left_step max_attempts attempts) by lia; lia|].
        rewrite Hcount. cbn [trace answered]. rewrite count_events_app. cbn. lia.
    + (* transient error *)
      unfold bind at 1. unfold bind at 1. unfold warning at 1.
      unfold ret at 1. cbn [fst snd].
      destruct (Z.geb_spec (attempts + 1) max_attempts) as [Hlast|Hmore].
      * unfold error.
        eexists; eexists; exists 1%nat. split; [reflexivity|].
        split; [reflexivity|]. split; [unfold attempts_left; lia|].
        cbn [trace answered emit]. rewrite !count_events_app. cbn. lia.
      * destruct (IH (attempts + 1) true
                     (emit (EvWarning ("Could not wait for task " +++ task_id
                                       +++ " due to error: " +++ message))
                           (answered (EvTaskWait task_id (PollTransferAPIError message)) w)))
          as (o & w' & polls & Hrun & Hfin & Hbound & Hcount).
        { rewrite (attempts_left_step max_attempts attempts) in Hfuel by lia. lia. }
        exists o, w', (S polls). split; [exact Hrun|]. split; [exact Hfin|].
        split; [rewrite (attempts_left_step max_attempts attempts) by lia; lia|].
        rewrite Hcount. cbn [trace answered emit]. rewrite !count_events_app. cbn. lia.
Qed.

End WaitLoop.

(** C1: in the task wait loop a poll that raises a transient transfer-API
    error does not end the loop: when none of the
    [max(max_attempts, 1)] polls reports done, every one of them is made,
    and the command then exits with [WAIT_TASK_TIMEOUT] if no poll raised
    and with [WAIT_TASK_ERROR] if at least one did. *)
Theorem wait_exhaustion_exit_code env fuel task_id timeout interval max_attempts w :
  (Z.to_nat (Z.max max_attempts 1) <= fuel)%nat ->
  (forall k, (clock w <= k < clock w + Z.to_nat (Z.max max_attempts 1))%nat ->
             task_wait env k <> PollReturn true) ->
  exists msg w',
    wait_for_task_or_exit env fuel task_id timeout interval max_attempts w
    = (Exit (if existsb is_api_error
                  (map (task_wait env)
                       (seq (clock w) (Z.to_nat (Z.max max_attempts 1))))
             then WAIT_TASK_ERROR else WAIT_TASK_TIMEOUT) msg, w')
    /\ count_events is_poll (trace w')
       = (count_events is_poll (trace w) + Z.to_nat (Z.max max_attempts 1))%nat.
Proof.
  intros Hfuel Hnot.
  assert (Hleft : attempts_left max_attempts 0 = Z.to_nat (Z.max max_attempts 1)).
  { unfold attempts_left. now rewrite Z.sub_0_r. }
  unfold wait_for_task_or_exit.
  destruct (wait_loop_exhausted env task_id max_attempts fuel 0 false w)
    as (msg & w' & Hrun & Hcount).
  - now rewrite Hleft.
  - now rewrite Hleft.
  - rewrite Hleft in Hrun, Hcount. exists msg, w'. split; [exact Hrun | exact Hcount].
Qed.

Lemma wait_exhaustion_exit_code_witness :
  exists msg w',
    wait_for_task_or_exit Sample.flaky 2 "task" 60 10 2 Sample.empty_world
    = (Exit WAIT_TASK_ERROR msg, w')
    /\ count_events is_poll (trace w') = 2%nat.
Proof.
  apply (wait_exhaustion_exit_code Sample.flaky 2 "task" 60 10 2 Sample.empty_world).
  - vm_compute. lia.
  - intros k Hk. destruct k as [|k]; cbn; discriminate.
Defined.

(** C9: whatever [max_attempts] is (zero and negative included) and
    whatever the polls answer, the wait loop ends after at least one and at
    most [max(max_attempts, 1)] polls, either returning on a done answer or
    exiting with one of the two wait codes. *)
Theorem wait_terminates env extra task_id timeout interval max_attempts w :
  exists o w' polls,
    wait_for_task_or_exit env (Z.to_nat (Z.max max_attempts 1) + extra)
                          task_id timeout interval max_attempts w = (o, w')
    /\ wait_finished o = true
    /\ (1 <= polls <= Z.to_nat (Z.max max_attempts 1))%nat
    /\ count_events is_poll (trace w')
       = (count_events is_poll (trace w) + polls)%nat.
Proof.
  assert (Hleft : attempts_left max_attempts 0 = Z.to_nat (Z.max max_attempts 1)).
  { unfold attempts_left. now rewrite Z.sub_0_r. }
  unfold wait_for_task_or_exit.
  destruct (wait_loop_terminates env task_id max_attempts
              (Z.to_nat (Z.max max_attempts 1) + extra) 0 false w)
    as (o & w' & polls & Hrun & Hfin & Hbound & Hcount).
  - rewrite Hleft. lia.
  - rewrite Hleft in Hbound. exists o, w', polls. auto.
Qed.

(** * Transfer specifications *)

Section Split.

Variable sep : ascii.

Lemma split_not_nil s : Py.split sep s <> [].
Proof.
  destruct s as [|c s]; cbn; [discriminate|].
  destruct (Ascii.eqb c sep); [discriminate|].
  destruct (Py.split sep s); discriminate.
Qed.

Lemma split_length s :
  List.length (Py.split sep s) = S (count_char sep s).
Proof.
  induction s as [|c s IH]; cbn; [reflexivity|].
  destruct (Ascii.eqb c sep); cbn.
  - now rewrite IH.
  - destruct (Py.split sep s) eqn:E; cbn in *; [discriminate|exact IH].
Qed.

Lemma split_no_sep s :
  count_char sep s = 0%nat -> Py.split sep s = [s].
Proof.
  induction s as [|c s IH]; cbn; [reflexivity|].
  destruct (Ascii.eqb c sep); [discriminate|].
  intros H. now rewrite IH.
Qed.

Lemma split_at_first_sep src rest :
  count_char sep src = 0%nat ->
  Py.split sep (src +++ String sep rest) = src :: Py.split sep rest.
Proof.
  induction src as [|c s IH]; cbn.
  - now rewrite Ascii.eqb_refl.
  - destruct (Ascii.eqb c sep); [discriminate|].
    intros H. now rewrite IH.
Qed.

Lemma join_cons_cons (j p q : string) (r : list string) :
  Py.join j (p :: q :: r) = p +++ j +++ Py.join j (q :: r).
Proof. reflexivity. Qed.

(** The pieces of a split, joined by the separator, give the string
    back, and no piece contains the separator. *)
Lemma split_pieces s :
  Forall (fun p => count_char sep p = 0%nat) (Py.split sep s)
  /\ Py.join (String sep EmptyString) (Py.split sep s) = s.
Proof.
  induction s as [|c s [IHf IHj]]; cbn.
  - split; [repeat constructor | reflexivity].
  - destruct (Ascii.eqb_spec c sep) as [->|Hne].
    + split; [constructor; [reflexivity | exact IHf]|].
      destruct (Py.split sep s) eqn:E; [now destruct (split_not_nil s)|].
      rewrite join_cons_cons, IHj. reflexivity.
    + destruct (Py.split sep s) as [|p ps] eqn:E; [now destruct (split_not_nil s)|].
      pose proof (Forall_inv IHf) as Hp. pose proof (Forall_inv_tail IHf) as Hps.
      cbn beta in Hp. split.
      * constructor; [|exact Hps]. cbn.
        destruct (Ascii.eqb_spec c sep); [contradiction | exact Hp].
      * destruct ps as [|q r].
        -- cbn in *. now rewrite IHj.
        -- rewrite join_cons_cons in *. cbn [String.append] in *. now rewrite IHj.
Qed.

End Split.

Lemma no_colon_count s : no_colon s = true <-> count_char ":" s = 0%nat.
Proof. unfold no_colon. apply Nat.eqb_eq. Qed.

Lemma split_spec_of src dst :
  no_colon src = true -> no_colon dst = true ->
  Py.split ":" (spec_of src dst) = [src; dst].
Proof.
  intros Hs Hd. apply no_colon_count in Hs, Hd. unfold spec_of. cbn.
  rewrite split_at_first_sep by exact Hs. now rewrite split_no_sep.
Qed.

(** A string that splits into two pieces is those pieces around one colon. *)
Lemma split_two t src dst :
  Py.split ":" t = [src; dst] ->
  t = spec_of src dst /\ no_colon src = true /\ no_colon dst = true.
Proof.
  intros H. destruct (split_pieces ":" t) as [Hf Hj]. rewrite H in Hf, Hj.
  pose proof (Forall_inv Hf) as Hs.
  pose proof (Forall_inv (Forall_inv_tail Hf)) as Hd. cbn beta in Hs, Hd.
  split; [now rewrite <- Hj | split; now apply no_colon_count].
Qed.

Lemma last_char_none s : Py.last_char s = None <-> s = "".
Proof.
  split; [|now intros ->].
  induction s as [|c s IH]; [reflexivity|].
  cbn. destruct s; [discriminate|]. intros H. now apply IH in H.
Qed.

Lemma ends_with_slash_last s c :
  Py.last_char s = Some c -> ends_with_slash s = Ascii.eqb c "/".
Proof. unfold ends_with_slash. now intros ->. Qed.

Section TransferSpecs.

Variable env : Env.

(** The chained comparison [src[-1] == dst[-1] == "/"]. *)
Lemma both_slash (s d : ascii) :
  Ascii.eqb s d && Ascii.eqb d "/" = Ascii.eqb s "/" && Ascii.eqb d "/".
Proof.
  destruct (Ascii.eqb_spec d "/") as [->|Hd]; [reflexivity|].
  now rewrite !andb_false_r.
Qed.

Lemma add_transfer_paired src dst tdata w :
  no_colon src = true -> no_colon dst = true -> src <> "" -> dst <> "" ->
  ends_with_slash src = ends_with_slash dst ->
  add_transfer (spec_of src dst) tdata w
  = (Ret (add_item tdata src dst (ends_with_slash src)), w).
Proof.
  intros Hs Hd Hsne Hdne Hsame. unfold add_transfer.
  rewrite split_spec_of by assumption.
  destruct (Py.last_char src) as [s|] eqn:Es; [|now apply last_char_none in Es].
  destruct (Py.last_char dst) as [d|] eqn:Ed; [|now apply last_char_none in Ed].
  rewrite (ends_with_slash_last _ _ Es), (ends_with_slash_last _ _ Ed) in *.
  rewrite both_slash.
  now destruct (Ascii.eqb s "/"), (Ascii.eqb d "/").
Qed.

Lemma add_transfer_mixed src dst tdata w :
  no_colon src = true -> no_colon dst = true -> src <> "" -> dst <> "" ->
  ends_with_slash src <> ends_with_slash dst ->
  add_transfer (spec_of src dst) tdata w
  = (Exit INVALID_TRANSFER_SPECIFICATION_ERROR
          ("Invalid transfer specification '" +++ spec_of src dst
           +++ "' (if transferring directories, both paths must end with /)"), w).
Proof.
  intros Hs Hd Hsne Hdne Hdiff. unfold add_transfer.
  rewrite split_spec_of by assumption.
  destruct (Py.last_char src) as [s|] eqn:Es; [|now apply last_char_none in Es].
  destruct (Py.last_char dst) as [d|] eqn:Ed; [|now apply last_char_none in Ed].
  rewrite (ends_with_slash_last _ _ Es), (ends_with_slash_last _ _ Ed) in *.
  rewrite both_slash.
  now destruct (Ascii.eqb s "/"), (Ascii.eqb d "/").
Qed.

Lemma add_transfer_value_error t tdata w :
  count_char ":" t <> 1%nat ->
  add_transfer t tdata w = (Raise Py.ValueError, w).
Proof.
  intros Hcount. unfold add_transfer.
  pose proof (split_length ":" t) as Hlen.
  destruct (Py.split ":" t) as [|a [|b [|c l]]]; cbn in Hlen;
    try reflexivity.
  lia.
Qed.

Lemma add_transfer_index_error src dst tdata w :
  no_colon src = true -> no_colon dst = true -> src = "" \/ dst = "" ->
  add_transfer (spec_of src dst) tdata w = (Raise Py.IndexError, w).
Proof.
  intros Hs Hd Hempty. unfold add_transfer.
  rewrite split_spec_of by assumption.
  destruct Hempty as [-> | ->]; cbn.
  - reflexivity.
  - now destruct (Py.last_char src).
Qed.

(** Where the parser raises: exactly outside the strings made of two
    non-empty colon-free pieces around one colon. *)
Lemma add_transfer_raises_iff t tdata w :
  (exists exn, add_transfer t tdata w = (Raise exn, w))
  <-> ~ (exists src dst, t = spec_of src dst
                         /\ no_colon src = true /\ no_colon dst = true
                         /\ src <> "" /\ dst <> "").
Proof.
  split.
  - intros [exn Hraise] (src & dst & -> & Hs & Hd & Hsne & Hdne).
    destruct (Bool.bool_dec (ends_with_slash src) (ends_with_slash dst)) as [Heq|Hne].
    + rewrite add_transfer_paired in Hraise by assumption. discriminate.
    + rewrite add_transfer_mixed in Hraise by assumption. discriminate.
  - intros Hnot. unfold add_transfer.
    destruct (Py.split ":" t) as [|src [|dst [|c l]]] eqn:E;
      try (now exists Py.ValueError).
    destruct (split_two _ _ _ E) as (-> & Hs & Hd).
    destruct (Py.last_char src) as [s|] eqn:Es; [|now exists Py.IndexError].
    destruct (Py.last_char dst) as [d|] eqn:Ed; [|now exists Py.IndexError].
    exfalso. apply Hnot. exists src, dst. repeat split; try assumption.
    + intros ->. discriminate.
    + intros ->. discriminate.
Qed.

Lemma add_transfer_well_paired t tdata w :
  well_paired t = true ->
  exists tdata', add_transfer t tdata w = (Ret tdata', w).
Proof.
  unfold well_paired, add_transfer.
  destruct (Py.split ":" t) as [|src [|dst [|c l]]]; try discriminate.
  destruct (Py.last_char src) as [s|]; [|discriminate].
  destruct (Py.last_char dst) as [d|]; [|discriminate].
  rewrite both_slash.
  destruct (Ascii.eqb s "/"), (Ascii.eqb d "/"); try discriminate; intros _;
    eexists; reflexivity.
Qed.

(** Well-paired specifications in front are passed over; the loop then
    stands at the next specification. *)
Lemma add_transfers_skip pre rest :
  forallb well_paired pre = true ->
  forall tdata w, exists tdata',
    add_transfers (pre ++ rest) tdata w = add_transfers rest tdata' w.
Proof.
  induction pre as [|t pre IH]; intros Hpre tdata w.
  - exists tdata. reflexivity.
  - cbn in Hpre. apply andb_prop in Hpre as [Ht Hpre].
    destruct (add_transfer_well_paired t tdata w Ht) as [tdata1 H1].
    destruct (IH Hpre tdata1 w) as [tdata' H'].
    exists tdata'. cbn [app add_transfers]. unfold bind at 1. now rewrite H1.
Qed.

(** The parser touches nothing outside. *)
Lemma add_transfer_pure t tdata w :
  exists o, add_transfer t tdata w = (o, w).
Proof.
  unfold add_transfer.
  destruct (Py.split ":" t) as [|src [|dst [|c l]]]; try (eexists; reflexivity).
  destruct (Py.last_char src), (Py.last_char dst); try (eexists; reflexivity).
  destruct (_ && _); [eexists; reflexivity|].
  destruct (_ || _); eexists; reflexivity.
Qed.

Lemma add_transfers_stop_at t transfers :
  In t transfers ->
  (forall tdata w, exists o, add_transfer t tdata w = (o, w) /\ returned o = false) ->
  forall tdata w,
  exists o, add_transfers transfers tdata w = (o, w) /\ returned o = false.
Proof.
  intros Hin Hfail. induction transfers as [|t' rest IH]; [contradiction|].
  intros tdata w. cbn [add_transfers]. unfold bind at 1.
  destruct Hin as [-> | Hin].
  - destruct (Hfail tdata w) as (o & -> & Ho).
    destruct o; try discriminate; eexists; split; reflexivity.
  - destruct (add_transfer_pure t' tdata w) as [o ->].
    destruct o; try (eexists; split; reflexivity).
    apply (IH Hin).
Qed.

Variables (fuel : nat) (source destination : string) (lbl : option string)
          (level : string) (preserve_timestamps verify_checksums wait : bool)
          (timeout interval attempts : Z).

Lemma transfer_exits_at pre t post code msg w :
  refresh_token env <> None ->
  forallb well_paired pre = true ->
  (forall tdata, add_transfer t tdata w = (Exit code msg, w)) ->
  transfer env fuel source destination (pre ++ t :: post) lbl level
           preserve_timestamps verify_checksums wait timeout interval attempts w
  = (Exit code msg, w).
Proof.
  intros Htok Hpre Ht. unfold transfer, get_transfer_client_or_exit.
  destruct (refresh_token env); [|congruence].
  unfold bind at 1. unfold ret at 1. unfold bind at 1.
  match goal with |- context [add_transfers _ ?td w] =>
    destruct (add_transfers_skip pre (t :: post) Hpre td w) as [tdata' ->] end.
  cbn [add_transfers]. unfold bind at 1. now rewrite Ht.
Qed.

Lemma transfer_raises_at pre t post exn w :
  refresh_token env <> None ->
  forallb well_paired pre = true ->
  (forall tdata, add_transfer t tdata w = (Raise exn, w)) ->
  transfer env fuel source destination (pre ++ t :: post) lbl level
           preserve_timestamps verify_checksums wait timeout interval attempts w
  = (Raise exn, w).
Proof.
  intros Htok Hpre Ht. unfold transfer, get_transfer_client_or_exit.
  destruct (refresh_token env); [|congruence].
  unfold bind at 1. unfold ret at 1. unfold bind at 1.
  match goal with |- context [add_transfers _ ?td w] =>
    destruct (add_transfers_skip pre (t :: post) Hpre td w) as [tdata' ->] end.
  cbn [add_transfers]. unfold bind at 1. now rewrite Ht.
Qed.

Lemma transfer_stops_before_calls t transfers w :
  In t transfers ->
  (forall tdata w, exists o, add_transfer t tdata w = (o, w) /\ returned o = false) ->
  exists o,
    transfer env fuel source destination transfers lbl level
             preserve_timestamps verify_checksums wait timeout interval attempts w
    = (o, w) /\ returned o = false.
Proof.
  intros Hin Hfail. unfold transfer, get_transfer_client_or_exit.
  destruct (refresh_token env).
  - unfold bind at 1. unfold ret at 1. unfold bind at 1.
    match goal with |- context [add_transfers _ ?td w] =>
      destruct (add_transfers_stop_at t transfers Hin Hfail td w) as (o & -> & Ho) end.
    destruct o; try discriminate; eexists; split; reflexivity.
  - eexists. split; reflexivity.
Qed.

End TransferSpecs.

(** C5: once the credential is found and the specifications in front are
    well paired, a specification whose two colon-separated paths disagree on
    the trailing slash ends the transfer command with
    [INVALID_TRANSFER_SPECIFICATION_ERROR]; the world comes back untouched,
    so neither an activation call nor the submission of the transfer has
    been made.  Wherever such a specification stands in the list, the
    command ends without a value and without having touched the world.  A
    specification whose paths agree is accepted: it adds one
    item, recursive when both paths end with a slash and a single file when
    neither does. *)
Theorem transfer_spec_slash_pairing
        env fuel source destination lbl level preserve_timestamps verify_checksums
        wait timeout interval attempts pre post src dst w :
  refresh_token env <> None ->
  forallb well_paired pre = true ->
  no_colon src = true -> no_colon dst = true -> src <> "" -> dst <> "" ->
  (ends_with_slash src <> ends_with_slash dst ->
   exists msg,
     transfer env fuel source destination (pre ++ spec_of src dst :: post) lbl level
              preserve_timestamps verify_checksums wait timeout interval attempts w
     = (Exit INVALID_TRANSFER_SPECIFICATION_ERROR msg, w))
  /\ (ends_with_slash src <> ends_with_slash dst ->
      forall transfers w0, In (spec_of src dst) transfers ->
      exists o,
        transfer env fuel source destination transfers lbl level
                 preserve_timestamps verify_checksums wait timeout interval attempts w0
        = (o, w0) /\ returned o = false)
  /\ (ends_with_slash src = ends_with_slash dst ->
      forall tdata w0,
        add_transfer (spec_of src dst) tdata w0
        = (Ret (add_item tdata src dst (ends_with_slash src)), w0)).
Proof.
  intros Htok Hpre Hs Hd Hsne Hdne. split; [|split].
  - intros Hdiff. eexists. apply transfer_exits_at; [assumption | assumption |].
    intros tdata. now apply add_transfer_mixed.
  - intros Hdiff transfers w0 Hin.
    apply (transfer_stops_before_calls env fuel source destination lbl level
             preserve_timestamps verify_checksums wait timeout interval attempts
             (spec_of src dst) transfers w0 Hin).
    intros tdata w1. eexists. split; [now apply add_transfer_mixed | reflexivity].
  - intros Hsame tdata w0. now apply add_transfer_paired.
Qed.

Lemma transfer_spec_slash_pairing_witness :
  exists msg,
    transfer Sample.batch 0 "src-endpoint" "dst-endpoint"
             ["/a/:/b/"; "/a:/b"; "/a/:/b"] None "checksum" true true false 60 10 1
             Sample.empty_world
    = (Exit INVALID_TRANSFER_SPECIFICATION_ERROR msg, Sample.empty_world).
Proof.
  refine (proj1 (transfer_spec_slash_pairing
                   Sample.batch 0 "src-endpoint" "dst-endpoint" None "checksum"
                   true true false 60 10 1 ["/a/:/b/"; "/a:/b"] [] "/a/" "/b"
                   Sample.empty_world _ _ _ _ _ _) _);
    try reflexivity; try discriminate.
Defined.

(** The two accepted shapes of the spec's example, and the items they add. *)
Example directory_spec_accepted tdata w :
  add_transfer "/a/:/b/" tdata w = (Ret (add_item tdata "/a/" "/b/" true), w).
Proof. reflexivity. Qed.

Example file_spec_accepted tdata w :
  add_transfer "/a:/b" tdata w = (Ret (add_item tdata "/a" "/b" false), w).
Proof. reflexivity. Qed.

(** C10: the specification parser returns only on strings made of two
    non-empty pieces around a single colon.  Once the credential is found
    and the specifications in front are well paired, a specification with no
    colon or more than one ends the transfer command with an uncaught
    [ValueError] (the two-way unpacking of the split), one with an empty
    side with an uncaught [IndexError] (the last character of an empty
    string); neither reaches the [INVALID_TRANSFER_SPECIFICATION_ERROR]
    exit. *)
Theorem transfer_spec_parser_partial
        env fuel source destination lbl level preserve_timestamps verify_checksums
        wait timeout interval attempts pre post t w :
  refresh_token env <> None ->
  forallb well_paired pre = true ->
  (count_char ":" t <> 1%nat ->
   transfer env fuel source destination (pre ++ t :: post) lbl level
            preserve_timestamps verify_checksums wait timeout interval attempts w
   = (Raise Py.ValueError, w))
  /\ (forall src dst,
         t = spec_of src dst -> no_colon src = true -> no_colon dst = true ->
         src = "" \/ dst = "" ->
         transfer env fuel source destination (pre ++ t :: post) lbl level
                  preserve_timestamps verify_checksums wait timeout interval attempts w
         = (Raise Py.IndexError, w))
  /\ (forall tdata w0,
         (exists exn, add_transfer t tdata w0 = (Raise exn, w0))
         <-> ~ (exists src dst, t = spec_of src dst
                                /\ no_colon src = true /\ no_colon dst = true
                                /\ src <> "" /\ dst <> "")).
Proof.
  intros Htok Hpre. split; [|split].
  - intros Hcount. apply transfer_raises_at; [assumption | assumption |].
    intros tdata. now apply add_transfer_value_error.
  - intros src dst -> Hs Hd Hempty.
    apply transfer_raises_at; [assumption | assumption |].
    intros tdata. now apply add_transfer_index_error.
  - intros tdata w0. apply add_transfer_raises_iff.
Qed.

Lemma transfer_spec_parser_partial_witness :
  transfer Sample.batch 0 "src-endpoint" "dst-endpoint"
           ["/a:/b"; "/a:/b:/c"; "/a/:/b"] None "checksum" true true false 60 10 1
           Sample.empty_world
  = (Raise Py.ValueError, Sample.empty_world)
  /\ transfer Sample.batch 0 "src-endpoint" "dst-endpoint"
              ["/a:/b"; ":/b"] None "checksum" true true false 60 10 1
              Sample.empty_world
     = (Raise Py.IndexError, Sample.empty_world).
Proof.
  split.
  - refine (proj1 (transfer_spec_parser_partial
                     Sample.batch 0 "src-endpoint" "dst-endpoint" None "checksum"
                     true true false 60 10 1 ["/a:/b"] ["/a/:/b"] "/a:/b:/c"
                     Sample.empty_world _ _) _);
      try reflexivity; try discriminate.
  - refine (proj1 (proj2 (transfer_spec_parser_partial
                     Sample.batch 0 "src-endpoint" "dst-endpoint" None "checksum"
                     true true false 60 10 1 ["/a:/b"] [] ":/b"
                     Sample.empty_world _ _)) "" "/b" _ _ _ _);
      try reflexivity; try discriminate.
    now left.
Defined.

(** * Endpoint activation *)

Lemma forallb_app_true {A} (p : A -> bool) l1 l2 :
  forallb p l1 = true -> forallb p l2 = true -> forallb p (l1 ++ l2) = true.
Proof. intros H1 H2. rewrite forallb_app, H1, H2. reflexivity. Qed.

Lemma vouched_app e evs1 evs2 :
  vouched e (evs1 ++ evs2) = vouched e evs1 || vouched e evs2.
Proof. unfold vouched. apply existsb_app. Qed.

Lemma vouched_cons e ev evs :
  vouched e (ev :: evs)
  = (reports_active e ev || accepts_auto e ev) || vouched e evs.
Proof. reflexivity. Qed.

Lemma vouched_app_l e evs1 evs2 :
  vouched e evs1 = true -> vouched e (evs1 ++ evs2) = true.
Proof. intros H. now rewrite vouched_app, H. Qed.

Lemma vouched_app_r e evs1 evs2 :
  vouched e evs2 = true -> vouched e (evs1 ++ evs2) = true.
Proof. intros H. rewrite vouched_app, H. apply orb_true_r. Qed.

Section Activation.

Variable env : Env.

(** The opening status queries: the command goes on with the endpoints
    that were not reported ACTIVE, or leaves on a failed lookup. *)
Lemma inactive_endpoints_run endpoints :
  forall w o w',
    inactive_endpoints env endpoints w = (o, w') ->
    exists evs,
      trace w' = trace w ++ evs
      /\ forallb is_lookup evs = true
      /\ current_ad w' = current_ad w /\ queue w' = queue w
      /\ match o with
         | Ret unactivated =>
             incl unactivated endpoints
             /\ clock w' = (clock w + List.length endpoints)%nat
             /\ forall e, In e endpoints ->
                          In e unactivated \/ vouched e evs = true
         | Exit code _ => code = ENDPOINT_INFO_ERROR /\ lookup_fails env endpoints
         | _ => False
         end.
Proof.
  induction endpoints as [|e rest IH]; intros w o w' Hrun.
  - inversion Hrun; subst. exists []. rewrite app_nil_r.
    repeat split; auto using incl_nil_l; try (cbn; lia); try contradiction.
  - cbn [inactive_endpoints] in Hrun. unfold bind at 1 in Hrun.
    unfold get_or_exit at 1 in Hrun.
    destruct (endpoint_info env (clock w) e) as [info|] eqn:Einfo.
    + unfold bind at 1 in Hrun.
      destruct (inactive_endpoints env rest
                  (answered (EvEndpointInfo e (Some info)) w)) as [o1 w1] eqn:Erest.
      destruct (IH _ _ _ Erest) as (evs & Htr & Hlook & Had & Hq & Ho).
      exists (EvEndpointInfo e (Some info) :: evs).
      destruct o1 as [more| | | |]; inversion Hrun; subst; clear Hrun;
        (split; [rewrite Htr; cbn [trace answered]; now rewrite <- app_assoc|]);
        (split; [exact Hlook|]); (split; [exact Had|]); (split; [exact Hq|]);
        try exact Ho.
      2: { destruct Ho as (-> & e' & t & Hin & Hnone). split; [reflexivity|].
           exists e', t. split; [now right | exact Hnone]. }
      destruct Ho as (Hincl & Hclock & Hall). split; [|split].
      * destruct (is_active info).
        -- now apply incl_tl.
        -- apply incl_cons; [now left | now apply incl_tl].
      * rewrite Hclock. cbn. lia.
      * intros e' [<- | Hin].
        -- destruct (is_active info) eqn:Eact.
           ++ right. rewrite vouched_cons. cbn [reports_active].
              now rewrite String.eqb_refl, Eact.
           ++ left. now left.
        -- destruct (Hall e' Hin) as [Hu | Hv].
           ++ left. destruct (is_active info); [exact Hu | now right].
           ++ right. rewrite vouched_cons, Hv. apply orb_true_r.
    + inversion Hrun; subst. exists [EvEndpointInfo e None].
      repeat split. exists e, (clock w). split; [now left | exact Einfo].
Qed.

(** Automatic activation: one call per endpoint, in order, and the
    rejected endpoints come back. *)
Lemma auto_loop_run endpoints :
  forall unactivated w,
    exists w',
      auto_loop env endpoints unactivated w
      = (Ret (unactivated ++ auto_rejected env (clock w) endpoints), w')
      /\ trace w' = trace w ++ auto_events endpoints (auto_codes env (clock w) endpoints)
      /\ clock w' = (clock w + List.length endpoints)%nat
      /\ current_ad w' = current_ad w /\ queue w' = queue w.
Proof.
  induction endpoints as [|e rest IH]; intros unactivated w.
  - exists w. cbn. rewrite !app_nil_r. repeat split; lia.
  - cbn [auto_loop auto_rejected auto_codes]. unfold bind at 1.
    unfold tc_endpoint_autoactivate at 1.
    set (code := endpoint_autoactivate env (clock w) e).
    set (w1 := answered (EvAutoactivate e code) w).
    destruct (String.eqb code "AutoActivationFailed").
    + destruct (IH (unactivated ++ [e]) w1) as (w' & Hrun & Htr & Hclock & Had & Hq).
      exists w'. rewrite Hrun, Htr, Hclock, Had, Hq. cbn.
      rewrite <- !app_assoc. repeat split; try reflexivity. lia.
    + destruct (IH unactivated w1) as (w' & Hrun & Htr & Hclock & Had & Hq).
      exists w'. rewrite Hrun, Htr, Hclock, Had, Hq. cbn.
      rewrite <- !app_assoc. repeat split; try reflexivity. lia.
Qed.

Lemma auto_codes_length t endpoints :
  List.length (auto_codes env t endpoints) = List.length endpoints.
Proof.
  revert t. induction endpoints as [|e rest IH]; intros t; cbn; [reflexivity|].
  now rewrite IH.
Qed.

Lemma auto_rejected_incl t endpoints :
  incl (auto_rejected env t endpoints) endpoints.
Proof.
  revert t. induction endpoints as [|e rest IH]; intros t; cbn.
  - apply incl_nil_l.
  - destruct (String.eqb _ _).
    + apply incl_cons; [now left | apply incl_tl, IH].
    + apply incl_tl, IH.
Qed.

(** Every endpoint handed to automatic activation is rejected or
    vouched for by its answer. *)
Lemma auto_rejected_or_vouched t endpoints e :
  In e endpoints ->
  In e (auto_rejected env t endpoints)
  \/ vouched e (auto_events endpoints (auto_codes env t endpoints)) = true.
Proof.
  revert t. induction endpoints as [|e' rest IH]; intros t Hin; [contradiction|].
  cbn [auto_rejected auto_codes auto_events combine map fst snd].
  destruct Hin as [-> | Hin].
  - destruct (String.eqb (endpoint_autoactivate env t e) "AutoActivationFailed") eqn:E.
    + left. now left.
    + right. rewrite vouched_cons. cbn [reports_active accepts_auto].
      now rewrite String.eqb_refl, E.
  - destruct (IH (S t) Hin) as [Hr | Hv].
    + left. destruct (String.eqb _ _); [now right | exact Hr].
    + right. rewrite vouched_cons. unfold auto_events in Hv. rewrite Hv.
      apply orb_true_r.
Qed.

(** A rejected endpoint was answered [AutoActivationFailed]. *)
Lemma auto_rejected_event t endpoints e :
  In e (auto_rejected env t endpoints) ->
  In (EvAutoactivate e "AutoActivationFailed")
     (auto_events endpoints (auto_codes env t endpoints)).
Proof.
  revert t. induction endpoints as [|e' rest IH]; intros t Hin; [contradiction|].
  cbn [auto_rejected auto_codes auto_events combine map fst snd] in *.
  destruct (String.eqb_spec (endpoint_autoactivate env t e') "AutoActivationFailed")
    as [Heq|Hne].
  - destruct Hin as [<- | Hin].
    + left. now rewrite Heq.
    + right. now apply IH.
  - right. now apply IH.
Qed.

End Activation.

(** ** Dictionaries and attribute keys *)

Lemma dict_get_set_same {V} key (value : V) d :
  dict_get key (dict_set key value d) = Some value.
Proof.
  induction d as [|[k v] rest IH]; cbn.
  - now rewrite String.eqb_refl.
  - destruct (String.eqb k key) eqn:E; cbn; rewrite E; [reflexivity | exact IH].
Qed.

Lemma dict_get_set_other {V} key key' (value : V) d :
  key <> key' -> dict_get key' (dict_set key value d) = dict_get key' d.
Proof.
  intros Hne. induction d as [|[k v] rest IH]; cbn.
  - destruct (String.eqb_spec key key'); [contradiction | reflexivity].
  - destruct (String.eqb_spec k key) as [->|Hk]; cbn.
    + destruct (String.eqb_spec key key'); [contradiction | reflexivity].
    + destruct (String.eqb k key'); [reflexivity | exact IH].
Qed.

Lemma str_of_nat_inj i j : Py.str_of_nat i = Py.str_of_nat j -> i = j.
Proof.
  unfold Py.str_of_nat. intros H.
  assert (Hu : Nat.to_uint i = Nat.to_uint j).
  { apply (f_equal NilEmpty.uint_of_string) in H.
    rewrite !NilEmpty.usu in H. congruence. }
  apply (f_equal Nat.of_uint) in Hu. now rewrite !DecimalNat.Unsigned.of_to in Hu.
Qed.

Lemma activation_key_inj i j : activation_key i = activation_key j -> i = j.
Proof.
  unfold activation_key, ENDPOINT_ACTIVATION_REQUIRED. cbn [String.append].
  intros H. apply str_of_nat_inj. congruence.
Qed.

Lemma activation_attrs_keys idx endpoints :
  map fst (activation_attrs idx endpoints)
  = map activation_key (seq idx (List.length endpoints)).
Proof.
  revert idx. induction endpoints as [|e rest IH]; intros idx; cbn; [reflexivity|].
  now rewrite IH.
Qed.

Lemma activation_keys_nodup idx n :
  NoDup (map activation_key (seq idx n)).
Proof.
  apply Injective_map_NoDup; [|apply seq_NoDup].
  intros i j. apply activation_key_inj.
Qed.

Lemma write_all_other kvs : forall ad key,
  ~ In key (map fst kvs) -> dict_get key (write_all kvs ad) = dict_get key ad.
Proof.
  induction kvs as [|[k v] rest IH]; intros ad key Hnot; [reflexivity|].
  cbn in *. unfold write_all in *. cbn. rewrite IH by tauto.
  apply dict_get_set_other. tauto.
Qed.

(** Reading back what was written for the endpoint at position [i]. *)
Lemma activation_attrs_read_back endpoints : forall idx ad i e,
  nth_error endpoints i = Some e ->
  dict_get (activation_key (idx + i)) (write_all (activation_attrs idx endpoints) ad)
  = Some (AdString e).
Proof.
  induction endpoints as [|e0 rest IH]; intros idx ad i e Hnth.
  - now destruct i.
  - destruct i as [|i]; cbn in Hnth.
    + inversion Hnth; subst. rewrite Nat.add_0_r. cbn [activation_attrs].
      unfold write_all. cbn [fold_left fst snd]. fold (write_all (activation_attrs (S idx) rest)
        (dict_set (activation_key idx) (AdString e) ad)).
      rewrite write_all_other; [apply dict_get_set_same|].
      rewrite activation_attrs_keys. intros Hin. apply in_map_iff in Hin as (j & Hj & Hin).
      apply activation_key_inj in Hj. apply in_seq in Hin. lia.
    + cbn [activation_attrs]. unfold write_all. cbn [fold_left fst snd].
      fold (write_all (activation_attrs (S idx) rest)
              (dict_set (activation_key idx) (AdString e0) ad)).
      replace (idx + S i)%nat with (S idx + i)%nat by lia. now apply IH.
Qed.

Lemma attr_writes_app evs1 evs2 :
  attr_writes (evs1 ++ evs2) = attr_writes evs1 ++ attr_writes evs2.
Proof.
  induction evs1 as [|ev rest IH]; [reflexivity|].
  destruct ev as [| | |[c|] k v| | | | |]; cbn; now rewrite IH.
Qed.

Lemma seen_active_vouched e evs : seen_active e evs = true -> vouched e evs = true.
Proof.
  unfold seen_active, vouched. rewrite !existsb_exists.
  intros (ev & Hin & Hev). exists ev. split; [exact Hin|]. now rewrite Hev.
Qed.

Lemma seen_active_app e evs1 evs2 :
  seen_active e (evs1 ++ evs2) = seen_active e evs1 || seen_active e evs2.
Proof. unfold seen_active. apply existsb_app. Qed.

Section ManualActivation.

Variable env : Env.

(** Without a terminal: every endpoint is looked up, recorded on the
    current job record under the key of its position and handed back. *)
Lemma manual_loop_batch :
  is_interactive env = false ->
  forall endpoints fuel idx unactivated w o w',
    manual_loop env fuel idx endpoints unactivated w = (o, w') ->
    exists evs,
      trace w' = trace w ++ evs
      /\ queue w' = queue w
      /\ match o with
         | Ret result =>
             result = unactivated ++ endpoints
             /\ attr_writes evs = activation_attrs idx endpoints
             /\ current_ad w'
                = write_all (activation_attrs idx endpoints) (current_ad w)
         | Exit code _ => code = ENDPOINT_INFO_ERROR /\ lookup_fails env endpoints
         | _ => False
         end.
Proof.
  intros Hbatch. induction endpoints as [|e rest IH];
    intros fuel idx unactivated w o w' Hrun.
  - inversion Hrun; subst. exists []. rewrite !app_nil_r. now repeat split.
  - cbn [manual_loop] in Hrun. unfold bind at 1 in Hrun.
    unfold get_or_exit at 1 in Hrun.
    destruct (endpoint_info env (clock w) e) as [info|] eqn:Einfo.
    + rewrite Hbatch in Hrun. unfold bind at 1 in Hrun.
      unfold set_job_attr at 1 in Hrun.
      match type of Hrun with manual_loop _ _ _ _ _ ?w1 = _ =>
        destruct (IH _ _ _ w1 _ _ Hrun) as (evs & Htr & Hq & Ho) end.
      exists (EvEndpointInfo e (Some info)
              :: EvSetJobAttr None (activation_key idx) (AdString e) :: evs).
      split; [rewrite Htr; cbn [trace emit answered]; now rewrite <- !app_assoc|].
      split; [exact Hq|].
      destruct o as [result|code msg| | |]; try exact Ho.
      * destruct Ho as (-> & Hwrites & Had). split; [now rewrite <- app_assoc|].
        split; [cbn; now rewrite Hwrites | exact Had].
      * destruct Ho as (-> & e' & t & Hin & Hnone). split; [reflexivity|].
        exists e', t. split; [now right | exact Hnone].
    + inversion Hrun; subst. exists [EvEndpointInfo e None].
      repeat split. exists e, (clock w). split; [now left | exact Einfo].
Qed.

(** The interactive loop on one endpoint ends normally only after a
    status query reported it ACTIVE; it writes no attribute. *)
Lemma wait_until_active_run endpoint msg :
  forall fuel w o w',
    wait_until_active env fuel endpoint msg w = (o, w') ->
    exists evs,
      trace w' = trace w ++ evs
      /\ attr_writes evs = []
      /\ current_ad w' = current_ad w /\ queue w' = queue w
      /\ match o with
         | Ret _ => seen_active endpoint evs = true
         | Exit code _ => code = ENDPOINT_INFO_ERROR /\ lookup_fails env [endpoint]
         | Raise _ => False
         | Abort | OutOfFuel => True
         end.
Proof.
  induction fuel as [|fuel IH]; intros w o w' Hrun.
  - inversion Hrun; subst. exists []. rewrite app_nil_r. now repeat split.
  - cbn [wait_until_active] in Hrun. unfold bind at 1 in Hrun.
    unfold get_or_exit at 1 in Hrun.
    destruct (endpoint_info env (clock w) endpoint) as [info|] eqn:Einfo.
    + destruct (is_active info) eqn:Eact.
      * inversion Hrun; subst. exists [EvEndpointInfo endpoint (Some info)].
        repeat split. cbn. now rewrite String.eqb_refl, Eact.
      * unfold bind at 1 in Hrun. unfold secho at 1 in Hrun.
        unfold bind at 1 in Hrun. unfold click_confirm at 1 in Hrun.
        cbn [clock emit answered] in Hrun.
        destruct (confirm env (S (clock w))) eqn:Eack.
        -- match type of Hrun with wait_until_active _ _ _ _ ?w1 = _ =>
             destruct (IH w1 _ _ Hrun) as (evs & Htr & Hwr & Had & Hq & Ho) end.
           exists (EvEndpointInfo endpoint (Some info) :: EvOut msg
                   :: EvConfirm true :: evs).
           split; [rewrite Htr; cbn [trace emit answered]; now rewrite <- !app_assoc|].
           split; [exact Hwr|]. split; [exact Had|]. split; [exact Hq|].
           destruct o; try exact Ho.
           change (seen_active endpoint
                     ([EvEndpointInfo endpoint (Some info); EvOut msg; EvConfirm true]
                        ++ evs) = true).
           rewrite seen_active_app, Ho. apply orb_true_r.
        -- inversion Hrun; subst.
           exists [EvEndpointInfo endpoint (Some info); EvOut msg; EvConfirm false].
           split; [cbn [trace emit answered]; now rewrite <- !app_assoc|].
           now repeat split.
    + inversion Hrun; subst. exists [EvEndpointInfo endpoint None].
      repeat split. exists endpoint, (clock w). split; [now left | exact Einfo].
Qed.

(** With a terminal: manual activation comes back only when every
    endpoint has been reported ACTIVE, hands back nothing new and writes
    no attribute. *)
Lemma manual_loop_terminal :
  is_interactive env = true ->
  forall endpoints fuel idx unactivated w o w',
    manual_loop env fuel idx endpoints unactivated w = (o, w') ->
    exists evs,
      trace w' = trace w ++ evs
      /\ attr_writes evs = []
      /\ current_ad w' = current_ad w /\ queue w' = queue w
      /\ match o with
         | Ret result =>
             result = unactivated
             /\ forall e, In e endpoints -> seen_active e evs = true
         | Exit code _ => code = ENDPOINT_INFO_ERROR /\ lookup_fails env endpoints
         | Raise _ => False
         | Abort | OutOfFuel => True
         end.
Proof.
  intros Hterm. induction endpoints as [|e rest IH];
    intros fuel idx unactivated w o w' Hrun.
  - inversion Hrun; subst. exists []. rewrite !app_nil_r.
    repeat split. contradiction.
  - cbn [manual_loop] in Hrun. unfold bind at 1 in Hrun.
    unfold get_or_exit at 1 in Hrun.
    destruct (endpoint_info env (clock w) e) as [info|] eqn:Einfo.
    + rewrite Hterm in Hrun. unfold bind at 1 in Hrun.
      match type of Hrun with
        match wait_until_active _ _ _ ?m ?w1 with _ => _ end = _ =>
        destruct (wait_until_active env fuel e m w1) as [o1 w1'] eqn:Ewait;
        destruct (wait_until_active_run e m fuel w1 o1 w1' Ewait)
          as (evs1 & Htr1 & Hwr1 & Had1 & Hq1 & Ho1)
      end.
      destruct o1 as [[]|code msg|exn| |].
      * destruct (IH _ _ _ _ _ _ Hrun) as (evs & Htr & Hwr & Had & Hq & Ho).
        exists (EvEndpointInfo e (Some info) :: evs1 ++ evs).
        split; [rewrite Htr, Htr1; cbn [trace answered]; now rewrite <- !app_assoc|].
        split; [cbn; now rewrite attr_writes_app, Hwr1, Hwr|].
        split; [now rewrite Had, Had1|]. split; [now rewrite Hq, Hq1|].
        destruct o as [result|code msg|exn| |]; try exact Ho.
        -- destruct Ho as [-> Hall]. split; [reflexivity|].
           intros e' [<- | Hin].
           ++ change (seen_active e ([EvEndpointInfo e (Some info)] ++ evs1 ++ evs) = true).
              rewrite !seen_active_app, Ho1. cbn. now rewrite orb_true_r.
           ++ change (seen_active e' ([EvEndpointInfo e (Some info)] ++ evs1 ++ evs) = true).
              rewrite !seen_active_app, (Hall e' Hin). now rewrite !orb_true_r.
        -- destruct Ho as (-> & e' & t & Hin & Hnone). split; [reflexivity|].
           exists e', t. split; [now right | exact Hnone].
      * inversion Hrun; subst. exists (EvEndpointInfo e (Some info) :: evs1).
        split; [rewrite Htr1; cbn [trace answered]; now rewrite <- !app_assoc|].
        split; [exact Hwr1|]. split; [exact Had1|]. split; [exact Hq1|].
        destruct Ho1 as (-> & e' & t & [<- | []] & Hnone). split; [reflexivity|].
        exists e, t. split; [now left | exact Hnone].
      * contradiction.
      * inversion Hrun; subst. exists (EvEndpointInfo e (Some info) :: evs1).
        split; [rewrite Htr1; cbn [trace answered]; now rewrite <- !app_assoc|].
        now repeat split.
      * inversion Hrun; subst. exists (EvEndpointInfo e (Some info) :: evs1).
        split; [rewrite Htr1; cbn [trace answered]; now rewrite <- !app_assoc|].
        now repeat split.
    + inversion Hrun; subst. exists [EvEndpointInfo e None].
      repeat split. exists e, (clock w). split; [now left | exact Einfo].
Qed.

End ManualActivation.

Lemma lookup_fails_incl env l1 l2 :
  incl l1 l2 -> lookup_fails env l1 -> lookup_fails env l2.
Proof. intros Hincl (e & t & Hin & Hnone). exists e, t. auto. Qed.

Section Orchestrator.

Variable env : Env.

(** The closing lookups: one per endpoint, in order. *)
Lemma log_expirations_run endpoints :
  forall w o w',
    log_expirations env endpoints w = (o, w') ->
    exists evs,
      trace w' = trace w ++ evs
      /\ forallb is_lookup evs = true
      /\ current_ad w' = current_ad w /\ queue w' = queue w
      /\ match o with
         | Ret _ =>
             exists infos,
               evs = lookup_events endpoints infos
               /\ List.length infos = List.length endpoints
         | Exit code _ => code = ENDPOINT_INFO_ERROR /\ lookup_fails env endpoints
         | _ => False
         end.
Proof.
  induction endpoints as [|e rest IH]; intros w o w' Hrun.
  - inversion Hrun; subst. exists []. rewrite app_nil_r.
    repeat split. now exists [].
  - cbn [log_expirations] in Hrun. unfold bind at 1 in Hrun.
    unfold get_or_exit at 1 in Hrun.
    destruct (endpoint_info env (clock w) e) as [info|] eqn:Einfo.
    + destruct (IH _ _ _ Hrun) as (evs & Htr & Hlook & Had & Hq & Ho).
      exists (EvEndpointInfo e (Some info) :: evs).
      split; [rewrite Htr; cbn [trace answered]; now rewrite <- app_assoc|].
      split; [exact Hlook|]. split; [exact Had|]. split; [exact Hq|].
      destruct o as [u|code msg|exn| |]; try exact Ho.
      * destruct Ho as (infos & -> & Hlen). exists (info :: infos).
        split; [reflexivity | cbn; now rewrite Hlen].
      * destruct Ho as (-> & e' & t & Hin & Hnone). split; [reflexivity|].
        exists e', t. split; [now right | exact Hnone].
    + inversion Hrun; subst. exists [EvEndpointInfo e None].
      repeat split. exists e, (clock w). split; [now left | exact Einfo].
Qed.

(** The orchestrator, outcome by outcome.  It succeeds only when every
    endpoint is vouched for, and then its last events are the closing
    lookups; it exits with [ENDPOINT_ACTIVATION_ERROR] only without a
    terminal, naming the endpoints whose automatic activation was
    rejected. *)
Lemma activate_endpoints_or_exit_run fuel endpoints w o w' :
  activate_endpoints_or_exit env fuel endpoints w = (o, w') ->
  exists evs,
    trace w' = trace w ++ evs
    /\ queue w' = queue w
    /\ match o with
       | Ret b =>
           b = true
           /\ (forall e, In e endpoints -> vouched e evs = true)
           /\ exists before infos,
               evs = before ++ lookup_events endpoints infos
               /\ List.length infos = List.length endpoints
       | Exit code msg =>
           (code = ENDPOINT_INFO_ERROR /\ lookup_fails env endpoints)
           \/ (code = ENDPOINT_ACTIVATION_ERROR
               /\ is_interactive env = false
               /\ exists unactivated,
                   unactivated <> []
                   /\ msg = "Was not able to activate endpoints: "
                            +++ Py.join " " unactivated
                   /\ incl unactivated endpoints
                   /\ (forall e, In e endpoints ->
                                 In e unactivated \/ vouched e evs = true)
                   /\ (forall e, In e unactivated ->
                                 In (EvAutoactivate e "AutoActivationFailed") evs)
                   /\ attr_writes evs = activation_attrs 0 unactivated)
       | Raise _ => False
       | Abort | OutOfFuel => is_interactive env = true
       end.
Proof.
  intros Hrun. unfold activate_endpoints_or_exit in Hrun.
  unfold bind at 1 in Hrun.
  destruct (inactive_endpoints env endpoints w) as [o1 w1] eqn:E1.
  destruct (inactive_endpoints_run env endpoints w o1 w1 E1)
    as (evs1 & Htr1 & Hlook1 & Had1 & Hq1 & Ho1).
  destruct o1 as [u1|code1 msg1|exn1| |]; try contradiction.
  2: { inversion Hrun; subst. exists evs1. split; [exact Htr1|].
       split; [exact Hq1|]. left. exact Ho1. }
  destruct Ho1 as (Hincl1 & Hclock1 & Hall1).
  unfold bind at 1 in Hrun. unfold activate_endpoints_automatically in Hrun.
  destruct (auto_loop_run env u1 [] w1) as (w2 & E2 & Htr2 & Hclock2 & Had2 & Hq2).
  rewrite E2 in Hrun. cbn [app] in Hrun.
  set (rejected := auto_rejected env (clock w1) u1) in *.
  set (evs2 := auto_events u1 (auto_codes env (clock w1) u1)) in *.
  assert (Hincl2 : incl rejected endpoints).
  { eapply incl_tran; [apply auto_rejected_incl | exact Hincl1]. }
  assert (Hall2 : forall e, In e endpoints ->
                            In e rejected \/ vouched e (evs1 ++ evs2) = true).
  { intros e Hin. destruct (Hall1 e Hin) as [Hu | Hv].
    - destruct (auto_rejected_or_vouched env (clock w1) u1 e Hu) as [Hr | Hv].
      + now left.
      + right. now apply vouched_app_r.
    - right. now apply vouched_app_l. }
  unfold bind at 1 in Hrun. unfold activate_endpoints_manually in Hrun.
  destruct (manual_loop env fuel 0 rejected [] w2) as [o3 w3] eqn:E3.
  destruct (is_interactive env) eqn:Emode.
  - (* a terminal is attached *)
    destruct (manual_loop_terminal env Emode rejected fuel 0%nat [] w2 o3 w3 E3)
      as (evs3 & Htr3 & Hwr3 & Had3 & Hq3 & Ho3).
    assert (Htr : trace w3 = trace w ++ evs1 ++ evs2 ++ evs3).
    { rewrite Htr3, Htr2, Htr1. now rewrite <- !app_assoc. }
    assert (Hq : queue w3 = queue w) by congruence.
    destruct o3 as [u3|code3 msg3|exn3| |]; try contradiction.
    + destruct Ho3 as [-> Hseen]. cbn [List.length Nat.ltb Nat.leb] in Hrun.
      unfold bind, ret in Hrun.
      destruct (log_expirations env endpoints w3) as [o4 w4] eqn:E4.
      destruct (log_expirations_run endpoints w3 o4 w4 E4)
        as (evs4 & Htr4 & Hlook4 & Had4 & Hq4 & Ho4).
      destruct o4 as [u4|code4 msg4|exn4| |]; try contradiction;
        inversion Hrun; subst;
        exists (evs1 ++ evs2 ++ evs3 ++ evs4);
        (split; [rewrite Htr4, Htr; now rewrite <- !app_assoc|]);
        (split; [congruence|]).
      * split; [reflexivity|]. split.
        -- intros e Hin. rewrite !app_assoc. apply vouched_app_l.
           rewrite <- app_assoc.
           destruct (Hall2 e Hin) as [Hr | Hv].
           ++ rewrite app_assoc. apply vouched_app_r, seen_active_vouched. auto.
           ++ rewrite app_assoc. now apply vouched_app_l.
        -- destruct Ho4 as (infos & -> & Hlen).
           exists (evs1 ++ evs2 ++ evs3), infos.
           split; [now rewrite <- !app_assoc | exact Hlen].
      * left. exact Ho4.
    + inversion Hrun; subst. exists (evs1 ++ evs2 ++ evs3).
      split; [exact Htr|]. split; [exact Hq|].
      left. destruct Ho3 as [-> Hfail]. split; [reflexivity|].
      now apply (lookup_fails_incl env rejected).
    + inversion Hrun; subst. exists (evs1 ++ evs2 ++ evs3). now repeat split.
    + inversion Hrun; subst. exists (evs1 ++ evs2 ++ evs3). now repeat split.
  - (* no terminal *)
    destruct (manual_loop_batch env Emode rejected fuel 0%nat [] w2 o3 w3 E3)
      as (evs3 & Htr3 & Hq3 & Ho3).
    assert (Htr : trace w3 = trace w ++ evs1 ++ evs2 ++ evs3).
    { rewrite Htr3, Htr2, Htr1. now rewrite <- !app_assoc. }
    assert (Hq : queue w3 = queue w) by congruence.
    destruct o3 as [u3|code3 msg3|exn3| |]; try contradiction.
    + destruct Ho3 as (-> & Hwr3 & Had3). cbn [app] in Hrun.
      unfold bind, ret, error in Hrun.
      destruct rejected as [|r rest] eqn:Erej.
      * cbn [List.length Nat.ltb Nat.leb] in Hrun.
        destruct (log_expirations env endpoints w3) as [o4 w4] eqn:E4.
        destruct (log_expirations_run endpoints w3 o4 w4 E4)
          as (evs4 & Htr4 & Hlook4 & Had4 & Hq4 & Ho4).
        destruct o4 as [u4|code4 msg4|exn4| |]; try contradiction;
          inversion Hrun; subst;
          exists (evs1 ++ evs2 ++ evs3 ++ evs4);
          (split; [rewrite Htr4, Htr; now rewrite <- !app_assoc|]);
          (split; [congruence|]).
        -- split; [reflexivity|]. split.
           ++ intros e Hin. destruct (Hall2 e Hin) as [[] | Hv].
              rewrite app_assoc. now apply vouched_app_l.
           ++ destruct Ho4 as (infos & -> & Hlen).
              exists (evs1 ++ evs2 ++ evs3), infos.
              split; [now rewrite <- !app_assoc | exact Hlen].
        -- left. exact Ho4.
      * cbn [List.length Nat.ltb Nat.leb] in Hrun.
        inversion Hrun; subst. exists (evs1 ++ evs2 ++ evs3).
        split; [exact Htr|]. split; [exact Hq|]. right.
        split; [reflexivity|]. split; [reflexivity|].
        exists (r :: rest). split; [discriminate|]. split; [reflexivity|].
        split; [exact Hincl2|]. split; [|split].
        -- intros e Hin. destruct (Hall2 e Hin) as [Hr | Hv]; [now left|].
           right. rewrite app_assoc. now apply vouched_app_l.
        -- intros e Hin. apply in_or_app. right. apply in_or_app. left.
           subst evs2. rewrite <- Erej in Hin.
           now apply auto_rejected_event.
        -- rewrite !attr_writes_app, Hwr3.
           assert (H1 : attr_writes evs1 = []).
           { clear -Hlook1. induction evs1 as [|ev evs IH]; [reflexivity|].
             cbn in Hlook1. apply andb_prop in Hlook1 as [Hev Hrest].
             destruct ev; try discriminate. cbn. now apply IH. }
           assert (H2 : attr_writes evs2 = []).
           { subst evs2. unfold auto_events.
             generalize (combine u1 (auto_codes env (clock w1) u1)).
             intros l. induction l as [|x l IH]; [reflexivity | exact IH]. }
           now rewrite H1, H2.
    + inversion Hrun; subst. exists (evs1 ++ evs2 ++ evs3).
      split; [exact Htr|]. split; [exact Hq|].
      left. destruct Ho3 as [-> Hfail]. split; [reflexivity|].
      now apply (lookup_fails_incl env rejected).
Qed.

End Orchestrator.

Lemma lookups_only evs :
  forallb is_lookup evs = true ->
  count_events is_autoactivate evs = 0%nat /\ count_events is_manual evs = 0%nat
  /\ attr_writes evs = [].
Proof.
  induction evs as [|ev rest IH]; [now repeat split|].
  cbn [forallb]. intros H. apply andb_prop in H as [Hev Hrest].
  destruct (IH Hrest) as (Ha & Hm & Hw).
  destruct ev; try discriminate. unfold count_events in *. cbn. auto.
Qed.

Lemma autoactivated_auto_events endpoints : forall codes,
  List.length codes = List.length endpoints ->
  autoactivated (auto_events endpoints codes) = endpoints.
Proof.
  induction endpoints as [|e rest IH]; intros codes Hlen; [reflexivity|].
  destruct codes as [|c codes]; [discriminate|].
  cbn. f_equal. apply IH. now inversion Hlen.
Qed.

Section AlreadyActive.

Variable env : Env.
Variable endpoints : list string.
Hypothesis all_active :
  forall t e, In e endpoints ->
              exists info, endpoint_info env t e = Some info /\ is_active info = true.

Lemma no_lookup_fails : ~ lookup_fails env endpoints.
Proof.
  intros (e & t & Hin & Hnone).
  destruct (all_active t e Hin) as (info & Hsome & _). congruence.
Qed.

Lemma inactive_endpoints_all_active :
  forall l, incl l endpoints ->
  forall w, exists w' evs,
    inactive_endpoints env l w = (Ret [], w')
    /\ trace w' = trace w ++ evs
    /\ forallb is_lookup evs = true
    /\ current_ad w' = current_ad w /\ queue w' = queue w.
Proof.
  induction l as [|e rest IH]; intros Hincl w.
  - exists w, []. rewrite app_nil_r. now repeat split.
  - cbn [inactive_endpoints]. unfold bind at 1. unfold get_or_exit at 1.
    destruct (all_active (clock w) e (Hincl e (or_introl eq_refl)))
      as (info & -> & Hact).
    destruct (IH (fun x Hx => Hincl x (or_intror Hx))
                 (answered (EvEndpointInfo e (Some info)) w))
      as (w' & evs & Hrun & Htr & Hlook & Had & Hq).
    exists w', (EvEndpointInfo e (Some info) :: evs).
    unfold bind. rewrite Hrun, Hact. unfold ret.
    split; [reflexivity|].
    split; [rewrite Htr; cbn [trace answered]; now rewrite <- app_assoc|].
    now repeat split.
Qed.

(** Endpoints that all report ACTIVE: success after status queries
    only. *)
Lemma activate_all_active fuel w :
  exists w' evs,
    activate_endpoints_or_exit env fuel endpoints w = (Ret true, w')
    /\ trace w' = trace w ++ evs
    /\ forallb is_lookup evs = true
    /\ current_ad w' = current_ad w /\ queue w' = queue w.
Proof.
  destruct (inactive_endpoints_all_active endpoints (incl_refl _) w)
    as (w1 & evs1 & Hrun1 & Htr1 & Hlook1 & Had1 & Hq1).
  unfold activate_endpoints_or_exit. unfold bind at 1. rewrite Hrun1.
  unfold activate_endpoints_automatically, activate_endpoints_manually.
  cbn [auto_loop]. unfold bind, ret.
  cbn [manual_loop]. unfold ret. cbn [List.length Nat.ltb Nat.leb].
  destruct (log_expirations env endpoints w1) as [o4 w4] eqn:E4.
  destruct (log_expirations_run env endpoints w1 o4 w4 E4)
    as (evs4 & Htr4 & Hlook4 & Had4 & Hq4 & Ho4).
  destruct o4 as [u4|code4 msg4|exn4| |]; try contradiction.
  - exists w4, (evs1 ++ evs4).
    split; [reflexivity|].
    split; [rewrite Htr4, Htr1; now rewrite <- app_assoc|].
    split; [now apply forallb_app_true|].
    split; congruence.
  - destruct Ho4 as [_ Hfail]. now destruct (no_lookup_fails Hfail).
Qed.

End AlreadyActive.

(** C2 (amended): without a terminal, manual activation of [N] endpoints
    whose lookups succeed writes onto the current job record the [N]
    attributes [ENDPOINT_ACTIVATION_REQUIRED_0] ...
    [ENDPOINT_ACTIVATION_REQUIRED_<N-1>]: the index is the position of the
    endpoint in the list it was given, the [N] names are pairwise distinct,
    an attribute of the same name already on the record is overwritten and
    every other attribute is left as it was.  Each written attribute reads
    back as its endpoint, and all [N] endpoints are returned as still
    unresolved. *)
Theorem manual_activation_batch_writes env fuel endpoints w :
  is_interactive env = false ->
  (forall t e, In e endpoints -> endpoint_info env t e <> None) ->
  exists w' evs,
    activate_endpoints_manually env fuel endpoints w = (Ret endpoints, w')
    /\ trace w' = trace w ++ evs
    /\ attr_writes evs = activation_attrs 0 endpoints
    /\ List.length (attr_writes evs) = List.length endpoints
    /\ map fst (attr_writes evs) = map activation_key (seq 0 (List.length endpoints))
    /\ NoDup (map fst (attr_writes evs))
    /\ (forall i e, nth_error endpoints i = Some e ->
                    dict_get (activation_key i) (current_ad w') = Some (AdString e))
    /\ (forall key, ~ In key (map fst (attr_writes evs)) ->
                    dict_get key (current_ad w') = dict_get key (current_ad w)).
Proof.
  intros Hbatch Hlookups. unfold activate_endpoints_manually.
  destruct (manual_loop env fuel 0 endpoints [] w) as [o w'] eqn:Erun.
  destruct (manual_loop_batch env Hbatch endpoints fuel 0%nat [] w o w' Erun)
    as (evs & Htr & Hq & Ho).
  destruct o as [result|code msg|exn| |]; try contradiction.
  - destruct Ho as (-> & Hwrites & Had). exists w', evs. cbn [app].
    assert (Hkeys : map fst (attr_writes evs)
                    = map activation_key (seq 0 (List.length endpoints))).
    { rewrite Hwrites. apply activation_attrs_keys. }
    split; [reflexivity|]. split; [exact Htr|]. split; [exact Hwrites|].
    split; [rewrite <- (length_map fst), Hkeys, length_map; apply length_seq|].
    split; [exact Hkeys|].
    split; [rewrite Hkeys; apply activation_keys_nodup|].
    split.
    + intros i e Hnth. rewrite Had.
      now apply (activation_attrs_read_back endpoints 0%nat).
    + intros key Hnot. rewrite Had. apply write_all_other. now rewrite <- Hwrites.
  - destruct Ho as (_ & e & t & Hin & Hnone). now destruct (Hlookups t e Hin).
Qed.

Lemma manual_activation_batch_writes_witness :
  exists w' evs,
    activate_endpoints_manually Sample.batch 0 ["source"; "destination"]
                                SampleActivation.recorded_once
    = (Ret ["source"; "destination"], w')
    /\ trace w' = trace SampleActivation.recorded_once ++ evs
    /\ attr_writes evs = activation_attrs 0 ["source"; "destination"]
    /\ List.length (attr_writes evs) = 2%nat
    /\ map fst (attr_writes evs) = map activation_key (seq 0 2)
    /\ NoDup (map fst (attr_writes evs))
    /\ (forall i e, nth_error ["source"; "destination"] i = Some e ->
                    dict_get (activation_key i) (current_ad w') = Some (AdString e))
    /\ (forall key, ~ In key (map fst (attr_writes evs)) ->
                    dict_get key (current_ad w')
                    = dict_get key (current_ad SampleActivation.recorded_once)).
Proof.
  apply (manual_activation_batch_writes Sample.batch 0 ["source"; "destination"]
           SampleActivation.recorded_once).
  - reflexivity.
  - intros t e _. discriminate.
Defined.

(** C2, as stated, fails: the index is the position in the list, whatever
    the record holds.  A record that already carries
    [ENDPOINT_ACTIVATION_REQUIRED_0] for one endpoint gets that very
    attribute overwritten with another endpoint. *)
Lemma manual_activation_index_collides :
  exists w',
    activate_endpoints_manually Sample.batch 0 ["new-endpoint"]
                                SampleActivation.recorded_once
    = (Ret ["new-endpoint"], w')
    /\ dict_get "ENDPOINT_ACTIVATION_REQUIRED_0"
                (current_ad SampleActivation.recorded_once)
       = Some (AdString "old-endpoint")
    /\ attr_writes (trace w')
       = [("ENDPOINT_ACTIVATION_REQUIRED_0", AdString "new-endpoint")]
    /\ current_ad w'
       = [("ENDPOINT_ACTIVATION_REQUIRED_0", AdString "new-endpoint")].
Proof. eexists. split; [vm_compute; reflexivity | repeat split]. Qed.

Section StatusQueries.

Variable env : Env.

(** The opening status queries when all of them are answered: the
    command goes on with the endpoints reported as not ACTIVE. *)
Lemma inactive_endpoints_answered endpoints :
  forall w,
    (forall i e, nth_error endpoints i = Some e ->
                 endpoint_info env (clock w + i) e <> None) ->
    exists w1 evs,
      inactive_endpoints env endpoints w
      = (Ret (reported_inactive env (clock w) endpoints), w1)
      /\ trace w1 = trace w ++ evs
      /\ forallb is_lookup evs = true
      /\ clock w1 = (clock w + List.length endpoints)%nat
      /\ current_ad w1 = current_ad w /\ queue w1 = queue w.
Proof.
  induction endpoints as [|e rest IH]; intros w Hans.
  - exists w, []. cbn. rewrite app_nil_r, Nat.add_0_r. now repeat split.
  - cbn [inactive_endpoints reported_inactive]. unfold bind at 1.
    unfold get_or_exit at 1.
    pose proof (Hans 0%nat e eq_refl) as H0. rewrite Nat.add_0_r in H0.
    destruct (endpoint_info env (clock w) e) as [info|] eqn:Einfo; [|now destruct H0].
    destruct (IH (answered (EvEndpointInfo e (Some info)) w))
      as (w1 & evs & Hrun & Htr & Hlook & Hck & Had & Hq).
    { intros i e' Hnth. cbn [clock answered].
      replace (S (clock w) + i)%nat with (clock w + S i)%nat by lia.
      now apply Hans. }
    cbn [clock answered] in Hrun, Hck. unfold bind at 1. rewrite Hrun. unfold ret.
    exists w1, (EvEndpointInfo e (Some info) :: evs).
    split; [now destruct (is_active info)|].
    split; [rewrite Htr; cbn [trace answered]; now rewrite <- app_assoc|].
    split; [exact Hlook|].
    split; [rewrite Hck; cbn [List.length]; lia|].
    now split.
Qed.

(** The closing status queries when all of them are answered: whatever
    the answers say, the loop comes back. *)
Lemma log_expirations_answered endpoints :
  forall w,
    (forall i e, nth_error endpoints i = Some e ->
                 endpoint_info env (clock w + i) e <> None) ->
    exists w' infos,
      log_expirations env endpoints w = (Ret tt, w')
      /\ trace w' = trace w ++ lookup_events endpoints infos
      /\ List.length infos = List.length endpoints
      /\ current_ad w' = current_ad w /\ queue w' = queue w.
Proof.
  induction endpoints as [|e rest IH]; intros w Hans.
  - exists w, []. cbn. rewrite app_nil_r. now repeat split.
  - cbn [log_expirations]. unfold bind at 1. unfold get_or_exit at 1.
    pose proof (Hans 0%nat e eq_refl) as H0. rewrite Nat.add_0_r in H0.
    destruct (endpoint_info env (clock w) e) as [info|] eqn:Einfo; [|now destruct H0].
    destruct (IH (answered (EvEndpointInfo e (Some info)) w))
      as (w' & infos & Hrun & Htr & Hlen & Had & Hq).
    { intros i e' Hnth. cbn [clock answered].
      replace (S (clock w) + i)%nat with (clock w + S i)%nat by lia.
      now apply Hans. }
    exists w', (info :: infos). split; [exact Hrun|].
    split; [rewrite Htr; cbn [trace answered]; now rewrite <- app_assoc|].
    split; [cbn; now rewrite Hlen|]. now split.
Qed.

Lemma reported_inactive_none endpoints :
  forall t,
    (forall i e, nth_error endpoints i = Some e ->
                 exists info, endpoint_info env (t + i) e = Some info
                              /\ is_active info = true) ->
    reported_inactive env t endpoints = [].
Proof.
  induction endpoints as [|e rest IH]; intros t Hact; [reflexivity|].
  cbn [reported_inactive].
  destruct (Hact 0%nat e eq_refl) as (info & Hinfo & Hactive).
  rewrite Nat.add_0_r in Hinfo. rewrite Hinfo, Hactive.
  apply IH. intros i e' Hnth.
  replace (S t + i)%nat with (t + S i)%nat by lia. now apply Hact.
Qed.

(** Endpoints that the opening queries report ACTIVE: status queries only,
    and success unless a closing lookup fails. *)
Lemma activate_reported_active fuel endpoints w :
  (forall i e, nth_error endpoints i = Some e ->
               exists info, endpoint_info env (clock w + i) e = Some info
                            /\ is_active info = true) ->
  exists o w' evs,
    activate_endpoints_or_exit env fuel endpoints w = (o, w')
    /\ trace w' = trace w ++ evs
    /\ forallb is_lookup evs = true
    /\ current_ad w' = current_ad w
    /\ (o = Ret true \/ exists msg, o = Exit ENDPOINT_INFO_ERROR msg)
    /\ ((forall i e, nth_error endpoints i = Some e ->
                     endpoint_info env (clock w + List.length endpoints + i) e <> None) ->
        o = Ret true).
Proof.
  intros Hact.
  destruct (inactive_endpoints_answered endpoints w)
    as (w1 & evs1 & Hrun1 & Htr1 & Hlook1 & Hck1 & Had1 & Hq1).
  { intros i e Hnth. destruct (Hact i e Hnth) as (info & -> & _). discriminate. }
  rewrite (reported_inactive_none endpoints (clock w) Hact) in Hrun1.
  unfold activate_endpoints_or_exit. unfold bind at 1. rewrite Hrun1.
  unfold activate_endpoints_automatically, activate_endpoints_manually.
  cbn [auto_loop]. unfold bind, ret.
  cbn [manual_loop]. unfold ret. cbn [List.length Nat.ltb Nat.leb].
  destruct (log_expirations env endpoints w1) as [o4 w4] eqn:E4.
  destruct (log_expirations_run env endpoints w1 o4 w4 E4)
    as (evs4 & Htr4 & Hlook4 & Had4 & Hq4 & Ho4).
  destruct o4 as [u4|code4 msg4|exn4| |]; try contradiction.
  - exists (Ret true), w4, (evs1 ++ evs4). split; [reflexivity|].
    split; [rewrite Htr4, Htr1; now rewrite <- app_assoc|].
    split; [now apply forallb_app_true|].
    split; [congruence|]. split; [now left | reflexivity].
  - destruct Ho4 as [-> _].
    exists (Exit ENDPOINT_INFO_ERROR msg4), w4, (evs1 ++ evs4). split; [reflexivity|].
    split; [rewrite Htr4, Htr1; now rewrite <- app_assoc|].
    split; [now apply forallb_app_true|].
    split; [congruence|]. split; [right; now exists msg4|].
    intros Hclose.
    destruct (log_expirations_answered endpoints w1) as (w'' & infos & Hr & _).
    { intros i e Hnth. rewrite Hck1. now apply Hclose. }
    rewrite Hr in E4. discriminate.
Qed.

(** Success is settled by the opening answers and the answers of
    automatic activation: the closing queries only have to be answered. *)
Lemma activate_accepted fuel endpoints w :
  (forall i e, nth_error endpoints i = Some e ->
               endpoint_info env (clock w + i) e <> None) ->
  auto_rejected env (clock w + List.length endpoints)
                (reported_inactive env (clock w) endpoints) = [] ->
  (forall i e, nth_error endpoints i = Some e ->
               endpoint_info env
                 (clock w + List.length endpoints
                  + List.length (reported_inactive env (clock w) endpoints) + i) e
               <> None) ->
  exists w' before infos,
    activate_endpoints_or_exit env fuel endpoints w = (Ret true, w')
    /\ trace w' = trace w ++ before ++ lookup_events endpoints infos
    /\ List.length infos = List.length endpoints.
Proof.
  intros Hopen Hacc Hclose.
  destruct (inactive_endpoints_answered endpoints w Hopen)
    as (w1 & evs1 & Hrun1 & Htr1 & _ & Hck1 & _).
  set (u1 := reported_inactive env (clock w) endpoints) in *.
  unfold activate_endpoints_or_exit. unfold bind at 1. rewrite Hrun1.
  unfold bind at 1. unfold activate_endpoints_automatically.
  destruct (auto_loop_run env u1 [] w1) as (w2 & E2 & Htr2 & Hck2 & _).
  rewrite Hck1, Hacc in E2. cbn [app] in E2. rewrite E2.
  unfold bind at 1. unfold activate_endpoints_manually.
  cbn [manual_loop]. unfold ret at 1. cbn [List.length Nat.ltb Nat.leb].
  unfold bind at 1. unfold ret at 1. unfold bind at 1.
  destruct (log_expirations_answered endpoints w2) as (w' & infos & Hr & Htr & Hlen & _).
  { intros i e Hnth. rewrite Hck2, Hck1. now apply Hclose. }
  rewrite Hr. unfold ret.
  exists w', (evs1 ++ auto_events u1 (auto_codes env (clock w1) u1)), infos.
  split; [reflexivity|].
  split; [rewrite Htr, Htr2, Htr1; now rewrite <- !app_assoc | exact Hlen].
Qed.

End StatusQueries.

(** C4 (amended): the activation orchestrator succeeds only if every
    endpoint is vouched for: some status query reported it ACTIVE or its
    automatic activation was not rejected.  Before it reports success it
    asks the status of every endpoint once more, as its last events, but
    the ACTIVE flag of these answers is not read: with the opening queries
    answered, no automatic activation rejected and the closing queries
    answered, it succeeds whatever the closing answers say.  It exits with
    [ENDPOINT_ACTIVATION_ERROR] only without a terminal, and the message
    then names every endpoint that is not vouched for, each of them
    rejected by automatic activation; without a terminal and with every
    lookup answered there is no third way out.  When the opening status
    queries report every endpoint ACTIVE, the run consists of status
    queries only (no automatic activation call, no prompt, no attribute
    write) and succeeds unless a closing lookup fails. *)
Theorem activation_orchestrator_outcomes env fuel endpoints w :
  (forall o w',
      activate_endpoints_or_exit env fuel endpoints w = (o, w') ->
      exists evs,
        trace w' = trace w ++ evs
        /\ (returned o = true ->
            o = Ret true
            /\ (forall e, In e endpoints -> vouched e evs = true)
            /\ exists before infos,
                evs = before ++ lookup_events endpoints infos
                /\ List.length infos = List.length endpoints)
        /\ (forall msg,
               o = Exit ENDPOINT_ACTIVATION_ERROR msg ->
               is_interactive env = false
               /\ exists unactivated,
                 unactivated <> []
                 /\ msg = "Was not able to activate endpoints: "
                          +++ Py.join " " unactivated
                 /\ incl unactivated endpoints
                 /\ (forall e, In e endpoints ->
                               In e unactivated \/ vouched e evs = true)
                 /\ (forall e, In e unactivated ->
                               In (EvAutoactivate e "AutoActivationFailed") evs)))
  /\ ((forall i e, nth_error endpoints i = Some e ->
                   endpoint_info env (clock w + i) e <> None) ->
      auto_rejected env (clock w + List.length endpoints)
                    (reported_inactive env (clock w) endpoints) = [] ->
      (forall i e, nth_error endpoints i = Some e ->
                   endpoint_info env
                     (clock w + List.length endpoints
                      + List.length (reported_inactive env (clock w) endpoints) + i) e
                   <> None) ->
      exists w' before infos,
        activate_endpoints_or_exit env fuel endpoints w = (Ret true, w')
        /\ trace w' = trace w ++ before ++ lookup_events endpoints infos
        /\ List.length infos = List.length endpoints)
  /\ ((forall i e, nth_error endpoints i = Some e ->
                   exists info, endpoint_info env (clock w + i) e = Some info
                                /\ is_active info = true) ->
      exists o w' evs,
        activate_endpoints_or_exit env fuel endpoints w = (o, w')
        /\ trace w' = trace w ++ evs
        /\ forallb is_lookup evs = true
        /\ count_events is_autoactivate evs = 0%nat
        /\ count_events is_manual evs = 0%nat
        /\ attr_writes evs = []
        /\ current_ad w' = current_ad w
        /\ (o = Ret true \/ exists msg, o = Exit ENDPOINT_INFO_ERROR msg)
        /\ ((forall i e, nth_error endpoints i = Some e ->
                         endpoint_info env (clock w + List.length endpoints + i) e
                         <> None) ->
            o = Ret true))
  /\ (is_interactive env = false ->
      (forall t e, endpoint_info env t e <> None) ->
      exists w',
        activate_endpoints_or_exit env fuel endpoints w = (Ret true, w')
        \/ exists msg,
            activate_endpoints_or_exit env fuel endpoints w
            = (Exit ENDPOINT_ACTIVATION_ERROR msg, w')).
Proof.
  split; [|split; [|split]].
  - intros o w' Hrun.
    destruct (activate_endpoints_or_exit_run env fuel endpoints w o w' Hrun)
      as (evs & Htr & Hq & Ho).
    exists evs. split; [exact Htr|]. split.
    + intros Hret. destruct o as [b|code msg|exn| |]; try discriminate.
      destruct Ho as (-> & Hall & Hlast). now repeat split.
    + intros msg ->.
      destruct Ho as [[Hcode _] | (_ & Hbatch & u & Hne & Hmsg & Hincl & Hall & Hrej & _)];
        [discriminate|].
      split; [exact Hbatch|]. exists u. now repeat split.
  - apply activate_accepted.
  - intros Hactive.
    destruct (activate_reported_active env fuel endpoints w Hactive)
      as (o & w' & evs & Hrun & Htr & Hlook & Had & Ho & Hclose).
    destruct (lookups_only evs Hlook) as (Ha & Hm & Hw).
    exists o, w', evs. now repeat split.
  - intros Hbatch Hlookups.
    destruct (activate_endpoints_or_exit env fuel endpoints w) as [o w'] eqn:Hrun.
    destruct (activate_endpoints_or_exit_run env fuel endpoints w o w' Hrun)
      as (evs & _ & _ & Ho).
    exists w'. destruct o as [b|code msg|exn| |]; try contradiction; try congruence.
    + left. now destruct Ho as (-> & _).
    + destruct Ho as [(_ & e & t & _ & Hnone) | (-> & _)].
      * now destruct (Hlookups t e).
      * right. now exists msg.
Qed.

Lemma activation_orchestrator_outcomes_witness :
  exists o w' evs,
    activate_endpoints_or_exit SampleActivation.all_active 0
                               ["source"; "destination"] Sample.empty_world
    = (o, w')
    /\ trace w' = trace Sample.empty_world ++ evs
    /\ forallb is_lookup evs = true
    /\ count_events is_autoactivate evs = 0%nat
    /\ count_events is_manual evs = 0%nat
    /\ attr_writes evs = []
    /\ current_ad w' = current_ad Sample.empty_world
    /\ (o = Ret true \/ exists msg, o = Exit ENDPOINT_INFO_ERROR msg)
    /\ ((forall i e, nth_error ["source"; "destination"] i = Some e ->
                     endpoint_info SampleActivation.all_active
                       (clock Sample.empty_world
                        + List.length ["source"; "destination"] + i) e
                     <> None) ->
        o = Ret true).
Proof.
  apply (proj1 (proj2 (proj2 (activation_orchestrator_outcomes
                                SampleActivation.all_active 0 ["source"; "destination"]
                                Sample.empty_world)))).
  intros i e _. exists Sample.active_info. split; reflexivity.
Defined.

(** C4, as stated, fails: the orchestrator reports success for an endpoint
    that no status query ever reported ACTIVE, the last one included; an
    accepted automatic activation is enough for it. *)
Lemma activation_succeeds_without_active_status :
  exists w',
    activate_endpoints_or_exit SampleActivation.trusting 0 ["endpoint"]
                               Sample.empty_world
    = (Ret true, w')
    /\ final_status "endpoint" (trace w') = Some false
    /\ seen_active "endpoint" (trace w') = false.
Proof. eexists. split; [vm_compute; reflexivity | split; reflexivity]. Qed.

(** C8 (amended): the automatic activation step makes exactly one
    automatic activation call per endpoint of the remaining list, in order;
    the endpoints whose call is answered [AutoActivationFailed] stay in the
    needs-work list and every other one is taken as resolved.  Before the
    orchestrator reports success it asks the status of every endpoint once
    more, but only reads the activation expiry from the answers: whether
    they say ACTIVE is not checked. *)
Theorem auto_activation_step env fuel endpoints w :
  (forall remaining w0,
      exists w1 evs,
        activate_endpoints_automatically env remaining w0
        = (Ret (auto_rejected env (clock w0) remaining), w1)
        /\ trace w1 = trace w0 ++ evs
        /\ autoactivated evs = remaining
        /\ count_events is_autoactivate evs = List.length remaining
        /\ List.length evs = List.length remaining
        /\ incl (auto_rejected env (clock w0) remaining) remaining
        /\ (forall e, In e remaining ->
                      In e (auto_rejected env (clock w0) remaining)
                      \/ vouched e evs = true)
        /\ (forall e, In e (auto_rejected env (clock w0) remaining) ->
                      In (EvAutoactivate e "AutoActivationFailed") evs))
  /\ (forall w',
         activate_endpoints_or_exit env fuel endpoints w = (Ret true, w') ->
         exists before infos,
           trace w' = trace w ++ before ++ lookup_events endpoints infos
           /\ List.length infos = List.length endpoints).
Proof.
  split.
  - intros remaining w0. unfold activate_endpoints_automatically.
    destruct (auto_loop_run env remaining [] w0) as (w1 & Hrun & Htr & _).
    exists w1, (auto_events remaining (auto_codes env (clock w0) remaining)).
    assert (Hlen : List.length (auto_events remaining
                                  (auto_codes env (clock w0) remaining))
                   = List.length remaining).
    { unfold auto_events. rewrite length_map, length_combine, auto_codes_length. lia. }
    assert (Hcalls : autoactivated (auto_events remaining
                                      (auto_codes env (clock w0) remaining))
                     = remaining).
    { apply autoactivated_auto_events, auto_codes_length. }
    split; [exact Hrun|]. split; [exact Htr|]. split; [exact Hcalls|].
    split.
    { unfold count_events. rewrite <- Hlen. f_equal.
      unfold auto_events. apply forallb_filter_id. apply forallb_forall.
      intros ev Hin. apply in_map_iff in Hin as (x & <- & _). reflexivity. }
    split; [exact Hlen|].
    split; [apply auto_rejected_incl|].
    split; [intros e; apply auto_rejected_or_vouched|].
    intros e. apply auto_rejected_event.
  - intros w' Hrun.
    destruct (activate_endpoints_or_exit_run env fuel endpoints w _ w' Hrun)
      as (evs & Htr & _ & _ & _ & before & infos & -> & Hlen).
    exists before, infos. now split.
Qed.

Lemma auto_activation_step_witness :
  exists before infos,
    trace (snd (activate_endpoints_or_exit SampleActivation.trusting 0
                  ["source"] Sample.empty_world))
    = trace Sample.empty_world ++ before ++ lookup_events ["source"] infos
    /\ List.length infos = 1%nat.
Proof.
  apply (proj2 (auto_activation_step SampleActivation.trusting 0 ["source"]
                  Sample.empty_world)).
  reflexivity.
Defined.

(** C8, as stated, fails: automatic activation is accepted for both
    endpoints, the fresh status queries that follow report both of them
    inactive, and the orchestrator reports success all the same. *)
Lemma accepted_endpoints_not_reverified :
  exists w',
    activate_endpoints_or_exit SampleActivation.trusting 0
                               ["source"; "destination"] Sample.empty_world
    = (Ret true, w')
    /\ trace w'
       = [EvEndpointInfo "source" (Some Sample.inactive_info);
          EvEndpointInfo "destination" (Some Sample.inactive_info);
          EvAutoactivate "source" "AutoActivated.CachedCredential";
          EvAutoactivate "destination" "AutoActivated.CachedCredential";
          EvEndpointInfo "source" (Some Sample.inactive_info);
          EvEndpointInfo "destination" (Some Sample.inactive_info)]
    /\ forallb not_reported_active (trace w') = true.
Proof. eexists. split; [vm_compute; reflexivity | split; reflexivity]. Qed.

(** * Hold resolution *)

Lemma released_app evs1 evs2 :
  released (evs1 ++ evs2) = released evs1 ++ released evs2.
Proof.
  induction evs1 as [|ev rest IH]; [reflexivity|].
  destruct ev; cbn; now rewrite IH.
Qed.

Lemma untouched_app evs1 evs2 c key :
  untouched (evs1 ++ evs2) c key -> untouched evs1 c key /\ untouched evs2 c key.
Proof.
  unfold untouched. intros H. split; intros v Hin; apply (H v), in_or_app; auto.
Qed.

Lemma job_framed_refl evs j : job_framed evs j j.
Proof. now repeat split. Qed.

Lemma framed_refl evs q : framed evs q q.
Proof. induction q; constructor; auto using job_framed_refl. Qed.

Lemma framed_eq evs q q' : q' = q -> framed evs q q'.
Proof. intros ->. apply framed_refl. Qed.

Lemma framed_trans evs1 evs2 q q1 q2 :
  framed evs1 q q1 -> framed evs2 q1 q2 -> framed (evs1 ++ evs2) q q2.
Proof.
  intros H1. revert q2. induction H1 as [|j j1 q q1 Hj Hq IH]; intros q2 H2.
  - inversion H2; subst. constructor.
  - inversion H2 as [|? j2 ? q2' Hj2 Hq2]; subst. constructor; [|now apply IH].
    destruct Hj as (Hc & Hg & Ha), Hj2 as (Hc2 & Hg2 & Ha2).
    split; [congruence|]. split; [congruence|].
    intros key Hun. apply untouched_app in Hun as [Hun1 Hun2].
    rewrite Ha2 by now rewrite Hc. now apply Ha.
Qed.

Lemma framed_set_attr c key v q :
  framed [EvSetJobAttr (Some c) key v] q
         (map (fun j => if cluster_id j =? c
                        then with_attrs j (dict_set key v (attrs j)) else j) q).
Proof.
  induction q as [|j q IH]; cbn [map]; constructor; [|exact IH].
  destruct (Z.eqb_spec (cluster_id j) c) as [Heq|Hne]; [|apply job_framed_refl].
  split; [reflexivity|]. split; [reflexivity|].
  intros key' Hun. cbn [attrs with_attrs]. apply dict_get_set_other.
  intros ->. apply (Hun v). left. now rewrite Heq.
Qed.

Lemma framed_release evs c q :
  framed evs q (map (fun j => if cluster_id j =? c then with_held j false else j) q).
Proof.
  induction q as [|j q IH]; cbn [map]; constructor; [|exact IH].
  destruct (cluster_id j =? c); [|apply job_framed_refl]. now repeat split.
Qed.

Lemma seen_active_app_l e evs1 evs2 :
  seen_active e evs1 = true -> seen_active e (evs1 ++ evs2) = true.
Proof. intros H. now rewrite seen_active_app, H. Qed.

Lemma seen_active_app_r e evs1 evs2 :
  seen_active e evs2 = true -> seen_active e (evs1 ++ evs2) = true.
Proof. intros H. rewrite seen_active_app, H. apply orb_true_r. Qed.

(** What the comprehension of [release] collects: each entry maps the
    endpoint held by an attribute to the key of that attribute, and the key
    starts with the prefix. *)
Lemma dict_set_in {V} key (value : V) d k v :
  In (k, v) (dict_set key value d) -> (k, v) = (key, value) \/ In (k, v) d.
Proof.
  induction d as [|[k0 v0] rest IH]; cbn.
  - intros [H|[]]. left. now symmetry.
  - destruct (String.eqb_spec k0 key) as [->|Hne]; cbn.
    + intros [H|H]; [left; now symmetry | right; now right].
    + intros [H|H]; [right; now left|].
      destruct (IH H) as [H'|H']; [now left | right; now right].
Qed.

Lemma manual_endpoints_of_in job e key :
  In (e, key) (manual_endpoints_of job) ->
  In (key, AdString e) (attrs job)
  /\ Py.startswith ENDPOINT_ACTIVATION_REQUIRED key = true.
Proof.
  unfold manual_endpoints_of.
  assert (H : forall kvs d,
             In (e, key) (fold_left
                            (fun d kv =>
                               match snd kv with
                               | AdString v =>
                                   if Py.startswith ENDPOINT_ACTIVATION_REQUIRED (fst kv)
                                   then dict_set v (fst kv) d else d
                               | AdUndefined => d
                               end) kvs d) ->
             In (e, key) d
             \/ (In (key, AdString e) kvs
                 /\ Py.startswith ENDPOINT_ACTIVATION_REQUIRED key = true)).
  { induction kvs as [|[k v] kvs IH]; intros d Hin; [now left|].
    cbn [fold_left fst snd] in Hin. apply IH in Hin as [Hin | [Hin Hp]].
    - destruct v as [s|]; [|now left].
      destruct (Py.startswith ENDPOINT_ACTIVATION_REQUIRED k) eqn:Ep; [|now left].
      apply dict_set_in in Hin as [Heq | Hin]; [|now left].
      inversion Heq; subst. right. split; [now left | exact Ep].
    - right. split; [now right | exact Hp]. }
  intros Hin. destruct (H _ _ Hin) as [[] | Hres]. exact Hres.
Qed.

Lemma no_attr_writes evs :
  attr_writes evs = [] ->
  (forall ev, In ev evs -> is_scheduler_write ev = false) ->
  forall sc key v, ~ In (EvSetJobAttr sc key v) evs.
Proof.
  intros Hwr Hquiet sc key v Hin. apply Hquiet in Hin as Hev.
  destruct sc; [discriminate|]. clear Hev Hquiet.
  induction evs as [|ev rest IH]; [contradiction|].
  destruct Hin as [-> | Hin]; [discriminate|].
  apply IH; [|exact Hin].
  destruct ev as [| | |[c|] k' v'| | | | |]; cbn in Hwr; try assumption.
  discriminate.
Qed.

Section HoldResolution.

Variable env : Env.

Lemma wait_until_active_quiet endpoint msg :
  forall fuel w o w',
    wait_until_active env fuel endpoint msg w = (o, w') ->
    filter is_scheduler_write (trace w') = filter is_scheduler_write (trace w).
Proof.
  induction fuel as [|fuel IH]; intros w o w' Hrun.
  - now inversion Hrun.
  - cbn [wait_until_active] in Hrun. unfold bind at 1 in Hrun.
    unfold get_or_exit at 1 in Hrun.
    destruct (endpoint_info env (clock w) endpoint) as [info|].
    + destruct (is_active info).
      * inversion Hrun; subst. cbn [trace answered].
        rewrite filter_app. cbn. apply app_nil_r.
      * unfold bind at 1 in Hrun. unfold secho at 1 in Hrun.
        unfold bind at 1 in Hrun. unfold click_confirm at 1 in Hrun.
        cbn [clock emit answered] in Hrun.
        destruct (confirm env (S (clock w))).
        -- apply IH in Hrun. rewrite Hrun. cbn [trace emit answered].
           rewrite !filter_app. cbn. now rewrite !app_nil_r.
        -- inversion Hrun; subst. cbn [trace emit answered].
           rewrite !filter_app. cbn. now rewrite !app_nil_r.
    + inversion Hrun; subst. cbn [trace answered].
      rewrite filter_app. cbn. apply app_nil_r.
Qed.

Lemma manual_loop_quiet endpoints :
  forall fuel idx unactivated w o w',
    manual_loop env fuel idx endpoints unactivated w = (o, w') ->
    filter is_scheduler_write (trace w') = filter is_scheduler_write (trace w).
Proof.
  induction endpoints as [|e rest IH]; intros fuel idx unactivated w o w' Hrun.
  - now inversion Hrun.
  - cbn [manual_loop] in Hrun. unfold bind at 1 in Hrun.
    unfold get_or_exit at 1 in Hrun.
    destruct (endpoint_info env (clock w) e) as [info|].
    + assert (H1 : filter is_scheduler_write
                     (trace (answered (EvEndpointInfo e (Some info)) w))
                   = filter is_scheduler_write (trace w)).
      { cbn [trace answered]. rewrite filter_app. cbn. apply app_nil_r. }
      destruct (is_interactive env).
      * unfold bind at 1 in Hrun.
        match type of Hrun with
          match wait_until_active _ _ _ ?m ?w1 with _ => _ end = _ =>
          destruct (wait_until_active env fuel e m w1) as [o1 w1'] eqn:Ewait
        end.
        apply wait_until_active_quiet in Ewait.
        destruct o1; try (inversion Hrun; subst; congruence).
        apply IH in Hrun. congruence.
      * unfold bind at 1 in Hrun. unfold set_job_attr at 1 in Hrun.
        apply IH in Hrun. rewrite Hrun. cbn [trace emit answered].
        rewrite !filter_app. cbn. now rewrite !app_nil_r.
    + inversion Hrun; subst. cbn [trace answered].
      rewrite filter_app. cbn. apply app_nil_r.
Qed.

(** Manual activation in either mode, as [release] sees it. *)
Lemma manual_loop_run endpoints fuel idx unactivated w o w' :
  manual_loop env fuel idx endpoints unactivated w = (o, w') ->
  exists evs,
    trace w' = trace w ++ evs
    /\ queue w' = queue w
    /\ (forall ev, In ev evs -> is_scheduler_write ev = false)
    /\ (is_interactive env = true ->
        forall sc key v, ~ In (EvSetJobAttr sc key v) evs)
    /\ match o with
       | Ret _ =>
           is_interactive env = true ->
           forall e, In e endpoints -> seen_active e evs = true
       | Exit code _ => code = ENDPOINT_INFO_ERROR /\ lookup_fails env endpoints
       | Raise _ => False
       | Abort | OutOfFuel => is_interactive env = true
       end.
Proof.
  intros Hrun. pose proof (manual_loop_quiet _ _ _ _ _ _ _ Hrun) as Hquiet.
  assert (Hnone : forall evs, trace w' = trace w ++ evs ->
                              forall ev, In ev evs -> is_scheduler_write ev = false).
  { intros evs Htr ev Hin. rewrite Htr, filter_app in Hquiet.
    assert (Hnil : filter is_scheduler_write evs = []).
    { apply (app_inv_head (filter is_scheduler_write (trace w))).
      now rewrite app_nil_r. }
    destruct (is_scheduler_write ev) eqn:E; [|reflexivity].
    assert (Hf : In ev (filter is_scheduler_write evs)) by (apply filter_In; auto).
    rewrite Hnil in Hf. contradiction. }
  destruct (is_interactive env) eqn:Emode.
  - destruct (manual_loop_terminal env Emode _ _ _ _ _ _ _ Hrun)
      as (evs & Htr & Hwr & _ & Hq & Ho).
    exists evs. split; [exact Htr|]. split; [exact Hq|].
    split; [now apply Hnone|].
    split; [intros _; now apply no_attr_writes; [|apply Hnone]|].
    destruct o; try exact Ho; try reflexivity.
    intros _. now destruct Ho.
  - destruct (manual_loop_batch env Emode _ _ _ _ _ _ _ Hrun)
      as (evs & Htr & Hq & Ho).
    exists evs. split; [exact Htr|]. split; [exact Hq|].
    split; [now apply Hnone|].
    split; [discriminate|].
    destruct o; try exact Ho; try contradiction.
    discriminate.
Qed.

(** The resets after manual activation. *)
Lemma reset_attrs_run job keys :
  forall w, exists w',
    reset_attrs keys job w = (Ret tt, w')
    /\ trace w' = trace w
                  ++ map (fun k => EvSetJobAttr (Some (cluster_id job)) k AdUndefined) keys
    /\ framed (map (fun k => EvSetJobAttr (Some (cluster_id job)) k AdUndefined) keys)
              (queue w) (queue w').
Proof.
  induction keys as [|k rest IH]; intros w.
  - exists w. cbn. rewrite app_nil_r. repeat split. apply framed_refl.
  - cbn [reset_attrs]. unfold bind at 1. unfold set_job_attr at 1.
    match goal with |- context [reset_attrs rest job ?w1] =>
      destruct (IH w1) as (w' & Hrun & Htr & Hfr) end.
    exists w'. split; [exact Hrun|].
    split; [rewrite Htr; cbn [trace emit map]; now rewrite <- app_assoc|].
    cbn [map].
    change (framed ([EvSetJobAttr (Some (cluster_id job)) k AdUndefined]
                      ++ map (fun k0 => EvSetJobAttr (Some (cluster_id job)) k0 AdUndefined)
                             rest) (queue w) (queue w')).
    eapply framed_trans; [|exact Hfr]. cbn [queue emit]. apply framed_set_attr.
Qed.

End HoldResolution.

Lemma released_quiet evs :
  (forall ev, In ev evs -> is_scheduler_write ev = false) -> released evs = [].
Proof.
  induction evs as [|ev rest IH]; intros H; [reflexivity|].
  pose proof (H ev (or_introl eq_refl)) as Hev.
  destruct ev; try discriminate; cbn; apply IH; intros ev' Hin; apply H; now right.
Qed.

Lemma released_resets c keys :
  released (map (fun k => EvSetJobAttr (Some c) k AdUndefined) keys) = [].
Proof. induction keys; [reflexivity | exact IHkeys]. Qed.

Lemma resets_justified_nil jobs evs :
  (forall ev, In ev evs -> is_manual ev = false) -> resets_justified jobs evs.
Proof. intros H sc key v Hin. apply H in Hin. discriminate. Qed.

Section ReleaseLoop.

Variable env : Env.

(** One job of the scan. *)
Lemma resolve_job_run fuel job w o w' :
  resolve_job env fuel job w = (o, w') ->
  exists evs,
    trace w' = trace w ++ evs
    /\ released evs = (if returned o then [cluster_id job] else [])
    /\ framed evs (queue w) (queue w')
    /\ job_outcome env o
    /\ (is_interactive env = true -> resets_justified [job] evs).
Proof.
  intros Hrun. unfold resolve_job in Hrun.
  unfold bind at 1 in Hrun. unfold secho at 1 in Hrun.
  set (m1 := "Attempting to resolve holds for job " +++ Py.str_of_Z (cluster_id job)) in *.
  set (m2 := "Releasing job " +++ Py.str_of_Z (cluster_id job)) in *.
  set (w1 := emit (EvOut m1) w) in *.
  unfold bind at 1 in Hrun.
  destruct (0 <? List.length (manual_endpoints_of job))%nat.
  - (* endpoints are recorded on the job *)
    unfold bind at 1 in Hrun. unfold get_transfer_client_or_exit in Hrun.
    destruct (refresh_token env) as [token|] eqn:Etok.
    + unfold ret at 1 in Hrun. unfold bind at 1 in Hrun.
      unfold activate_endpoints_manually in Hrun.
      destruct (manual_loop env fuel 0 (map fst (manual_endpoints_of job)) [] w1)
        as [o3 w3] eqn:E3.
      destruct (manual_loop_run env _ _ _ _ _ _ _ E3)
        as (evs3 & Htr3 & Hq3 & Hquiet3 & Hnowr3 & Ho3).
      destruct o3 as [u3|code3 msg3|exn3| |]; try contradiction.
      * destruct (reset_attrs_run job (map snd (manual_endpoints_of job)) w3)
          as (w4 & E4 & Htr4 & Hfr4).
        rewrite E4 in Hrun. unfold bind, secho, schedd_act_release in Hrun.
        inversion Hrun; subst o w'; clear Hrun.
        set (resets := map (fun k => EvSetJobAttr (Some (cluster_id job)) k AdUndefined)
                           (map snd (manual_endpoints_of job))) in *.
        exists ([EvOut m1] ++ evs3 ++ resets ++ [EvOut m2; EvRelease (cluster_id job)]).
        split.
        { cbn [trace emit]. rewrite Htr4, Htr3. subst w1. cbn [trace emit].
          now rewrite <- !app_assoc. }
        split.
        { rewrite !released_app, (released_quiet evs3 Hquiet3).
          subst resets. now rewrite released_resets. }
        split.
        { cbn [queue emit]. rewrite !app_assoc.
          apply (framed_trans (([EvOut m1] ++ evs3) ++ resets)
                   [EvOut m2; EvRelease (cluster_id job)] _ (queue w4)).
          - apply (framed_trans ([EvOut m1] ++ evs3) resets _ (queue w3));
              [apply framed_eq; now rewrite Hq3 | exact Hfr4].
          - apply framed_release. }
        split; [exact I|].
        intros Hterm sc key v Hin.
        apply in_app_or in Hin as [[Hin|[]] | Hin]; [discriminate|].
        apply in_app_or in Hin as [Hin | Hin].
        { now destruct (Hnowr3 Hterm sc key v). }
        apply in_app_or in Hin as [Hin | [Hin|[Hin|[]]]]; try discriminate.
        subst resets. apply in_map_iff in Hin as (k & Heq & Hk).
        inversion Heq; subst sc key v. split; [reflexivity|].
        apply in_map_iff in Hk as ([e k'] & Hk' & Hin). cbn in Hk'. subst k'.
        exists job, e. split; [now left|]. split; [reflexivity|]. split; [exact Hin|].
        apply seen_active_app_r, seen_active_app_l.
        apply (Ho3 Hterm). apply in_map_iff. now exists (e, k).
      * inversion Hrun; subst o w'; clear Hrun.
        exists ([EvOut m1] ++ evs3).
        split; [rewrite Htr3; subst w1; cbn [trace emit]; now rewrite <- app_assoc|].
        split; [rewrite released_app; now rewrite (released_quiet evs3 Hquiet3)|].
        split; [apply framed_eq; now rewrite Hq3|].
        split.
        { right. destruct Ho3 as (-> & e & t & _ & Hnone).
          split; [reflexivity|]. now exists e, t. }
        intros Hterm sc key v Hin. apply in_app_or in Hin as [[Hin|[]] | Hin];
          [discriminate|].
        now destruct (Hnowr3 Hterm sc key v).
      * inversion Hrun; subst o w'; clear Hrun.
        exists ([EvOut m1] ++ evs3).
        split; [rewrite Htr3; subst w1; cbn [trace emit]; now rewrite <- app_assoc|].
        split; [rewrite released_app; now rewrite (released_quiet evs3 Hquiet3)|].
        split; [apply framed_eq; now rewrite Hq3|].
        split; [exact Ho3|].
        intros Hterm sc key v Hin. apply in_app_or in Hin as [[Hin|[]] | Hin];
          [discriminate|].
        now destruct (Hnowr3 Hterm sc key v).
      * inversion Hrun; subst o w'; clear Hrun.
        exists ([EvOut m1] ++ evs3).
        split; [rewrite Htr3; subst w1; cbn [trace emit]; now rewrite <- app_assoc|].
        split; [rewrite released_app; now rewrite (released_quiet evs3 Hquiet3)|].
        split; [apply framed_eq; now rewrite Hq3|].
        split; [exact Ho3|].
        intros Hterm sc key v Hin. apply in_app_or in Hin as [[Hin|[]] | Hin];
          [discriminate|].
        now destruct (Hnowr3 Hterm sc key v).
    + (* no credential *)
      unfold error in Hrun. inversion Hrun; subst o w'; clear Hrun.
      exists [EvOut m1]. split; [reflexivity|]. split; [reflexivity|].
      split; [apply framed_refl|]. split; [left; now split|].
      intros _. apply resets_justified_nil. intros ev [<-|[]]. reflexivity.
  - (* nothing recorded *)
    unfold ret, bind, secho, schedd_act_release in Hrun.
    inversion Hrun; subst o w'; clear Hrun.
    exists [EvOut m1; EvOut m2; EvRelease (cluster_id job)].
    split; [subst w1; cbn [trace emit]; now rewrite <- !app_assoc|].
    split; [reflexivity|].
    split; [cbn [queue emit]; apply framed_release|].
    split; [exact I|].
    intros _. apply resets_justified_nil.
    intros ev [<-|[<-|[<-|[]]]]; reflexivity.
Qed.

End ReleaseLoop.

Lemma resets_justified_app jobs1 jobs2 evs1 evs2 :
  resets_justified jobs1 evs1 -> resets_justified jobs2 evs2 ->
  resets_justified (jobs1 ++ jobs2) (evs1 ++ evs2).
Proof.
  intros H1 H2 sc key v Hin. apply in_app_or in Hin as [Hin | Hin].
  - destruct (H1 sc key v Hin) as (Hv & job & e & Hjob & Hsc & He & Hseen).
    split; [exact Hv|]. exists job, e.
    repeat split; auto using in_or_app, seen_active_app_l.
  - destruct (H2 sc key v Hin) as (Hv & job & e & Hjob & Hsc & He & Hseen).
    split; [exact Hv|]. exists job, e.
    repeat split; auto using in_or_app, seen_active_app_r.
Qed.

Section ReleaseCommand.

Variable env : Env.

(** The scan: jobs are handled in order, and it stops at the first job
    whose resolution ends the command. *)
Lemma release_loop_run fuel jobs :
  forall w o w',
    release_loop env fuel jobs w = (o, w') ->
    exists evs n,
      trace w' = trace w ++ evs
      /\ released evs = firstn n (map cluster_id jobs)
      /\ (if returned o then n = List.length jobs else (n < List.length jobs)%nat)
      /\ framed evs (queue w) (queue w')
      /\ job_outcome env o
      /\ (is_interactive env = true -> resets_justified jobs evs).
Proof.
  induction jobs as [|job rest IH]; intros w o w' Hrun.
  - inversion Hrun; subst. exists [], 0%nat. rewrite app_nil_r.
    split; [reflexivity|]. split; [reflexivity|]. split; [reflexivity|].
    split; [apply framed_refl|]. split; [exact I|].
    intros _. apply resets_justified_nil. contradiction.
  - cbn [release_loop] in Hrun. unfold bind at 1 in Hrun.
    destruct (resolve_job env fuel job w) as [o1 w1] eqn:E1.
    destruct (resolve_job_run env fuel job w o1 w1 E1)
      as (evs1 & Htr1 & Hrel1 & Hfr1 & Ho1 & Hres1).
    destruct o1 as [[]|code1 msg1|exn1| |]; try contradiction.
    + destruct (IH _ _ _ Hrun) as (evs2 & n & Htr2 & Hrel2 & Hn & Hfr2 & Ho & Hres2).
      exists (evs1 ++ evs2), (S n).
      split; [rewrite Htr2, Htr1; now rewrite <- app_assoc|].
      split; [rewrite released_app, Hrel1, Hrel2; reflexivity|].
      split; [destruct (returned o); cbn [List.length]; lia|].
      split; [now apply (framed_trans evs1 evs2 _ (queue w1))|].
      split; [exact Ho|].
      intros Hterm. apply (resets_justified_app [job] rest); auto.
    + inversion Hrun; subst. exists evs1, 0%nat.
      split; [exact Htr1|]. split; [exact Hrel1|].
      split; [cbn; lia|]. split; [exact Hfr1|]. split; [exact Ho1|].
      intros Hterm. rewrite <- (app_nil_r evs1).
      apply (resets_justified_app [job] rest); auto.
      apply resets_justified_nil. contradiction.
    + inversion Hrun; subst. exists evs1, 0%nat.
      split; [exact Htr1|]. split; [exact Hrel1|].
      split; [cbn; lia|]. split; [exact Hfr1|]. split; [exact Ho1|].
      intros Hterm. rewrite <- (app_nil_r evs1).
      apply (resets_justified_app [job] rest); auto.
      apply resets_justified_nil. contradiction.
    + inversion Hrun; subst. exists evs1, 0%nat.
      split; [exact Htr1|]. split; [exact Hrel1|].
      split; [cbn; lia|]. split; [exact Hfr1|]. split; [exact Ho1|].
      intros Hterm. rewrite <- (app_nil_r evs1).
      apply (resets_justified_app [job] rest); auto.
      apply resets_justified_nil. contradiction.
Qed.

Lemma release_run fuel w o w' :
  release env fuel w = (o, w') ->
  exists evs n,
    trace w' = trace w ++ evs
    /\ released evs = firstn n (map cluster_id (owned_jobs w))
    /\ (if returned o then n = List.length (owned_jobs w)
        else (n < List.length (owned_jobs w))%nat)
    /\ framed evs (queue w) (queue w')
    /\ job_outcome env o
    /\ (is_interactive env = true -> resets_justified (owned_jobs w) evs).
Proof.
  unfold release, get_globus_jobs. unfold bind at 1.
  apply release_loop_run.
Qed.

End ReleaseCommand.

Lemma prefix_append p t : String.prefix p (p +++ t) = true.
Proof.
  induction p as [|a p IH]; [now destruct t|].
  cbn [String.append String.prefix].
  destruct (ascii_dec a a) as [_|Hne]; [exact IH | now destruct Hne].
Qed.

Lemma filter_new_events (p : Event -> bool) (tr evs : list Event) :
  filter p (tr ++ evs) = filter p tr -> filter p evs = [].
Proof.
  rewrite filter_app. intros H.
  apply (app_inv_head (filter p tr)). now rewrite app_nil_r.
Qed.

(** ** The order of the scan *)

Lemma attempt_line_mark job : is_scan_mark (attempt_line job) = true.
Proof.
  unfold attempt_line, is_scan_mark, Py.startswith. now rewrite prefix_append.
Qed.

Lemma releasing_line_mark job : is_scan_mark (releasing_line job) = true.
Proof.
  unfold releasing_line, is_scan_mark, Py.startswith.
  rewrite (prefix_append "Releasing job "). apply orb_true_r.
Qed.

Lemma resets_no_mark c keys :
  filter is_scan_mark (map (fun k => EvSetJobAttr (Some c) k AdUndefined) keys) = [].
Proof. induction keys; [reflexivity | exact IHkeys]. Qed.

Lemma released_marks evs : released (filter is_scan_mark evs) = released evs.
Proof.
  induction evs as [|ev evs IH]; [reflexivity|].
  destruct ev; cbn [filter is_scan_mark released]; try exact IH.
  - now rewrite IH.
  - destruct (_ || _); [exact IH | exact IH].
Qed.

Lemma released_job_marks jobs :
  forall n,
    released (flat_map job_marks (firstn n jobs)) = firstn n (map cluster_id jobs).
Proof.
  induction jobs as [|job rest IH]; intros [|n]; try reflexivity.
  cbn [firstn flat_map map job_marks app released attempt_line releasing_line].
  now rewrite IH.
Qed.

Lemma released_scan_marks jobs n completed :
  released (scan_marks jobs n completed) = firstn n (map cluster_id jobs).
Proof.
  unfold scan_marks. rewrite released_app, released_job_marks.
  destruct completed; [apply app_nil_r|].
  destruct (nth_error jobs n); apply app_nil_r.
Qed.

Section ScanOrder.

Variable env : Env.

Lemma wait_until_active_marks endpoint msg :
  is_scan_mark (EvOut msg) = false ->
  forall fuel w o w',
    wait_until_active env fuel endpoint msg w = (o, w') ->
    filter is_scan_mark (trace w') = filter is_scan_mark (trace w).
Proof.
  intros Hmsg. induction fuel as [|fuel IH]; intros w o w' Hrun.
  - now inversion Hrun.
  - cbn [wait_until_active] in Hrun. unfold bind at 1 in Hrun.
    unfold get_or_exit at 1 in Hrun.
    destruct (endpoint_info env (clock w) endpoint) as [info|].
    + destruct (is_active info).
      * inversion Hrun; subst. cbn [trace answered].
        rewrite filter_app. cbn. apply app_nil_r.
      * unfold bind at 1 in Hrun. unfold secho at 1 in Hrun.
        unfold bind at 1 in Hrun. unfold click_confirm at 1 in Hrun.
        cbn [clock emit answered] in Hrun.
        destruct (confirm env (S (clock w))).
        -- apply IH in Hrun. rewrite Hrun. cbn [trace emit answered].
           rewrite !filter_app. cbn [filter]. rewrite Hmsg.
           cbn. now rewrite !app_nil_r.
        -- inversion Hrun; subst. cbn [trace emit answered].
           rewrite !filter_app. cbn [filter]. rewrite Hmsg.
           cbn. now rewrite !app_nil_r.
    + inversion Hrun; subst. cbn [trace answered].
      rewrite filter_app. cbn. apply app_nil_r.
Qed.

(** Manual activation prints no line of the scan and releases nothing. *)
Lemma manual_loop_marks endpoints :
  forall fuel idx unactivated w o w',
    manual_loop env fuel idx endpoints unactivated w = (o, w') ->
    filter is_scan_mark (trace w') = filter is_scan_mark (trace w).
Proof.
  induction endpoints as [|e rest IH]; intros fuel idx unactivated w o w' Hrun.
  - now inversion Hrun.
  - cbn [manual_loop] in Hrun. unfold bind at 1 in Hrun.
    unfold get_or_exit at 1 in Hrun.
    destruct (endpoint_info env (clock w) e) as [info|].
    + assert (H1 : filter is_scan_mark
                     (trace (answered (EvEndpointInfo e (Some info)) w))
                   = filter is_scan_mark (trace w)).
      { cbn [trace answered]. rewrite filter_app. cbn. apply app_nil_r. }
      destruct (is_interactive env).
      * unfold bind at 1 in Hrun.
        match type of Hrun with
          match wait_until_active _ _ _ ?m ?w1 with _ => _ end = _ =>
          destruct (wait_until_active env fuel e m w1) as [o1 w1'] eqn:Ewait
        end.
        apply wait_until_active_marks in Ewait; [|reflexivity].
        destruct o1; try (inversion Hrun; subst; congruence).
        apply IH in Hrun. congruence.
      * unfold bind at 1 in Hrun. unfold set_job_attr at 1 in Hrun.
        apply IH in Hrun. rewrite Hrun. cbn [trace emit answered].
        rewrite !filter_app. cbn. now rewrite !app_nil_r.
    + inversion Hrun; subst. cbn [trace answered].
      rewrite filter_app. cbn. apply app_nil_r.
Qed.

(** One job of the scan: its line, the resolution of its endpoints, and,
    if the resolution came back, the second line and the release.  Only a
    job that records endpoints can end the command. *)
Lemma resolve_job_marks fuel job w o w' :
  resolve_job env fuel job w = (o, w') ->
  exists evs,
    trace w' = trace w ++ evs
    /\ filter is_scan_mark evs
       = (if returned o then job_marks job else [attempt_line job])
    /\ (returned o = false -> manual_endpoints_of job <> []).
Proof.
  intros Hrun. unfold resolve_job in Hrun.
  unfold bind at 1 in Hrun. unfold secho at 1 in Hrun.
  fold (attempt_line job) in Hrun.
  set (w1 := emit (attempt_line job) w) in *.
  unfold bind at 1 in Hrun.
  destruct (manual_endpoints_of job) as [|ek rest] eqn:EM.
  - cbn [List.length Nat.ltb Nat.leb] in Hrun.
    unfold ret, bind, secho, schedd_act_release in Hrun.
    fold (releasing_line job) in Hrun.
    inversion Hrun; subst o w'; clear Hrun.
    exists (job_marks job).
    split; [subst w1; cbn [trace emit job_marks]; now rewrite <- !app_assoc|].
    split; [|discriminate].
    cbn [returned job_marks filter].
    now rewrite attempt_line_mark, releasing_line_mark.
  - cbn [List.length Nat.ltb Nat.leb] in Hrun.
    unfold bind at 1 in Hrun. unfold get_transfer_client_or_exit in Hrun.
    destruct (refresh_token env) as [token|].
    + unfold ret at 1 in Hrun. unfold bind at 1 in Hrun.
      unfold activate_endpoints_manually in Hrun.
      destruct (manual_loop env fuel 0 (map fst (ek :: rest)) [] w1) as [o3 w3] eqn:E3.
      pose proof (manual_loop_marks _ _ _ _ _ _ _ E3) as Hmarks3.
      destruct (manual_loop_run env _ _ _ _ _ _ _ E3) as (evs3 & Htr3 & _ & _ & _ & Ho3).
      rewrite Htr3 in Hmarks3. apply filter_new_events in Hmarks3.
      destruct o3 as [u3|code3 msg3|exn3| |]; try contradiction.
      * destruct (reset_attrs_run job (map snd (ek :: rest)) w3) as (w4 & E4 & Htr4 & _).
        rewrite E4 in Hrun. unfold bind, secho, schedd_act_release in Hrun.
        fold (releasing_line job) in Hrun.
        inversion Hrun; subst o w'; clear Hrun.
        set (resets := map (fun k => EvSetJobAttr (Some (cluster_id job)) k AdUndefined)
                           (map snd (ek :: rest))) in *.
        exists ([attempt_line job] ++ evs3 ++ resets
                ++ [releasing_line job; EvRelease (cluster_id job)]).
        split.
        { cbn [trace emit]. rewrite Htr4, Htr3. subst w1. cbn [trace emit].
          now rewrite <- !app_assoc. }
        split; [|discriminate].
        rewrite !filter_app, Hmarks3. subst resets. rewrite resets_no_mark.
        cbn [returned job_marks filter app].
        now rewrite attempt_line_mark, releasing_line_mark.
      * inversion Hrun; subst o w'; clear Hrun.
        exists ([attempt_line job] ++ evs3).
        split; [rewrite Htr3; subst w1; cbn [trace emit]; now rewrite <- app_assoc|].
        split; [|discriminate].
        rewrite filter_app, Hmarks3. cbn [returned filter app].
        now rewrite attempt_line_mark.
      * inversion Hrun; subst o w'; clear Hrun.
        exists ([attempt_line job] ++ evs3).
        split; [rewrite Htr3; subst w1; cbn [trace emit]; now rewrite <- app_assoc|].
        split; [|discriminate].
        rewrite filter_app, Hmarks3. cbn [returned filter app].
        now rewrite attempt_line_mark.
      * inversion Hrun; subst o w'; clear Hrun.
        exists ([attempt_line job] ++ evs3).
        split; [rewrite Htr3; subst w1; cbn [trace emit]; now rewrite <- app_assoc|].
        split; [|discriminate].
        rewrite filter_app, Hmarks3. cbn [returned filter app].
        now rewrite attempt_line_mark.
    + unfold error in Hrun. inversion Hrun; subst o w'; clear Hrun.
      exists [attempt_line job]. split; [reflexivity|].
      split; [|discriminate]. cbn [returned filter]. now rewrite attempt_line_mark.
Qed.

(** The scan releases each job before it turns to the next one, and ends
    with the job whose resolution ends the command. *)
Lemma release_loop_marks fuel jobs :
  forall w o w',
    release_loop env fuel jobs w = (o, w') ->
    exists evs n,
      trace w' = trace w ++ evs
      /\ filter is_scan_mark evs = scan_marks jobs n (returned o)
      /\ (returned o = true -> n = List.length jobs)
      /\ (returned o = false ->
          exists job, nth_error jobs n = Some job /\ manual_endpoints_of job <> []).
Proof.
  induction jobs as [|job rest IH]; intros w o w' Hrun.
  - inversion Hrun; subst. exists [], 0%nat. rewrite app_nil_r.
    split; [reflexivity|]. split; [reflexivity|]. split; [reflexivity | discriminate].
  - cbn [release_loop] in Hrun. unfold bind at 1 in Hrun.
    destruct (resolve_job env fuel job w) as [o1 w1] eqn:E1.
    destruct (resolve_job_marks fuel job w o1 w1 E1) as (evs1 & Htr1 & Hm1 & Hp1).
    destruct o1 as [[]|code1 msg1|exn1| |].
    + destruct (IH _ _ _ Hrun) as (evs2 & n & Htr2 & Hm2 & Hret & Hcut).
      exists (evs1 ++ evs2), (S n).
      split; [rewrite Htr2, Htr1; now rewrite <- app_assoc|].
      split.
      { rewrite filter_app, Hm1, Hm2. unfold scan_marks.
        cbn [returned firstn flat_map nth_error]. now rewrite <- app_assoc. }
      split; [intros H; cbn [List.length]; now rewrite (Hret H) | exact Hcut].
    + inversion Hrun; subst. exists evs1, 0%nat.
      split; [exact Htr1|]. split; [exact Hm1|]. split; [discriminate|].
      intros _. exists job. split; [reflexivity | now apply Hp1].
    + inversion Hrun; subst. exists evs1, 0%nat.
      split; [exact Htr1|]. split; [exact Hm1|]. split; [discriminate|].
      intros _. exists job. split; [reflexivity | now apply Hp1].
    + inversion Hrun; subst. exists evs1, 0%nat.
      split; [exact Htr1|]. split; [exact Hm1|]. split; [discriminate|].
      intros _. exists job. split; [reflexivity | now apply Hp1].
    + inversion Hrun; subst. exists evs1, 0%nat.
      split; [exact Htr1|]. split; [exact Hm1|]. split; [discriminate|].
      intros _. exists job. split; [reflexivity | now apply Hp1].
Qed.

(** The whole command: the marks of its events, the releases they hold
    and the way it ends. *)
Lemma release_marks fuel w o w' :
  release env fuel w = (o, w') ->
  exists evs n,
    trace w' = trace w ++ evs
    /\ filter is_scan_mark evs = scan_marks (owned_jobs w) n (returned o)
    /\ released evs = firstn n (map cluster_id (owned_jobs w))
    /\ job_outcome env o
    /\ (returned o = true -> n = List.length (owned_jobs w))
    /\ (returned o = false ->
        (n < List.length (owned_jobs w))%nat
        /\ exists job, nth_error (owned_jobs w) n = Some job
                       /\ manual_endpoints_of job <> []).
Proof.
  intros Hrun.
  destruct (release_run env fuel w o w' Hrun) as (evs0 & _ & Htr0 & _ & _ & _ & Ho & _).
  unfold release, get_globus_jobs in Hrun. unfold bind at 1 in Hrun.
  destruct (release_loop_marks fuel _ _ _ _ Hrun) as (evs & n & Htr & Hm & Hret & Hcut).
  exists evs, n. split; [exact Htr|]. split; [exact Hm|].
  split; [rewrite <- released_marks, Hm; apply released_scan_marks|].
  split; [exact Ho|]. split; [exact Hret|].
  intros Hnot. destruct (Hcut Hnot) as (job & Hnth & Hpending).
  split; [|now exists job].
  apply nth_error_Some. unfold owned_jobs. rewrite Hnth. discriminate.
Qed.

End ScanOrder.

(** C3 (amended): the release command works through every job record
    owned by this tool, in the order of the listing, held or not: the hold
    flag is not consulted.  It turns to a job, resolves it and, unless the
    resolution ends the command, releases it before it turns to the next
    one; so each job whose resolution does not end the command is
    released, and a run that comes back has released every owned job.  A
    run that does not come back ended while resolving a job that records
    endpoints, with the jobs before it released and nothing done for the
    jobs after it.  The release does not depend on the endpoints being
    resolved: without a terminal (credential found, lookups answered) no
    endpoint is activated and every owned job is released all the same. *)
Theorem release_covers_owned_jobs env fuel w :
  (forall o w',
      release env fuel w = (o, w') ->
      exists evs n,
        trace w' = trace w ++ evs
        /\ filter is_scan_mark evs = scan_marks (owned_jobs w) n (returned o)
        /\ released evs = firstn n (map cluster_id (owned_jobs w))
        /\ (returned o = true ->
            n = List.length (owned_jobs w)
            /\ released evs = map cluster_id (owned_jobs w))
        /\ (returned o = false ->
            (n < List.length (owned_jobs w))%nat
            /\ exists job, nth_error (owned_jobs w) n = Some job
                           /\ manual_endpoints_of job <> []))
  /\ (is_interactive env = false ->
      refresh_token env <> None ->
      (forall t e, endpoint_info env t e <> None) ->
      exists w' evs,
        release env fuel w = (Ret tt, w')
        /\ trace w' = trace w ++ evs
        /\ filter is_scan_mark evs = flat_map job_marks (owned_jobs w)
        /\ released evs = map cluster_id (owned_jobs w)).
Proof.
  split.
  - intros o w' Hrun.
    destruct (release_marks env fuel w o w' Hrun)
      as (evs & n & Htr & Hm & Hrel & _ & Hret & Hcut).
    exists evs, n. split; [exact Htr|]. split; [exact Hm|]. split; [exact Hrel|].
    split; [|exact Hcut].
    intros H. split; [now apply Hret|].
    rewrite Hrel, (Hret H), <- (length_map cluster_id). apply firstn_all.
  - intros Hbatch Htok Hlookups.
    destruct (release env fuel w) as [o w'] eqn:Hrun.
    destruct (release_marks env fuel w o w' Hrun)
      as (evs & n & Htr & Hm & Hrel & Ho & Hret & _).
    destruct o as [[]|code msg|exn| |]; cbn in Ho; try contradiction; try congruence.
    + exists w', evs. split; [reflexivity|]. split; [exact Htr|].
      rewrite Hrel, Hm, (Hret eq_refl). unfold scan_marks. cbn [returned].
      rewrite app_nil_r, firstn_all, <- (length_map cluster_id), firstn_all.
      now split.
    + destruct Ho as [[_ Hnone] | (_ & e & t & Hnone)];
        [contradiction | now destruct (Hlookups t e)].
Qed.

Lemma release_covers_owned_jobs_witness :
  exists w' evs,
    release Sample.batch 0 SampleQueue.two_waiting = (Ret tt, w')
    /\ trace w' = trace SampleQueue.two_waiting ++ evs
    /\ filter is_scan_mark evs = flat_map job_marks (owned_jobs SampleQueue.two_waiting)
    /\ released evs = map cluster_id (owned_jobs SampleQueue.two_waiting).
Proof.
  apply (proj2 (release_covers_owned_jobs Sample.batch 0 SampleQueue.two_waiting)).
  - reflexivity.
  - discriminate.
  - intros t e. discriminate.
Defined.

(** C3, as stated, fails: a job of this tool that is not held is worked on
    and released like any other. *)
Lemma release_handles_job_not_held :
  exists w',
    release Sample.batch 0 SampleQueue.one_running = (Ret tt, w')
    /\ map is_held (owned_jobs SampleQueue.one_running) = [false]
    /\ released (trace w') = [9]
    /\ map cluster_id (filter is_held (owned_jobs SampleQueue.one_running)) = [].
Proof. eexists. split; [vm_compute; reflexivity | repeat split]. Qed.




(** C7 (amended): when the release command runs with a terminal, every
    attribute it writes is a reset to the undefined sentinel of an
    [ENDPOINT_ACTIVATION_REQUIRED_<index>] attribute of an owned job whose
    endpoint a status query has reported ACTIVE; the attributes it does not
    reset are left as they were on every job record. *)
Theorem release_resets_only_active_endpoints env fuel w o w' :
  is_interactive env = true ->
  release env fuel w = (o, w') ->
  exists evs,
    trace w' = trace w ++ evs
    /\ (forall sc key v,
           In (EvSetJobAttr sc key v) evs ->
           v = AdUndefined
           /\ exists job e,
               In job (owned_jobs w) /\ sc = Some (cluster_id job)
               /\ In (key, AdString e) (attrs job)
               /\ Py.startswith ENDPOINT_ACTIVATION_REQUIRED key = true
               /\ seen_active e evs = true)
    /\ framed evs (queue w) (queue w').
Proof.
  intros Hterm Hrun.
  destruct (release_run env fuel w o w' Hrun)
    as (evs & n & Htr & _ & _ & Hfr & _ & Hres).
  exists evs. split; [exact Htr|]. split; [|exact Hfr].
  intros sc key v Hin.
  destruct (Hres Hterm sc key v Hin) as (Hv & job & e & Hjob & Hsc & He & Hseen).
  split; [exact Hv|]. exists job, e.
  destruct (manual_endpoints_of_in job e key He) as [Hattr Hprefix].
  now repeat split.
Qed.

Lemma release_resets_only_active_endpoints_witness :
  exists evs,
    trace (snd (release SampleQueue.attended 5 SampleQueue.one_waiting))
    = trace SampleQueue.one_waiting ++ evs
    /\ (forall sc key v,
           In (EvSetJobAttr sc key v) evs ->
           v = AdUndefined
           /\ exists job e,
               In job (owned_jobs SampleQueue.one_waiting)
               /\ sc = Some (cluster_id job)
               /\ In (key, AdString e) (attrs job)
               /\ Py.startswith ENDPOINT_ACTIVATION_REQUIRED key = true
               /\ seen_active e evs = true)
    /\ framed evs (queue SampleQueue.one_waiting)
              (queue (snd (release SampleQueue.attended 5 SampleQueue.one_waiting))).
Proof.
  apply (release_resets_only_active_endpoints
           SampleQueue.attended 5 SampleQueue.one_waiting
           (fst (release SampleQueue.attended 5 SampleQueue.one_waiting))).
  - reflexivity.
  - reflexivity.
Defined.

(** An attended run: the attribute is reset after the endpoint was seen
    ACTIVE, and the job is released. *)
Example attended_release_resets_after_activation :
  exists w',
    release SampleQueue.attended 5 SampleQueue.one_waiting = (Ret tt, w')
    /\ seen_active "campus" (trace w') = true
    /\ attr_of_queue w'
       = [[("JobBatchName", AdString "globus transfer");
           ("ENDPOINT_ACTIVATION_REQUIRED_0", AdUndefined)]]
    /\ released (trace w') = [7].
Proof. eexists. split; [vm_compute; reflexivity | repeat split]. Qed.

(** C7, as stated, fails: without a terminal the endpoint is never
    reported ACTIVE, and its attribute is reset to the undefined sentinel
    all the same. *)
Lemma release_resets_inactive_endpoint :
  exists w',
    release Sample.batch 0 SampleQueue.one_waiting = (Ret tt, w')
    /\ attr_of_queue SampleQueue.one_waiting
       = [[("JobBatchName", AdString "globus transfer");
           ("ENDPOINT_ACTIVATION_REQUIRED_0", AdString "campus")]]
    /\ seen_active "campus" (trace w') = false
    /\ In (EvSetJobAttr (Some 7) "ENDPOINT_ACTIVATION_REQUIRED_0" AdUndefined)
          (trace w')
    /\ attr_of_queue w'
       = [[("JobBatchName", AdString "globus transfer");
           ("ENDPOINT_ACTIVATION_REQUIRED_0", AdUndefined)]].
Proof.
  eexists. split; [vm_compute; reflexivity|]. split; [reflexivity|].
  split; [reflexivity|]. split; [|reflexivity].
  cbn. tauto.
Qed.

(* ================================================================== *)
(** * Further properties of the commands *)

(** ** Waiting *)

Section WaitRuns.

Variable env : Env.
Variable task_id : string.
Variable max_attempts : Z.

(** The loop returns at the first poll that finds the task done. *)
Lemma wait_loop_done_at :
  forall k fuel attempts errored w,
    (k < attempts_left max_attempts attempts)%nat ->
    (k < fuel)%nat ->
    task_wait env (clock w + k) = PollReturn true ->
    (forall j, (j < k)%nat -> task_wait env (clock w + j) <> PollReturn true) ->
    exists w',
      wait_loop env fuel task_id max_attempts attempts false errored w = (Ret true, w')
      /\ count_events is_poll (trace w')
         = (count_events is_poll (trace w) + S k)%nat.
Proof.
  induction k as [|k IH]; intros fuel attempts errored w Hleft Hfuel Hdone Hbefore;
    (destruct fuel as [|fuel]; [lia|]);
    cbn [wait_loop]; unfold bind at 1; unfold tc_task_wait at 1.
  - rewrite Nat.add_0_r in Hdone. rewrite Hdone. unfold bind, ret. cbn [fst snd].
    eexists. split; [reflexivity|].
    cbn [trace answered]. rewrite count_events_app. reflexivity.
  - assert (Hmore : attempts + 1 < max_attempts).
    { unfold attempts_left in Hleft. lia. }
    assert (H0 : task_wait env (clock w) <> PollReturn true).
    { rewrite <- (Nat.add_0_r (clock w)). apply Hbefore. lia. }
    rewrite (attempts_left_step max_attempts attempts Hmore) in Hleft.
    destruct (task_wait env (clock w)) as [[|]|message] eqn:E; [congruence| |].
    + unfold bind at 1. unfold ret at 1. cbn [fst snd].
      destruct (Z.geb_spec (attempts + 1) max_attempts) as [Hge|_]; [lia|].
      destruct (IH fuel (attempts + 1) errored
                   (answered (EvTaskWait task_id (PollReturn false)) w))
        as (w' & Hrun & Hcount).
      * lia.
      * lia.
      * cbn [clock answered]. now rewrite Nat.add_succ_comm.
      * intros j Hj. cbn [clock answered]. rewrite Nat.add_succ_comm.
        apply Hbefore. lia.
      * exists w'. split; [exact Hrun|]. rewrite Hcount.
        cbn [trace answered]. rewrite count_events_app. cbn. lia.
    + unfold bind at 1. unfold bind at 1. unfold warning at 1.
      unfold ret at 1. cbn [fst snd].
      destruct (Z.geb_spec (attempts + 1) max_attempts) as [Hge|_]; [lia|].
      destruct (IH fuel (attempts + 1) true
                   (emit (EvWarning ("Could not wait for task " +++ task_id
                                     +++ " due to error: " +++ message))
                         (answered (EvTaskWait task_id (PollTransferAPIError message)) w)))
        as (w' & Hrun & Hcount).
      * lia.
      * lia.
      * cbn [clock answered emit]. now rewrite Nat.add_succ_comm.
      * intros j Hj. cbn [clock answered emit]. rewrite Nat.add_succ_comm.
        apply Hbefore. lia.
      * exists w'. split; [exact Hrun|]. rewrite Hcount.
        cbn [trace answered emit]. rewrite !count_events_app. cbn. lia.
Qed.

(** Whatever the loop does, it only polls and warns, leaves the job
    records alone and ends in one of its own ways. *)
Lemma wait_loop_run :
  forall fuel attempts errored w o w',
    wait_loop env fuel task_id max_attempts attempts false errored w = (o, w') ->
    exists evs,
      trace w' = trace w ++ evs
      /\ forallb is_wait_event evs = true
      /\ current_ad w' = current_ad w /\ queue w' = queue w
      /\ match o with
         | Ret done => done = true
         | Exit code _ => code = WAIT_TASK_TIMEOUT \/ code = WAIT_TASK_ERROR
         | OutOfFuel => True
         | _ => False
         end.
Proof.
  induction fuel as [|fuel IH]; intros attempts errored w o w' Hrun.
  - inversion Hrun; subst. exists []. rewrite app_nil_r. now repeat split.
  - cbn [wait_loop] in Hrun. unfold bind at 1 in Hrun.
    unfold tc_task_wait at 1 in Hrun.
    destruct (task_wait env (clock w)) as [[|]|message] eqn:E.
    + unfold bind, ret in Hrun. cbn [fst snd] in Hrun. inversion Hrun; subst.
      exists [EvTaskWait task_id (PollReturn true)]. now repeat split.
    + unfold bind at 1 in Hrun. unfold ret at 1 in Hrun. cbn [fst snd] in Hrun.
      destruct (attempts + 1 >=? max_attempts).
      * unfold error in Hrun. inversion Hrun; subst.
        exists [EvTaskWait task_id (PollReturn false)].
        split; [reflexivity|]. split; [reflexivity|]. split; [reflexivity|].
        split; [reflexivity|]. destruct errored; auto.
      * destruct (IH _ _ _ _ _ Hrun) as (evs & Htr & Hev & Had & Hq & Ho).
        exists (EvTaskWait task_id (PollReturn false) :: evs).
        split; [rewrite Htr; cbn [trace answered]; now rewrite <- app_assoc|].
        now repeat split.
    + unfold bind at 1 in Hrun. unfold bind at 1 in Hrun. unfold warning at 1 in Hrun.
      unfold ret at 1 in Hrun. cbn [fst snd] in Hrun.
      destruct (attempts + 1 >=? max_attempts).
      * unfold error in Hrun. inversion Hrun; subst.
        eexists [EvTaskWait task_id (PollTransferAPIError message); EvWarning _].
        split; [cbn [trace answered emit]; now rewrite <- app_assoc|].
        split; [reflexivity|]. split; [reflexivity|]. split; [reflexivity|]. auto.
      * destruct (IH _ _ _ _ _ Hrun) as (evs & Htr & Hev & Had & Hq & Ho).
        eexists (EvTaskWait task_id (PollTransferAPIError message) :: EvWarning _ :: evs).
        split; [rewrite Htr; cbn [trace answered emit]; now rewrite <- !app_assoc|].
        now repeat split.
Qed.

(** The loop comes back right after the first poll that finds the task
    done, and in no other way. *)
Lemma wait_loop_done_poll :
  forall fuel attempts errored w o w',
    wait_loop env fuel task_id max_attempts attempts false errored w = (o, w') ->
    exists evs,
      trace w' = trace w ++ evs
      /\ match o with
         | Ret _ =>
             exists before,
               evs = before ++ [EvTaskWait task_id (PollReturn true)]
               /\ existsb is_done_poll before = false
         | _ => existsb is_done_poll evs = false
         end.
Proof.
  induction fuel as [|fuel IH]; intros attempts errored w o w' Hrun.
  - inversion Hrun; subst. exists []. now rewrite app_nil_r.
  - cbn [wait_loop] in Hrun. unfold bind at 1 in Hrun.
    unfold tc_task_wait at 1 in Hrun.
    destruct (task_wait env (clock w)) as [[|]|message] eqn:E.
    + unfold bind, ret in Hrun. cbn [fst snd] in Hrun. inversion Hrun; subst.
      exists [EvTaskWait task_id (PollReturn true)]. split; [reflexivity|].
      now exists [].
    + unfold bind at 1 in Hrun. unfold ret at 1 in Hrun. cbn [fst snd] in Hrun.
      destruct (attempts + 1 >=? max_attempts).
      * unfold error in Hrun. inversion Hrun; subst.
        exists [EvTaskWait task_id (PollReturn false)]. now split.
      * destruct (IH _ _ _ _ _ Hrun) as (evs & Htr & Ho).
        exists (EvTaskWait task_id (PollReturn false) :: evs).
        split; [rewrite Htr; cbn [trace answered]; now rewrite <- app_assoc|].
        destruct o as [d|code msg|exn| |]; try exact Ho.
        destruct Ho as (before & -> & Hnone).
        now exists (EvTaskWait task_id (PollReturn false) :: before).
    + unfold bind at 1 in Hrun. unfold bind at 1 in Hrun. unfold warning at 1 in Hrun.
      unfold ret at 1 in Hrun. cbn [fst snd] in Hrun.
      destruct (attempts + 1 >=? max_attempts).
      * unfold error in Hrun. inversion Hrun; subst.
        eexists [EvTaskWait task_id (PollTransferAPIError message); EvWarning _].
        split; [cbn [trace answered emit]; now rewrite <- app_assoc | reflexivity].
      * destruct (IH _ _ _ _ _ Hrun) as (evs & Htr & Ho).
        eexists (EvTaskWait task_id (PollTransferAPIError message) :: EvWarning _ :: evs).
        split; [rewrite Htr; cbn [trace answered emit]; now rewrite <- !app_assoc|].
        destruct o as [d|code msg|exn| |]; try exact Ho.
        destruct Ho as (before & -> & Hnone).
        now eexists (EvTaskWait task_id (PollTransferAPIError message)
                       :: EvWarning _ :: before).
Qed.

End WaitRuns.

Lemma wait_events_no_out evs :
  forallb is_wait_event evs = true -> forall msg, ~ In (EvOut msg) evs.
Proof.
  intros H msg Hin. rewrite forallb_forall in H. apply H in Hin. discriminate.
Qed.

(** X1: the wait loop returns success at the first poll that finds the
    task done, after exactly that many polls, provided the poll falls
    within the attempt budget; polls that raised before it do not matter. *)
Theorem wait_returns_at_first_done env fuel task_id timeout interval max_attempts w k :
  (k < Z.to_nat (Z.max max_attempts 1))%nat ->
  (k < fuel)%nat ->
  task_wait env (clock w + k) = PollReturn true ->
  (forall j, (j < k)%nat -> task_wait env (clock w + j) <> PollReturn true) ->
  exists w',
    wait_for_task_or_exit env fuel task_id timeout interval max_attempts w
    = (Ret true, w')
    /\ count_events is_poll (trace w')
       = (count_events is_poll (trace w) + S k)%nat.
Proof.
  intros Hk Hfuel Hdone Hbefore. unfold wait_for_task_or_exit.
  apply wait_loop_done_at; try assumption.
  unfold attempts_left. now rewrite Z.sub_0_r.
Qed.

Lemma wait_returns_at_first_done_witness :
  exists w',
    wait_for_task_or_exit SampleWait.third_time 3 "task" 60 10 3 Sample.empty_world
    = (Ret true, w')
    /\ count_events is_poll (trace w') = 3%nat.
Proof.
  apply (wait_returns_at_first_done SampleWait.third_time 3 "task" 60 10 3
           Sample.empty_world 2).
  - vm_compute. lia.
  - lia.
  - reflexivity.
  - intros j Hj. destruct j as [|[|j]]; cbn; try discriminate. lia.
Defined.

(** X2: the wait command prints the task id exactly when the wait
    succeeded, as its last action: a run that comes back has polled at
    least once, its last poll is the first one that found the task done,
    and the task id is printed right after it.  A run that ends any other
    way (missing credential, timeout, transport errors) has seen no poll
    report the task done and prints nothing on standard output.  No run
    touches a job record. *)
Theorem wait_command_prints_on_success env fuel task_id timeout interval attempts w o w' :
  wait env fuel task_id timeout interval attempts w = (o, w') ->
  exists evs,
    trace w' = trace w ++ evs
    /\ current_ad w' = current_ad w /\ queue w' = queue w
    /\ (returned o = true ->
        exists polls,
          evs = polls ++ [EvTaskWait task_id (PollReturn true); EvOut task_id]
          /\ forallb is_wait_event polls = true
          /\ existsb is_done_poll polls = false)
    /\ (returned o = false ->
        (forall msg, ~ In (EvOut msg) evs)
        /\ existsb is_done_poll evs = false).
Proof.
  intros Hrun. unfold wait, get_transfer_client_or_exit in Hrun.
  destruct (refresh_token env).
  - unfold bind at 1 in Hrun. unfold ret at 1 in Hrun.
    unfold bind at 1 in Hrun. unfold wait_for_task_or_exit in Hrun.
    destruct (wait_loop env fuel task_id attempts 0 false false w) as [o1 w1] eqn:E1.
    destruct (wait_loop_run env task_id attempts fuel 0 false w o1 w1 E1)
      as (evs & Htr & Hev & Had & Hq & Ho).
    destruct (wait_loop_done_poll env task_id attempts fuel 0 false w o1 w1 E1)
      as (evs' & Htr' & Hdone).
    assert (evs' = evs) by (apply (app_inv_head (trace w)); congruence). subst evs'.
    destruct o1 as [done|code msg|exn| |]; try contradiction.
    + unfold secho in Hrun. inversion Hrun; subst.
      destruct Hdone as (before & -> & Hnone).
      exists ((before ++ [EvTaskWait task_id (PollReturn true)]) ++ [EvOut task_id]).
      split; [cbn [trace emit]; rewrite Htr; now rewrite <- !app_assoc|].
      split; [exact Had|]. split; [exact Hq|].
      split; [|discriminate]. intros _. exists before.
      split; [now rewrite <- app_assoc|]. split; [|exact Hnone].
      rewrite forallb_app in Hev. now apply andb_prop in Hev as [Hev _].
    + inversion Hrun; subst. exists evs.
      split; [exact Htr|]. split; [exact Had|]. split; [exact Hq|].
      split; [discriminate|]. intros _. split; [now apply wait_events_no_out | exact Hdone].
    + inversion Hrun; subst. exists evs.
      split; [exact Htr|]. split; [exact Had|]. split; [exact Hq|].
      split; [discriminate|]. intros _. split; [now apply wait_events_no_out | exact Hdone].
  - unfold bind, error in Hrun. inversion Hrun; subst. exists [].
    rewrite app_nil_r. split; [reflexivity|]. split; [reflexivity|].
    split; [reflexivity|]. split; [discriminate|].
    intros _. split; [intros msg [] | reflexivity].
Qed.

Lemma wait_command_prints_on_success_witness :
  exists evs,
    trace (snd (wait SampleWait.third_time 3 "task" 60 10 3 Sample.empty_world))
    = trace Sample.empty_world ++ evs
    /\ current_ad (snd (wait SampleWait.third_time 3 "task" 60 10 3 Sample.empty_world))
       = current_ad Sample.empty_world
    /\ queue (snd (wait SampleWait.third_time 3 "task" 60 10 3 Sample.empty_world))
       = queue Sample.empty_world
    /\ (returned (fst (wait SampleWait.third_time 3 "task" 60 10 3 Sample.empty_world))
        = true ->
        exists polls,
          evs = polls ++ [EvTaskWait "task" (PollReturn true); EvOut "task"]
          /\ forallb is_wait_event polls = true
          /\ existsb is_done_poll polls = false)
    /\ (returned (fst (wait SampleWait.third_time 3 "task" 60 10 3 Sample.empty_world))
        = false ->
        (forall msg, ~ In (EvOut msg) evs)
        /\ existsb is_done_poll evs = false).
Proof.
  apply (wait_command_prints_on_success SampleWait.third_time 3 "task" 60 10 3
           Sample.empty_world).
  vm_compute. reflexivity.
Defined.

(** ** The transfer command *)

Lemma filter_none {A} (p : A -> bool) l :
  (forall x, In x l -> p x = false) -> filter p l = [].
Proof.
  induction l as [|x l IH]; intros H; [reflexivity|].
  cbn. rewrite (H x (or_introl eq_refl)). apply IH. intros y Hy. apply H. now right.
Qed.

Lemma filter_none_count (p : Event -> bool) evs :
  filter p evs = [] -> count_events p evs = 0%nat.
Proof. unfold count_events. now intros ->. Qed.

(** Activation never touches the task interface: a predicate that is
    false on every event activation can produce selects nothing new. *)
Section ActivationKinds.

Variable env : Env.
Variable p : Event -> bool.
Hypothesis p_lookup : forall e r, p (EvEndpointInfo e r) = false.
Hypothesis p_auto : forall e c, p (EvAutoactivate e c) = false.
Hypothesis p_confirm : forall a, p (EvConfirm a) = false.
Hypothesis p_out : forall m, p (EvOut m) = false.
Hypothesis p_attr : forall k v, p (EvSetJobAttr None k v) = false.

Lemma wait_until_active_kinds endpoint msg :
  forall fuel w o w',
    wait_until_active env fuel endpoint msg w = (o, w') ->
    filter p (trace w') = filter p (trace w).
Proof.
  induction fuel as [|fuel IH]; intros w o w' Hrun.
  - now inversion Hrun.
  - cbn [wait_until_active] in Hrun. unfold bind at 1 in Hrun.
    unfold get_or_exit at 1 in Hrun.
    destruct (endpoint_info env (clock w) endpoint) as [info|].
    + destruct (is_active info).
      * inversion Hrun; subst. cbn [trace answered].
        rewrite filter_app. cbn. rewrite p_lookup. apply app_nil_r.
      * unfold bind at 1 in Hrun. unfold secho at 1 in Hrun.
        unfold bind at 1 in Hrun. unfold click_confirm at 1 in Hrun.
        cbn [clock emit answered] in Hrun.
        destruct (confirm env (S (clock w))).
        -- apply IH in Hrun. rewrite Hrun. cbn [trace emit answered].
           rewrite !filter_app. cbn. rewrite p_lookup, p_out, p_confirm.
           now rewrite !app_nil_r.
        -- inversion Hrun; subst. cbn [trace emit answered].
           rewrite !filter_app. cbn. rewrite p_lookup, p_out, p_confirm.
           now rewrite !app_nil_r.
    + inversion Hrun; subst. cbn [trace answered].
      rewrite filter_app. cbn. rewrite p_lookup. apply app_nil_r.
Qed.

Lemma manual_loop_kinds endpoints :
  forall fuel idx unactivated w o w',
    manual_loop env fuel idx endpoints unactivated w = (o, w') ->
    filter p (trace w') = filter p (trace w).
Proof.
  induction endpoints as [|e rest IH]; intros fuel idx unactivated w o w' Hrun.
  - now inversion Hrun.
  - cbn [manual_loop] in Hrun. unfold bind at 1 in Hrun.
    unfold get_or_exit at 1 in Hrun.
    destruct (endpoint_info env (clock w) e) as [info|].
    + assert (H1 : filter p (trace (answered (EvEndpointInfo e (Some info)) w))
                   = filter p (trace w)).
      { cbn [trace answered]. rewrite filter_app. cbn. rewrite p_lookup.
        apply app_nil_r. }
      destruct (is_interactive env).
      * unfold bind at 1 in Hrun.
        match type of Hrun with
          match wait_until_active _ _ _ ?m ?w1 with _ => _ end = _ =>
          destruct (wait_until_active env fuel e m w1) as [o1 w1'] eqn:Ewait
        end.
        apply wait_until_active_kinds in Ewait.
        destruct o1; try (inversion Hrun; subst; congruence).
        apply IH in Hrun. congruence.
      * unfold bind at 1 in Hrun. unfold set_job_attr at 1 in Hrun.
        apply IH in Hrun. rewrite Hrun. cbn [trace emit answered].
        rewrite !filter_app. cbn. rewrite p_lookup, p_attr. now rewrite !app_nil_r.
    + inversion Hrun; subst. cbn [trace answered].
      rewrite filter_app. cbn. rewrite p_lookup. apply app_nil_r.
Qed.

Lemma lookups_kinds evs : forallb is_lookup evs = true -> filter p evs = [].
Proof.
  intros H. apply filter_none. intros ev Hin.
  rewrite forallb_forall in H. apply H in Hin. destruct ev; try discriminate.
  apply p_lookup.
Qed.

Lemma auto_events_kinds endpoints codes : filter p (auto_events endpoints codes) = [].
Proof.
  apply filter_none. intros ev Hin. unfold auto_events in Hin.
  apply in_map_iff in Hin as (x & <- & _). apply p_auto.
Qed.

Lemma activate_endpoints_or_exit_kinds fuel endpoints w o w' :
  activate_endpoints_or_exit env fuel endpoints w = (o, w') ->
  filter p (trace w') = filter p (trace w).
Proof.
  intros Hrun. unfold activate_endpoints_or_exit in Hrun.
  unfold bind at 1 in Hrun.
  destruct (inactive_endpoints env endpoints w) as [o1 w1] eqn:E1.
  destruct (inactive_endpoints_run env endpoints w o1 w1 E1)
    as (evs1 & Htr1 & Hlook1 & _).
  assert (H1 : filter p (trace w1) = filter p (trace w)).
  { rewrite Htr1, filter_app, (lookups_kinds evs1 Hlook1). apply app_nil_r. }
  destruct o1 as [u1|code1 msg1|exn1| |]; try (inversion Hrun; subst; exact H1).
  unfold bind at 1 in Hrun. unfold activate_endpoints_automatically in Hrun.
  destruct (auto_loop_run env u1 [] w1) as (w2 & E2 & Htr2 & _).
  rewrite E2 in Hrun. cbn [app] in Hrun.
  assert (H2 : filter p (trace w2) = filter p (trace w)).
  { rewrite Htr2, filter_app, auto_events_kinds, app_nil_r. exact H1. }
  unfold bind at 1 in Hrun. unfold activate_endpoints_manually in Hrun.
  destruct (manual_loop env fuel 0 (auto_rejected env (clock w1) u1) [] w2)
    as [o3 w3] eqn:E3.
  assert (H3 : filter p (trace w3) = filter p (trace w)).
  { rewrite (manual_loop_kinds _ _ _ _ _ _ _ E3). exact H2. }
  destruct o3 as [u3|code3 msg3|exn3| |]; try (inversion Hrun; subst; exact H3).
  unfold bind, ret, error in Hrun.
  destruct (0 <? List.length u3)%nat; [inversion Hrun; subst; exact H3|].
  destruct (log_expirations env endpoints w3) as [o4 w4] eqn:E4.
  destruct (log_expirations_run env endpoints w3 o4 w4 E4) as (evs4 & Htr4 & Hlook4 & _).
  assert (H4 : filter p (trace w4) = filter p (trace w)).
  { rewrite Htr4, filter_app, (lookups_kinds evs4 Hlook4), app_nil_r. exact H3. }
  destruct o4; inversion Hrun; subst; exact H4.
Qed.

End ActivationKinds.

Section TransferRuns.

Variable env : Env.

Lemma add_transfers_pure transfers :
  forall tdata w, exists o, add_transfers transfers tdata w = (o, w).
Proof.
  induction transfers as [|t rest IH]; intros tdata w.
  - eexists. reflexivity.
  - cbn [add_transfers]. unfold bind at 1.
    destruct (add_transfer_pure t tdata w) as [o ->].
    destruct o; try (eexists; reflexivity). apply IH.
Qed.

Lemma add_transfers_exit_code transfers :
  forall tdata w code msg w',
    add_transfers transfers tdata w = (Exit code msg, w') ->
    code = INVALID_TRANSFER_SPECIFICATION_ERROR.
Proof.
  induction transfers as [|t rest IH]; intros tdata w code msg w' Hrun.
  - discriminate.
  - cbn [add_transfers] in Hrun. unfold bind at 1 in Hrun.
    destruct (add_transfer t tdata w) as [o1 w1] eqn:E1.
    destruct o1; try discriminate.
    + now apply IH in Hrun.
    + inversion Hrun; subst. unfold add_transfer in E1.
      destruct (Py.split ":" t) as [|src [|dst [|c l]]]; try discriminate.
      destruct (Py.last_char src), (Py.last_char dst); try discriminate.
      destruct (_ && _); [discriminate|].
      destruct (_ || _); [|discriminate]. now inversion E1.
Qed.

(** The loop keeps the order of the specifications and touches no other
    field. *)
Lemma add_transfers_items pairs :
  forallb pairable pairs = true ->
  forall tdata w,
    add_transfers (map (fun sd => spec_of (fst sd) (snd sd)) pairs) tdata w
    = (Ret {| source_endpoint := source_endpoint tdata;
              destination_endpoint := destination_endpoint tdata;
              label := label tdata;
              sync_level := sync_level tdata;
              preserve_timestamp := preserve_timestamp tdata;
              verify_checksum := verify_checksum tdata;
              items := items tdata ++ map item_of pairs |}, w).
Proof.
  induction pairs as [|[src dst] rest IH]; intros Hall tdata w.
  - cbn. rewrite app_nil_r. now destruct tdata.
  - cbn [forallb] in Hall. apply andb_prop in Hall as [Hsd Hrest].
    unfold pairable in Hsd. cbn [fst snd] in Hsd.
    apply andb_prop in Hsd as [Hsd Hsame]. apply andb_prop in Hsd as [Hsd Hdne].
    apply andb_prop in Hsd as [Hsd Hsne]. apply andb_prop in Hsd as [Hs Hd].
    apply negb_true_iff in Hsne, Hdne.
    apply String.eqb_neq in Hsne, Hdne. apply Bool.eqb_prop in Hsame.
    cbn [map add_transfers fst snd]. unfold bind at 1.
    rewrite add_transfer_paired by assumption.
    rewrite (IH Hrest). unfold add_item. cbn.
    now rewrite <- app_assoc.
Qed.

Variables (fuel : nat) (source destination : string) (transfers : list string)
          (lbl : option string) (level : string)
          (preserve_timestamps verify_checksums wait : bool)
          (timeout interval attempts : Z).

(** The transfer command, phase by phase. *)
Lemma transfer_run w o w' :
  transfer env fuel source destination transfers lbl level
           preserve_timestamps verify_checksums wait timeout interval attempts w
  = (o, w') ->
  exists evs,
    trace w' = trace w ++ evs
    /\ ((returned o = false
         /\ filter is_task_event evs = []
         /\ (refresh_token env = None -> w' = w)
         /\ (forall code msg, o = Exit code msg ->
                              code <> WAIT_TASK_TIMEOUT /\ code <> WAIT_TASK_ERROR))
        \/ exists tdata task_id act after,
            evs = act ++ EvSubmitTransfer tdata task_id :: after
            /\ refresh_token env <> None
            /\ add_transfers transfers
                 (new_transfer_data source destination lbl level
                    preserve_timestamps verify_checksums) w = (Ret tdata, w)
            /\ filter is_task_event act = []
            /\ vouched source act = true /\ vouched destination act = true
            /\ ((wait = false /\ after = [EvOut task_id] /\ returned o = true)
                \/ (wait = true
                    /\ exists polls,
                        forallb is_wait_event polls = true
                        /\ ((returned o = true /\ after = polls ++ [EvOut task_id])
                            \/ (returned o = false /\ after = polls
                                /\ match o with
                                   | Exit code _ =>
                                       code = WAIT_TASK_TIMEOUT \/ code = WAIT_TASK_ERROR
                                   | OutOfFuel => True
                                   | _ => False
                                   end))))).
Proof.
  intros Hrun. unfold transfer, get_transfer_client_or_exit in Hrun.
  destruct (refresh_token env) as [token|] eqn:Etok.
  2: { unfold bind, error in Hrun. inversion Hrun; subst. exists [].
       rewrite app_nil_r. split; [reflexivity|]. left.
       split; [reflexivity|]. split; [reflexivity|]. split; [reflexivity|].
       intros code msg H; inversion H; split; discriminate. }
  unfold bind at 1 in Hrun. unfold ret at 1 in Hrun. unfold bind at 1 in Hrun.
  fold (new_transfer_data source destination lbl level
          preserve_timestamps verify_checksums) in Hrun.
  destruct (add_transfers_pure transfers
              (new_transfer_data source destination lbl level
                 preserve_timestamps verify_checksums) w) as [o1 E1].
  rewrite E1 in Hrun.
  destruct o1 as [tdata|code1 msg1|exn1| |];
    try (inversion Hrun; subst; exists []; rewrite app_nil_r;
         split; [reflexivity|]; left;
         split; [reflexivity|]; split; [reflexivity|]; split; [congruence|];
         intros code msg H; inversion H; subst;
         apply add_transfers_exit_code in E1; subst; split; discriminate).
  unfold bind at 1 in Hrun.
  destruct (activate_endpoints_or_exit env fuel [source; destination] w)
    as [o2 w2] eqn:E2.
  destruct (activate_endpoints_or_exit_run env fuel [source; destination] w o2 w2 E2)
    as (act & Htr2 & Hq2 & Ho2).
  assert (Hquiet : filter is_task_event act = []).
  { apply (filter_new_events is_task_event (trace w)). rewrite <- Htr2.
    now apply (activate_endpoints_or_exit_kinds env is_task_event) with (1 := fun _ _ => eq_refl)
      (2 := fun _ _ => eq_refl) (3 := fun _ => eq_refl) (4 := fun _ => eq_refl)
      (5 := fun _ _ => eq_refl) in E2. }
  destruct o2 as [b|code2 msg2|exn2| |];
    try (inversion Hrun; subst; exists act; split; [exact Htr2|]; left;
         split; [reflexivity|]; split; [exact Hquiet|]; split; [congruence|];
         intros code msg H; inversion H; subst;
         destruct Ho2 as [[-> _] | [-> _]]; split; discriminate).
  destruct Ho2 as (-> & Hvouched & _).
  unfold bind at 1 in Hrun. unfold tc_submit_transfer at 1 in Hrun.
  set (task_id := submit_transfer env (clock w2)) in *.
  set (w3 := answered (EvSubmitTransfer tdata task_id) w2) in *.
  assert (Hsrc : vouched source act = true) by (apply Hvouched; now left).
  assert (Hdst : vouched destination act = true) by (apply Hvouched; right; now left).
  unfold bind at 1 in Hrun.
  destruct wait.
  - unfold bind at 1 in Hrun. unfold wait_for_task_or_exit in Hrun.
    destruct (wait_loop env fuel task_id attempts 0 false false w3) as [o4 w4] eqn:E4.
    destruct (wait_loop_run env task_id attempts fuel 0 false w3 o4 w4 E4)
      as (polls & Htr4 & Hev4 & _ & _ & Ho4).
    destruct o4 as [done|code4 msg4|exn4| |]; try contradiction.
    + unfold ret, secho in Hrun. inversion Hrun; subst o w'.
      exists (act ++ EvSubmitTransfer tdata task_id :: polls ++ [EvOut task_id]).
      split.
      { cbn [trace emit]. rewrite Htr4. subst w3. cbn [trace answered].
        rewrite Htr2. rewrite <- !app_assoc. reflexivity. }
      right. exists tdata, task_id, act, (polls ++ [EvOut task_id]).
      split; [reflexivity|]. split; [congruence|]. split; [exact E1|].
      split; [exact Hquiet|]. split; [exact Hsrc|]. split; [exact Hdst|].
      right. split; [reflexivity|]. exists polls. split; [exact Hev4|].
      left. now split.
    + inversion Hrun; subst o w'.
      exists (act ++ EvSubmitTransfer tdata task_id :: polls).
      split.
      { rewrite Htr4. subst w3. cbn [trace answered].
        rewrite Htr2. rewrite <- !app_assoc. reflexivity. }
      right. exists tdata, task_id, act, polls.
      split; [reflexivity|]. split; [congruence|]. split; [exact E1|].
      split; [exact Hquiet|]. split; [exact Hsrc|]. split; [exact Hdst|].
      right. split; [reflexivity|]. exists polls. split; [exact Hev4|].
      right. now repeat split.
    + inversion Hrun; subst o w'.
      exists (act ++ EvSubmitTransfer tdata task_id :: polls).
      split.
      { rewrite Htr4. subst w3. cbn [trace answered].
        rewrite Htr2. rewrite <- !app_assoc. reflexivity. }
      right. exists tdata, task_id, act, polls.
      split; [reflexivity|]. split; [congruence|]. split; [exact E1|].
      split; [exact Hquiet|]. split; [exact Hsrc|]. split; [exact Hdst|].
      right. split; [reflexivity|]. exists polls. split; [exact Hev4|].
      right. now repeat split.
  - unfold ret, secho in Hrun. inversion Hrun; subst o w'.
    exists (act ++ EvSubmitTransfer tdata task_id :: [EvOut task_id]).
    split.
    { cbn [trace emit]. subst w3. cbn [trace answered].
      rewrite Htr2. rewrite <- !app_assoc. reflexivity. }
    right. exists tdata, task_id, act, [EvOut task_id].
    split; [reflexivity|]. split; [congruence|]. split; [exact E1|].
    split; [exact Hquiet|]. split; [exact Hsrc|]. split; [exact Hdst|].
    left. now repeat split.
Qed.

End TransferRuns.

Lemma task_quiet_counts evs :
  filter is_task_event evs = [] ->
  count_events is_submit evs = 0%nat /\ count_events is_poll evs = 0%nat.
Proof.
  intros H. unfold count_events.
  assert (Hall : forall ev, In ev evs -> is_task_event ev = false).
  { intros ev Hin. destruct (is_task_event ev) eqn:E; [|reflexivity].
    assert (Hf : In ev (filter is_task_event evs)) by (apply filter_In; auto).
    rewrite H in Hf. contradiction. }
  split; (rewrite filter_none; [reflexivity|]); intros ev Hin;
    apply Hall in Hin; unfold is_task_event in Hin;
    now apply orb_false_elim in Hin.
Qed.

Lemma wait_events_counts polls :
  forallb is_wait_event polls = true -> count_events is_submit polls = 0%nat.
Proof.
  intros H. unfold count_events. rewrite filter_none; [reflexivity|].
  intros ev Hin. rewrite forallb_forall in H. apply H in Hin. now destruct ev.
Qed.

Lemma count_zero_not_in (p : Event -> bool) evs ev :
  count_events p evs = 0%nat -> p ev = true -> ~ In ev evs.
Proof.
  unfold count_events. intros H Hp Hin.
  assert (Hf : In ev (filter p evs)) by (apply filter_In; auto).
  destruct (filter p evs); [contradiction | discriminate].
Qed.

(** X3: the transfer command submits at most once, and only after the
    credential was found, every specification was parsed and both
    endpoints are vouched for by the events before the submission; what it
    submits is the transfer data the specifications gave.  A run that comes
    back has submitted exactly once. *)
Theorem transfer_submission_guarded
        env fuel source destination transfers lbl level preserve_timestamps
        verify_checksums wait timeout interval attempts w o w' :
  transfer env fuel source destination transfers lbl level
           preserve_timestamps verify_checksums wait timeout interval attempts w
  = (o, w') ->
  exists evs,
    trace w' = trace w ++ evs
    /\ (count_events is_submit evs <= 1)%nat
    /\ (returned o = true -> count_events is_submit evs = 1%nat)
    /\ forall tdata task_id,
        In (EvSubmitTransfer tdata task_id) evs ->
        refresh_token env <> None
        /\ add_transfers transfers
             (new_transfer_data source destination lbl level
                preserve_timestamps verify_checksums) w = (Ret tdata, w)
        /\ exists act after,
            evs = act ++ EvSubmitTransfer tdata task_id :: after
            /\ count_events is_submit act = 0%nat
            /\ vouched source act = true
            /\ vouched destination act = true.
Proof.
  intros Hrun.
  destruct (transfer_run env fuel source destination transfers lbl level
              preserve_timestamps verify_checksums wait timeout interval attempts
              w o w' Hrun)
    as (evs & Htr & [(Hret & Hquiet & _) |
                     (td & tid & act & after & -> & Htok & Hparse & Hquiet & Hs & Hd & Hafter)]).
  - destruct (task_quiet_counts evs Hquiet) as [Hsub _].
    exists evs. split; [exact Htr|]. split; [lia|]. split; [congruence|].
    intros tdata task_id Hin.
    now destruct (count_zero_not_in is_submit evs (EvSubmitTransfer tdata task_id) Hsub eq_refl Hin).
  - destruct (task_quiet_counts act Hquiet) as [Hact _].
    assert (Hcount_after : count_events is_submit after = 0%nat).
    { destruct Hafter as [(_ & -> & _) | (_ & polls & Hev & [(_ & ->) | (_ & -> & _)])].
      - reflexivity.
      - rewrite count_events_app, (wait_events_counts polls Hev). reflexivity.
      - now apply wait_events_counts. }
    assert (Hone : count_events is_submit (act ++ EvSubmitTransfer td tid :: after) = 1%nat).
    { change (EvSubmitTransfer td tid :: after)
        with ([EvSubmitTransfer td tid] ++ after).
      rewrite !count_events_app, Hact, Hcount_after. reflexivity. }
    exists (act ++ EvSubmitTransfer td tid :: after).
    split; [exact Htr|]. split; [lia|]. split; [intros _; exact Hone|].
    intros tdata task_id Hin.
    assert (Heq : EvSubmitTransfer tdata task_id = EvSubmitTransfer td tid).
    { apply in_app_or in Hin as [Hin | [Heq | Hin]].
      - now destruct (count_zero_not_in is_submit act (EvSubmitTransfer tdata task_id) Hact eq_refl Hin).
      - now symmetry.
      - now destruct (count_zero_not_in is_submit after (EvSubmitTransfer tdata task_id) Hcount_after eq_refl Hin). }
    inversion Heq; subst tdata task_id.
    split; [exact Htok|]. split; [exact Hparse|].
    exists act, after. now repeat split.
Qed.

Lemma transfer_submission_guarded_witness :
  exists evs,
    trace (snd (transfer SampleActivation.all_active 1 "src-endpoint" "dst-endpoint"
                  ["/a/:/b/"; "/a:/b"] None "checksum" true true true 60 10 1
                  Sample.empty_world))
    = trace Sample.empty_world ++ evs
    /\ (count_events is_submit evs <= 1)%nat
    /\ (returned (fst (transfer SampleActivation.all_active 1 "src-endpoint"
                         "dst-endpoint" ["/a/:/b/"; "/a:/b"] None "checksum"
                         true true true 60 10 1 Sample.empty_world)) = true ->
        count_events is_submit evs = 1%nat)
    /\ forall tdata task_id,
        In (EvSubmitTransfer tdata task_id) evs ->
        refresh_token SampleActivation.all_active <> None
        /\ add_transfers ["/a/:/b/"; "/a:/b"]
             (new_transfer_data "src-endpoint" "dst-endpoint" None "checksum" true true)
             Sample.empty_world = (Ret tdata, Sample.empty_world)
        /\ exists act after,
            evs = act ++ EvSubmitTransfer tdata task_id :: after
            /\ count_events is_submit act = 0%nat
            /\ vouched "src-endpoint" act = true
            /\ vouched "dst-endpoint" act = true.
Proof.
  apply (transfer_submission_guarded SampleActivation.all_active 1 "src-endpoint"
           "dst-endpoint" ["/a/:/b/"; "/a:/b"] None "checksum" true true true 60 10 1
           Sample.empty_world).
  reflexivity.
Defined.

(** X4: when every specification pairs a non-empty, colon-free source with
    such a destination that agrees on the trailing slash, the transfer data
    submitted carries one item per specification, in the order given, each
    recursive exactly when its paths end with a slash; endpoints, label,
    sync level and flags are the ones passed to the command. *)
Theorem transfer_items_in_order
        env fuel source destination pairs lbl level preserve_timestamps
        verify_checksums wait timeout interval attempts w o w' :
  forallb pairable pairs = true ->
  transfer env fuel source destination
           (map (fun sd => spec_of (fst sd) (snd sd)) pairs) lbl level
           preserve_timestamps verify_checksums wait timeout interval attempts w
  = (o, w') ->
  exists evs,
    trace w' = trace w ++ evs
    /\ (returned o = true -> exists tdata task_id, In (EvSubmitTransfer tdata task_id) evs)
    /\ forall tdata task_id,
        In (EvSubmitTransfer tdata task_id) evs ->
        tdata = {| source_endpoint := source;
                   destination_endpoint := destination;
                   label := lbl;
                   sync_level := level;
                   preserve_timestamp := preserve_timestamps;
                   verify_checksum := verify_checksums;
                   items := map item_of pairs |}.
Proof.
  intros Hpairs Hrun.
  destruct (transfer_run env fuel source destination _ lbl level
              preserve_timestamps verify_checksums wait timeout interval attempts
              w o w' Hrun)
    as (evs & Htr & [(Hret & Hquiet & _) |
                     (td & tid & act & after & -> & Htok & Hparse & Hquiet & Hs & Hd & Hafter)]).
  - destruct (task_quiet_counts evs Hquiet) as [Hsub _].
    exists evs. split; [exact Htr|]. split; [congruence|].
    intros tdata task_id Hin.
    now destruct (count_zero_not_in is_submit evs (EvSubmitTransfer tdata task_id) Hsub eq_refl Hin).
  - destruct (task_quiet_counts act Hquiet) as [Hact _].
    assert (Hcount_after : count_events is_submit after = 0%nat).
    { destruct Hafter as [(_ & -> & _) | (_ & polls & Hev & [(_ & ->) | (_ & -> & _)])].
      - reflexivity.
      - rewrite count_events_app, (wait_events_counts polls Hev). reflexivity.
      - now apply wait_events_counts. }
    exists (act ++ EvSubmitTransfer td tid :: after).
    split; [exact Htr|].
    split; [intros _; exists td, tid; apply in_or_app; right; now left|].
    intros tdata task_id Hin.
    assert (Heq : EvSubmitTransfer tdata task_id = EvSubmitTransfer td tid).
    { apply in_app_or in Hin as [Hin | [Heq | Hin]].
      - now destruct (count_zero_not_in is_submit act (EvSubmitTransfer tdata task_id) Hact eq_refl Hin).
      - now symmetry.
      - now destruct (count_zero_not_in is_submit after (EvSubmitTransfer tdata task_id) Hcount_after eq_refl Hin). }
    inversion Heq; subst tdata task_id.
    rewrite (add_transfers_items pairs Hpairs) in Hparse.
    now inversion Hparse.
Qed.

Lemma transfer_items_in_order_witness :
  exists evs,
    trace (snd (transfer SampleActivation.all_active 1 "src-endpoint" "dst-endpoint"
                  ["/a/:/b/"; "/a:/b"] None "checksum" true true false 60 10 1
                  Sample.empty_world))
    = trace Sample.empty_world ++ evs
    /\ (returned (fst (transfer SampleActivation.all_active 1 "src-endpoint"
                         "dst-endpoint" ["/a/:/b/"; "/a:/b"] None "checksum"
                         true true false 60 10 1 Sample.empty_world)) = true ->
        exists tdata task_id, In (EvSubmitTransfer tdata task_id) evs)
    /\ forall tdata task_id,
        In (EvSubmitTransfer tdata task_id) evs ->
        tdata = {| source_endpoint := "src-endpoint";
                   destination_endpoint := "dst-endpoint";
                   label := None;
                   sync_level := "checksum";
                   preserve_timestamp := true;
                   verify_checksum := true;
                   items := map item_of [("/a/", "/b/"); ("/a", "/b")] |}.
Proof.
  apply (transfer_items_in_order SampleActivation.all_active 1 "src-endpoint"
           "dst-endpoint" [("/a/", "/b/"); ("/a", "/b")] None "checksum" true true
           false 60 10 1 Sample.empty_world).
  - reflexivity.
  - reflexivity.
Defined.

(** X5: the transfer command prints the task id only as the last action
    of a run that comes back, and the id it prints is the one the
    submission returned.  Without [--wait] no poll is made.  With [--wait],
    a run that exits with one of the two wait codes has submitted the
    transfer, has only polled and warned since, and has not printed the
    task id. *)
Theorem transfer_prints_task_id_last
        env fuel source destination transfers lbl level preserve_timestamps
        verify_checksums wait timeout interval attempts w o w' :
  transfer env fuel source destination transfers lbl level
           preserve_timestamps verify_checksums wait timeout interval attempts w
  = (o, w') ->
  exists evs,
    trace w' = trace w ++ evs
    /\ (wait = false -> count_events is_poll evs = 0%nat)
    /\ (returned o = true ->
        exists tdata task_id act polls,
          evs = act ++ EvSubmitTransfer tdata task_id :: polls ++ [EvOut task_id]
          /\ forallb is_wait_event polls = true
          /\ (wait = false -> polls = []))
    /\ (forall code msg,
           o = Exit code msg ->
           code = WAIT_TASK_TIMEOUT \/ code = WAIT_TASK_ERROR ->
           wait = true
           /\ exists tdata task_id act polls,
               evs = act ++ EvSubmitTransfer tdata task_id :: polls
               /\ forallb is_wait_event polls = true).
Proof.
  intros Hrun.
  destruct (transfer_run env fuel source destination transfers lbl level
              preserve_timestamps verify_checksums wait timeout interval attempts
              w o w' Hrun)
    as (evs & Htr & [(Hret & Hquiet & _ & Hcodes) |
                     (td & tid & act & after & -> & Htok & Hparse & Hquiet & Hs & Hd & Hafter)]).
  - destruct (task_quiet_counts evs Hquiet) as [_ Hpoll].
    exists evs. split; [exact Htr|]. split; [intros _; exact Hpoll|].
    split; [congruence|].
    intros code msg Ho Hcode. destruct (Hcodes code msg Ho) as [H1 H2].
    destruct Hcode; contradiction.
  - destruct (task_quiet_counts act Hquiet) as [_ Hpoll].
    exists (act ++ EvSubmitTransfer td tid :: after). split; [exact Htr|].
    destruct Hafter as [(Hw & -> & Hret) | (Hw & polls & Hev & [(Hret & ->) | (Hret & -> & Ho)])].
    + split.
      { intros _. change (EvSubmitTransfer td tid :: [EvOut tid])
          with ([EvSubmitTransfer td tid; EvOut tid]).
        rewrite count_events_app, Hpoll. reflexivity. }
      split.
      { intros _. exists td, tid, act, []. now repeat split. }
      intros code msg -> _. discriminate.
    + split; [congruence|]. split.
      { intros _. exists td, tid, act, polls. repeat split; [exact Hev | congruence]. }
      intros code msg -> _. discriminate.
    + split; [congruence|]. split; [congruence|].
      intros code msg -> _. split; [exact Hw|].
      exists td, tid, act, polls. now split.
Qed.

Lemma transfer_prints_task_id_last_witness :
  exists evs,
    trace (snd (transfer SampleTransfer.stalled 2 "src-endpoint" "dst-endpoint"
                  ["/a:/b"] None "checksum" true true true 60 10 2
                  Sample.empty_world))
    = trace Sample.empty_world ++ evs
    /\ (true = false -> count_events is_poll evs = 0%nat)
    /\ (returned (fst (transfer SampleTransfer.stalled 2 "src-endpoint" "dst-endpoint"
                         ["/a:/b"] None "checksum" true true true 60 10 2
                         Sample.empty_world)) = true ->
        exists tdata task_id act polls,
          evs = act ++ EvSubmitTransfer tdata task_id :: polls ++ [EvOut task_id]
          /\ forallb is_wait_event polls = true
          /\ (true = false -> polls = []))
    /\ (forall code msg,
           fst (transfer SampleTransfer.stalled 2 "src-endpoint" "dst-endpoint"
                  ["/a:/b"] None "checksum" true true true 60 10 2
                  Sample.empty_world) = Exit code msg ->
           code = WAIT_TASK_TIMEOUT \/ code = WAIT_TASK_ERROR ->
           true = true
           /\ exists tdata task_id act polls,
               evs = act ++ EvSubmitTransfer tdata task_id :: polls
               /\ forallb is_wait_event polls = true).
Proof.
  apply (transfer_prints_task_id_last SampleTransfer.stalled 2 "src-endpoint"
           "dst-endpoint" ["/a:/b"] None "checksum" true true true 60 10 2
           Sample.empty_world).
  reflexivity.
Defined.

(** The stalled run: submitted, polled twice, exit with the timeout code,
    task id never printed. *)
Example stalled_transfer_exits_without_task_id :
  exists msg w',
    transfer SampleTransfer.stalled 2 "src-endpoint" "dst-endpoint"
             ["/a:/b"] None "checksum" true true true 60 10 2 Sample.empty_world
    = (Exit WAIT_TASK_TIMEOUT msg, w')
    /\ count_events is_submit (trace w') = 1%nat
    /\ count_events is_poll (trace w') = 2%nat
    /\ count_events is_out (trace w') = 0%nat.
Proof. eexists. eexists. split; [vm_compute; reflexivity | repeat split]. Qed.

(** ** Activation, further *)

Lemma autoactivated_app evs1 evs2 :
  autoactivated (evs1 ++ evs2) = autoactivated evs1 ++ autoactivated evs2.
Proof.
  induction evs1 as [|ev rest IH]; [reflexivity|].
  destruct ev; cbn; now rewrite IH.
Qed.

Lemma autoactivated_filter evs :
  autoactivated evs = autoactivated (filter is_autoactivate evs).
Proof.
  induction evs as [|ev rest IH]; [reflexivity|].
  destruct ev; cbn; now rewrite IH.
Qed.

Section ActivationPhases.

Variable env : Env.

Lemma inactive_endpoints_ret endpoints :
  forall w unactivated w1,
    inactive_endpoints env endpoints w = (Ret unactivated, w1) ->
    unactivated = reported_inactive env (clock w) endpoints.
Proof.
  induction endpoints as [|e rest IH]; intros w u w1 Hrun.
  - now inversion Hrun.
  - cbn [inactive_endpoints reported_inactive] in *. unfold bind at 1 in Hrun.
    unfold get_or_exit at 1 in Hrun.
    destruct (endpoint_info env (clock w) e) as [info|]; [|discriminate].
    unfold bind at 1 in Hrun.
    destruct (inactive_endpoints env rest (answered (EvEndpointInfo e (Some info)) w))
      as [o1 w2] eqn:E1.
    destruct o1 as [more| | | |]; try discriminate.
    apply IH in E1. cbn [clock answered] in E1. unfold ret in Hrun.
    inversion Hrun; subst. reflexivity.
Qed.

(** The orchestrator as the sequence of its four steps. *)
Lemma activation_phases fuel endpoints w o w' :
  activate_endpoints_or_exit env fuel endpoints w = (o, w') ->
  (exists msg,
      inactive_endpoints env endpoints w = (Exit ENDPOINT_INFO_ERROR msg, w')
      /\ o = Exit ENDPOINT_INFO_ERROR msg)
  \/ exists u1 w1 w2 o3 w3,
      inactive_endpoints env endpoints w = (Ret u1, w1)
      /\ auto_loop env u1 [] w1 = (Ret (auto_rejected env (clock w1) u1), w2)
      /\ trace w2 = trace w1 ++ auto_events u1 (auto_codes env (clock w1) u1)
      /\ current_ad w2 = current_ad w1
      /\ manual_loop env fuel 0 (auto_rejected env (clock w1) u1) [] w2 = (o3, w3)
      /\ ((exists o4,
              o3 = Ret [] /\ log_expirations env endpoints w3 = (o4, w')
              /\ returned o = returned o4
              /\ (returned o = true -> o = Ret true)
              /\ (forall c m, o = Exit c m -> c = ENDPOINT_INFO_ERROR))
          \/ (exists r rest,
                 o3 = Ret (r :: rest) /\ w' = w3
                 /\ o = Exit ENDPOINT_ACTIVATION_ERROR
                          ("Was not able to activate endpoints: "
                           +++ Py.join " " (r :: rest)))
          \/ (returned o3 = false /\ w' = w3 /\ returned o = false
              /\ (forall c m, o = Exit c m -> c = ENDPOINT_INFO_ERROR))).
Proof.
  intros Hrun. unfold activate_endpoints_or_exit in Hrun.
  unfold bind at 1 in Hrun.
  destruct (inactive_endpoints env endpoints w) as [o1 w1] eqn:E1.
  destruct (inactive_endpoints_run env endpoints w o1 w1 E1) as (evs1 & _ & _ & _ & _ & Ho1).
  destruct o1 as [u1|code1 msg1|exn1| |]; try contradiction.
  2: { destruct Ho1 as [-> _]. inversion Hrun; subst. left. now exists msg1. }
  right. unfold bind at 1 in Hrun. unfold activate_endpoints_automatically in Hrun.
  destruct (auto_loop_run env u1 [] w1) as (w2 & E2 & Htr2 & _ & Had2 & _).
  rewrite E2 in Hrun. cbn [app] in Hrun, E2.
  unfold bind at 1 in Hrun. unfold activate_endpoints_manually in Hrun.
  destruct (manual_loop env fuel 0 (auto_rejected env (clock w1) u1) [] w2)
    as [o3 w3] eqn:E3.
  exists u1, w1, w2, o3, w3.
  split; [reflexivity|]. split; [exact E2|]. split; [exact Htr2|].
  split; [exact Had2|]. split; [exact E3|].
  destruct (manual_loop_run env _ _ _ _ _ _ _ E3) as (evs3 & _ & _ & _ & _ & Ho3).
  destruct o3 as [u3|code3 msg3|exn3| |]; try contradiction.
  - unfold bind, ret, error in Hrun. destruct u3 as [|r rest].
    + cbn [List.length Nat.ltb Nat.leb] in Hrun. left.
      destruct (log_expirations env endpoints w3) as [o4 w4] eqn:E4.
      destruct (log_expirations_run env endpoints w3 o4 w4 E4) as (evs4 & _ & _ & _ & _ & Ho4).
      exists o4. destruct o4 as [u4|code4 msg4|exn4| |]; try contradiction;
        inversion Hrun; subst.
      * repeat split; try reflexivity. intros c m H. discriminate.
      * destruct Ho4 as [-> _]. repeat split; try reflexivity; try discriminate.
        intros c m H. now inversion H.
    + cbn [List.length Nat.ltb Nat.leb] in Hrun. inversion Hrun; subst.
      right. left. now exists r, rest.
  - inversion Hrun; subst. right. right. destruct Ho3 as [-> _].
    repeat split. intros c m H. now inversion H.
  - inversion Hrun; subst. right. right. repeat split. intros c m H. discriminate.
  - inversion Hrun; subst. right. right. repeat split. intros c m H. discriminate.
Qed.

(** With a terminal, the loop on one endpoint asks once per status check
    that finds it inactive. *)
Lemma wait_until_active_after endpoint msg :
  forall k fuel w,
    (k < fuel)%nat ->
    (forall j, (j < k)%nat ->
               exists info, endpoint_info env (clock w + 2 * j) endpoint = Some info
                            /\ is_active info = false) ->
    (forall j, (j < k)%nat -> confirm env (clock w + 2 * j + 1) = true) ->
    (exists info, endpoint_info env (clock w + 2 * k) endpoint = Some info
                  /\ is_active info = true) ->
    exists w',
      wait_until_active env fuel endpoint msg w = (Ret tt, w')
      /\ count_events is_prompt (trace w')
         = (count_events is_prompt (trace w) + k)%nat
      /\ current_ad w' = current_ad w /\ queue w' = queue w.
Proof.
  induction k as [|k IH]; intros fuel w Hfuel Hinactive Hacks Hactive;
    (destruct fuel as [|fuel]; [lia|]);
    cbn [wait_until_active]; unfold bind at 1; unfold get_or_exit at 1.
  - destruct Hactive as (info & Hinfo & Hact).
    replace (clock w + 2 * 0)%nat with (clock w) in Hinfo by lia.
    rewrite Hinfo, Hact. unfold ret. eexists. split; [reflexivity|].
    cbn [trace answered current_ad queue]. rewrite count_events_app.
    cbn. repeat split; lia.
  - destruct (Hinactive 0%nat) as (info & Hinfo & Hact); [lia|].
    replace (clock w + 2 * 0)%nat with (clock w) in Hinfo by lia.
    rewrite Hinfo, Hact. unfold bind at 1. unfold secho at 1.
    unfold bind at 1. unfold click_confirm at 1. cbn [clock emit answered].
    pose proof (Hacks 0%nat) as Hack.
    replace (clock w + 2 * 0 + 1)%nat with (S (clock w)) in Hack by lia.
    rewrite Hack by lia.
    match goal with |- context [wait_until_active env fuel endpoint msg ?w1] =>
      destruct (IH fuel w1) as (w' & Hrun & Hcount & Had & Hq) end.
    + lia.
    + intros j Hj. cbn [clock emit answered].
      destruct (Hinactive (S j)) as (i & Hi & Ha); [lia|].
      exists i. split; [|exact Ha]. rewrite <- Hi. f_equal. lia.
    + intros j Hj. cbn [clock emit answered].
      rewrite <- (Hacks (S j)) by lia. f_equal. lia.
    + cbn [clock emit answered]. destruct Hactive as (i & Hi & Ha). exists i.
      split; [|exact Ha]. rewrite <- Hi. f_equal. lia.
    + exists w'. split; [exact Hrun|]. rewrite Hcount, Had, Hq.
      cbn [trace emit answered current_ad queue]. rewrite !count_events_app.
      cbn. repeat split; lia.
Qed.

End ActivationPhases.

(** X6: with a terminal, manual activation of an endpoint prompts the
    operator once per status check that finds the endpoint inactive: if the
    first [k] checks report it inactive, the operator acknowledges each
    prompt and the next check reports it ACTIVE, the call returns the empty
    list after exactly [k] prompts and leaves the job records alone. *)
Theorem manual_activation_prompts_until_active env fuel endpoint w k :
  is_interactive env = true ->
  (k < fuel)%nat ->
  endpoint_info env (clock w) endpoint <> None ->
  (forall j, (j < k)%nat ->
             exists info, endpoint_info env (clock w + 1 + 2 * j) endpoint = Some info
                          /\ is_active info = false) ->
  (forall j, (j < k)%nat -> confirm env (clock w + 1 + 2 * j + 1) = true) ->
  (exists info, endpoint_info env (clock w + 1 + 2 * k) endpoint = Some info
                /\ is_active info = true) ->
  exists w',
    activate_endpoints_manually env fuel [endpoint] w = (Ret [], w')
    /\ count_events is_prompt (trace w')
       = (count_events is_prompt (trace w) + k)%nat
    /\ current_ad w' = current_ad w /\ queue w' = queue w.
Proof.
  intros Hterm Hfuel Hfirst Hinactive Hacks Hactive.
  unfold activate_endpoints_manually. cbn [manual_loop].
  unfold bind at 1. unfold get_or_exit at 1.
  destruct (endpoint_info env (clock w) endpoint) as [info|]; [|congruence].
  rewrite Hterm. unfold bind at 1.
  match goal with |- context [wait_until_active env fuel endpoint ?m ?w1] =>
    destruct (wait_until_active_after env endpoint m k fuel w1)
      as (w' & Hrun & Hcount & Had & Hq) end.
  - exact Hfuel.
  - intros j Hj. cbn [clock answered].
    replace (S (clock w) + 2 * j)%nat with (clock w + 1 + 2 * j)%nat by lia. auto.
  - intros j Hj. cbn [clock answered].
    replace (S (clock w) + 2 * j + 1)%nat with (clock w + 1 + 2 * j + 1)%nat by lia. auto.
  - cbn [clock answered].
    replace (S (clock w) + 2 * k)%nat with (clock w + 1 + 2 * k)%nat by lia. auto.
  - exists w'. rewrite Hrun. unfold ret. split; [reflexivity|].
    rewrite Hcount, Had, Hq. cbn [trace answered current_ad queue].
    rewrite count_events_app. cbn. repeat split; lia.
Qed.

Lemma manual_activation_prompts_until_active_witness :
  exists w',
    activate_endpoints_manually SampleQueue.attended 2 ["campus"] Sample.empty_world
    = (Ret [], w')
    /\ count_events is_prompt (trace w')
       = (count_events is_prompt (trace Sample.empty_world) + 1)%nat
    /\ current_ad w' = current_ad Sample.empty_world
    /\ queue w' = queue Sample.empty_world.
Proof.
  apply (manual_activation_prompts_until_active SampleQueue.attended 2 "campus"
           Sample.empty_world 1).
  - reflexivity.
  - lia.
  - discriminate.
  - intros j Hj. assert (j = 0%nat) as -> by lia.
    exists Sample.inactive_info. split; reflexivity.
  - intros j Hj. reflexivity.
  - exists Sample.active_info. split; reflexivity.
Defined.

Section Interrupts.

Variable env : Env.

(** An interrupt is the last thing that happens. *)
Lemma wait_until_active_abort endpoint msg :
  forall fuel w w',
    wait_until_active env fuel endpoint msg w = (Abort, w') ->
    exists before, trace w' = trace w ++ before ++ [EvConfirm false].
Proof.
  induction fuel as [|fuel IH]; intros w w' Hrun; [discriminate|].
  cbn [wait_until_active] in Hrun. unfold bind at 1 in Hrun.
  unfold get_or_exit at 1 in Hrun.
  destruct (endpoint_info env (clock w) endpoint) as [info|]; [|discriminate].
  destruct (is_active info); [discriminate|].
  unfold bind at 1 in Hrun. unfold secho at 1 in Hrun.
  unfold bind at 1 in Hrun. unfold click_confirm at 1 in Hrun.
  cbn [clock emit answered] in Hrun.
  destruct (confirm env (S (clock w))).
  - apply IH in Hrun as [before Hb]. cbn [trace emit answered] in Hb.
    exists ([EvEndpointInfo endpoint (Some info); EvOut msg; EvConfirm true] ++ before).
    rewrite Hb. now rewrite <- !app_assoc.
  - inversion Hrun; subst. cbn [trace emit answered].
    exists [EvEndpointInfo endpoint (Some info); EvOut msg].
    now rewrite <- !app_assoc.
Qed.

Lemma manual_loop_abort endpoints :
  forall fuel idx unactivated w w',
    manual_loop env fuel idx endpoints unactivated w = (Abort, w') ->
    exists before, trace w' = trace w ++ before ++ [EvConfirm false].
Proof.
  induction endpoints as [|e rest IH]; intros fuel idx unactivated w w' Hrun;
    [discriminate|].
  cbn [manual_loop] in Hrun. unfold bind at 1 in Hrun.
  unfold get_or_exit at 1 in Hrun.
  destruct (endpoint_info env (clock w) e) as [info|]; [|discriminate].
  destruct (is_interactive env).
  - unfold bind at 1 in Hrun.
    match type of Hrun with
      match wait_until_active _ _ _ ?m ?w1 with _ => _ end = _ =>
      destruct (wait_until_active env fuel e m w1) as [o1 w1'] eqn:Ewait;
      destruct (wait_until_active_run env e m fuel w1 o1 w1' Ewait)
        as (evs1 & Htr1 & _)
    end.
    destruct o1 as [[]|code1 msg1|exn1| |]; try discriminate.
    + apply IH in Hrun as [before Hb]. rewrite Htr1 in Hb.
      cbn [trace answered] in Hb.
      exists ([EvEndpointInfo e (Some info)] ++ evs1 ++ before).
      rewrite Hb. now rewrite <- !app_assoc.
    + inversion Hrun; subst. apply wait_until_active_abort in Ewait as [before Hb].
      cbn [trace answered] in Hb.
      exists ([EvEndpointInfo e (Some info)] ++ before).
      rewrite Hb. now rewrite <- !app_assoc.
  - unfold bind at 1 in Hrun. unfold set_job_attr at 1 in Hrun.
    apply IH in Hrun as [before Hb]. cbn [trace emit answered] in Hb.
    eexists ([EvEndpointInfo e (Some info); EvSetJobAttr None _ _] ++ before).
    rewrite Hb. now rewrite <- !app_assoc.
Qed.

End Interrupts.

(** X7: with a terminal, manual activation never hands back an unresolved
    endpoint and never writes a job attribute: when it returns, it returns
    the empty list and every endpoint it was given has been reported
    ACTIVE; otherwise it ended on a failed lookup, on the operator's
    interrupt (the last event of the run) or never. *)
Theorem interactive_manual_activation_total env fuel endpoints w o w' :
  is_interactive env = true ->
  activate_endpoints_manually env fuel endpoints w = (o, w') ->
  exists evs,
    trace w' = trace w ++ evs
    /\ (forall sc key v, ~ In (EvSetJobAttr sc key v) evs)
    /\ current_ad w' = current_ad w /\ queue w' = queue w
    /\ match o with
       | Ret unactivated =>
           unactivated = []
           /\ forall e, In e endpoints -> seen_active e evs = true
       | Exit code _ => code = ENDPOINT_INFO_ERROR /\ lookup_fails env endpoints
       | Raise _ => False
       | Abort => exists before, evs = before ++ [EvConfirm false]
       | OutOfFuel => True
       end.
Proof.
  intros Hterm Hrun. unfold activate_endpoints_manually in Hrun.
  destruct (manual_loop_terminal env Hterm _ _ _ _ _ _ _ Hrun)
    as (evs & Htr & Hwr & Had & Hq & Ho).
  destruct (manual_loop_run env _ _ _ _ _ _ _ Hrun)
    as (evs' & Htr' & _ & _ & Hnone & _).
  assert (evs' = evs) by (rewrite Htr in Htr'; symmetry; now apply app_inv_head in Htr').
  subst evs'.
  exists evs. split; [exact Htr|]. split; [now apply Hnone|].
  split; [exact Had|]. split; [exact Hq|].
  destruct o as [u|code msg|exn| |]; try exact Ho.
  apply manual_loop_abort in Hrun as [before Hb].
  rewrite Htr in Hb. apply app_inv_head in Hb. now exists before.
Qed.

Lemma interactive_manual_activation_total_witness :
  exists evs,
    trace (snd (activate_endpoints_manually SampleOperator.interrupting 2 ["campus"]
                  Sample.empty_world))
    = trace Sample.empty_world ++ evs
    /\ (forall sc key v, ~ In (EvSetJobAttr sc key v) evs)
    /\ current_ad (snd (activate_endpoints_manually SampleOperator.interrupting 2
                          ["campus"] Sample.empty_world))
       = current_ad Sample.empty_world
    /\ queue (snd (activate_endpoints_manually SampleOperator.interrupting 2
                     ["campus"] Sample.empty_world))
       = queue Sample.empty_world
    /\ exists before, evs = before ++ [EvConfirm false].
Proof.
  apply (interactive_manual_activation_total SampleOperator.interrupting 2 ["campus"]
           Sample.empty_world Abort).
  - reflexivity.
  - reflexivity.
Defined.

Lemma lookups_not_autoactivated evs :
  forallb is_lookup evs = true -> autoactivated evs = [].
Proof.
  intros H. rewrite autoactivated_filter.
  now rewrite (lookups_kinds is_autoactivate (fun _ _ => eq_refl) evs H).
Qed.

Lemma attr_writes_auto_events endpoints codes :
  attr_writes (auto_events endpoints codes) = [].
Proof.
  unfold auto_events. generalize (combine endpoints codes).
  intros l. induction l as [|x l IH]; [reflexivity | exact IH].
Qed.

(** X8: the orchestrator calls automatic activation exactly for the
    endpoints that the opening status queries reported as not ACTIVE, in
    their order; an endpoint reported ACTIVE there is left out of the
    automatic and manual steps.  Only a run that already fails in the
    opening queries makes no automatic activation call at all. *)
Theorem auto_activation_skips_active_endpoints env fuel endpoints w o w' :
  activate_endpoints_or_exit env fuel endpoints w = (o, w') ->
  exists evs,
    trace w' = trace w ++ evs
    /\ (autoactivated evs = reported_inactive env (clock w) endpoints
        \/ (autoactivated evs = [] /\ exists msg, o = Exit ENDPOINT_INFO_ERROR msg))
    /\ (returned o = true ->
        autoactivated evs = reported_inactive env (clock w) endpoints).
Proof.
  intros Hrun.
  destruct (activation_phases env fuel endpoints w o w' Hrun)
    as [(msg & E1 & ->) |
        (u1 & w1 & w2 & o3 & w3 & E1 & E2 & Htr2 & Had2 & E3 & Hlast)].
  - destruct (inactive_endpoints_run env endpoints w _ w' E1) as (evs1 & Htr1 & Hlook1 & _).
    exists evs1. split; [exact Htr1|].
    split; [|discriminate]. right. split; [now apply lookups_not_autoactivated|].
    now exists msg.
  - destruct (inactive_endpoints_run env endpoints w _ w1 E1) as (evs1 & Htr1 & Hlook1 & _).
    apply inactive_endpoints_ret in E1. subst u1.
    set (u1 := reported_inactive env (clock w) endpoints) in *.
    destruct (manual_loop_run env _ _ _ _ _ _ _ E3) as (evs3 & Htr3 & _).
    assert (H3 : autoactivated evs3 = []).
    { rewrite autoactivated_filter.
      apply (manual_loop_kinds env is_autoactivate) with (1 := fun _ _ => eq_refl)
        (2 := fun _ => eq_refl) (3 := fun _ => eq_refl) (4 := fun _ _ => eq_refl) in E3.
      rewrite Htr3 in E3. now rewrite (filter_new_events _ _ _ E3). }
    assert (Hauto : autoactivated (auto_events u1 (auto_codes env (clock w1) u1)) = u1).
    { apply autoactivated_auto_events, auto_codes_length. }
    assert (H123 : autoactivated
                     (evs1 ++ auto_events u1 (auto_codes env (clock w1) u1) ++ evs3) = u1).
    { rewrite !autoactivated_app, (lookups_not_autoactivated evs1 Hlook1), Hauto, H3.
      cbn. apply app_nil_r. }
    assert (Htr : trace w3
                  = trace w ++ evs1 ++ auto_events u1 (auto_codes env (clock w1) u1) ++ evs3).
    { rewrite Htr3, Htr2, Htr1. now rewrite <- !app_assoc. }
    destruct Hlast as [(o4 & _ & E4 & _) | [(r & rest & _ & -> & _) | (_ & -> & _)]].
    + destruct (log_expirations_run env endpoints w3 o4 w' E4) as (evs4 & Htr4 & Hlook4 & _).
      exists ((evs1 ++ auto_events u1 (auto_codes env (clock w1) u1) ++ evs3) ++ evs4).
      split; [rewrite Htr4, Htr; now rewrite <- !app_assoc|].
      assert (Hall : autoactivated
                       ((evs1 ++ auto_events u1 (auto_codes env (clock w1) u1) ++ evs3)
                          ++ evs4) = u1).
      { rewrite autoactivated_app, H123, (lookups_not_autoactivated evs4 Hlook4).
        apply app_nil_r. }
      split; [now left | intros _; exact Hall].
    + eexists. split; [exact Htr|]. split; [now left | intros _; exact H123].
    + eexists. split; [exact Htr|]. split; [now left | intros _; exact H123].
Qed.

Lemma auto_activation_skips_active_endpoints_witness :
  exists evs,
    trace (snd (activate_endpoints_or_exit SampleQueue.attended 1 ["source"; "destination"]
                  Sample.empty_world))
    = trace Sample.empty_world ++ evs
    /\ (autoactivated evs
        = reported_inactive SampleQueue.attended (clock Sample.empty_world)
                            ["source"; "destination"]
        \/ (autoactivated evs = []
            /\ exists msg,
                fst (activate_endpoints_or_exit SampleQueue.attended 1
                       ["source"; "destination"] Sample.empty_world)
                = Exit ENDPOINT_INFO_ERROR msg))
    /\ (returned (fst (activate_endpoints_or_exit SampleQueue.attended 1
                         ["source"; "destination"] Sample.empty_world)) = true ->
        autoactivated evs
        = reported_inactive SampleQueue.attended (clock Sample.empty_world)
                            ["source"; "destination"]).
Proof.
  apply (auto_activation_skips_active_endpoints SampleQueue.attended 1
           ["source"; "destination"] Sample.empty_world).
  reflexivity.
Defined.

(** X9: what the orchestrator leaves on the current job record matches
    its outcome.  A run that succeeds has written no attribute.  A run that
    exits with [ENDPOINT_ACTIVATION_ERROR] has written exactly one
    attribute per endpoint named in the message, under the key of the
    endpoint's position in that message, and each reads back from the
    record as that endpoint. *)
Theorem activation_error_matches_record env fuel endpoints w o w' :
  activate_endpoints_or_exit env fuel endpoints w = (o, w') ->
  exists evs,
    trace w' = trace w ++ evs
    /\ (returned o = true ->
        attr_writes evs = [] /\ current_ad w' = current_ad w)
    /\ (forall msg,
           o = Exit ENDPOINT_ACTIVATION_ERROR msg ->
           exists unactivated,
             unactivated <> []
             /\ msg = "Was not able to activate endpoints: "
                      +++ Py.join " " unactivated
             /\ attr_writes evs = activation_attrs 0 unactivated
             /\ forall i e, nth_error unactivated i = Some e ->
                            dict_get (activation_key i) (current_ad w')
                            = Some (AdString e)).
Proof.
  intros Hrun.
  destruct (activation_phases env fuel endpoints w o w' Hrun)
    as [(msg & E1 & ->) |
        (u1 & w1 & w2 & o3 & w3 & E1 & E2 & Htr2 & Had2 & E3 & Hlast)].
  - destruct (inactive_endpoints_run env endpoints w _ w' E1) as (evs1 & Htr1 & _).
    exists evs1. split; [exact Htr1|]. split; [discriminate|].
    intros msg' H. discriminate.
  - destruct (inactive_endpoints_run env endpoints w _ w1 E1)
      as (evs1 & Htr1 & Hlook1 & Had1 & _).
    destruct (lookups_only evs1 Hlook1) as (_ & _ & Hwr1).
    set (rejected := auto_rejected env (clock w1) u1) in *.
    set (evs2 := auto_events u1 (auto_codes env (clock w1) u1)) in *.
    assert (Hwr2 : attr_writes evs2 = []) by apply attr_writes_auto_events.
    assert (Hmanual : exists evs3,
               trace w3 = trace w2 ++ evs3
               /\ forall u3, o3 = Ret u3 ->
                             attr_writes evs3 = activation_attrs 0 u3
                             /\ current_ad w3
                                = write_all (activation_attrs 0 u3) (current_ad w2)).
    { destruct (is_interactive env) eqn:Emode.
      - destruct (manual_loop_terminal env Emode _ _ _ _ _ _ _ E3)
          as (evs3 & Htr3 & Hwr3 & Had3 & _ & Ho3).
        exists evs3. split; [exact Htr3|]. intros u3 ->. destruct Ho3 as [-> _].
        now split.
      - destruct (manual_loop_batch env Emode _ _ _ _ _ _ _ E3)
          as (evs3 & Htr3 & _ & Ho3).
        exists evs3. split; [exact Htr3|]. intros u3 ->.
        destruct Ho3 as (-> & Hwr3 & Had3). now split. }
    destruct Hmanual as (evs3 & Htr3 & Hret3).
    assert (Htr : trace w3 = trace w ++ evs1 ++ evs2 ++ evs3).
    { rewrite Htr3, Htr2, Htr1. now rewrite <- !app_assoc. }
    destruct Hlast as [(o4 & -> & E4 & Hret & Htrue & Hcode4)
                      | [(r & rest & -> & -> & ->) | (Hfail & -> & Hret & Hcode)]].
    + destruct (log_expirations_run env endpoints w3 o4 w' E4)
        as (evs4 & Htr4 & Hlook4 & Had4 & _).
      destruct (lookups_only evs4 Hlook4) as (_ & _ & Hwr4).
      destruct (Hret3 [] eq_refl) as [Hwr3 Had3].
      exists ((evs1 ++ evs2 ++ evs3) ++ evs4).
      split; [rewrite Htr4, Htr; now rewrite <- !app_assoc|].
      split.
      * intros _. split.
        -- now rewrite !attr_writes_app, Hwr1, Hwr2, Hwr3, Hwr4.
        -- rewrite Had4, Had3. cbn. congruence.
      * intros msg ->. specialize (Hcode4 _ _ eq_refl). discriminate.
    + destruct (Hret3 (r :: rest) eq_refl) as [Hwr3 Had3].
      exists (evs1 ++ evs2 ++ evs3). split; [exact Htr|]. split; [discriminate|].
      intros msg Hmsg. inversion Hmsg; subst msg.
      exists (r :: rest). split; [discriminate|]. split; [reflexivity|].
      split; [now rewrite !attr_writes_app, Hwr1, Hwr2, Hwr3|].
      intros i e Hnth. rewrite Had3.
      now apply (activation_attrs_read_back (r :: rest) 0%nat).
    + exists (evs1 ++ evs2 ++ evs3). split; [exact Htr|]. split; [congruence|].
      intros msg ->. specialize (Hcode _ _ eq_refl). discriminate.
Qed.

Lemma activation_error_matches_record_witness :
  exists evs,
    trace (snd (activate_endpoints_or_exit Sample.batch 0 ["source"; "destination"]
                  SampleActivation.recorded_once))
    = trace SampleActivation.recorded_once ++ evs
    /\ (returned (fst (activate_endpoints_or_exit Sample.batch 0
                         ["source"; "destination"] SampleActivation.recorded_once))
        = true ->
        attr_writes evs = []
        /\ current_ad (snd (activate_endpoints_or_exit Sample.batch 0
                              ["source"; "destination"] SampleActivation.recorded_once))
           = current_ad SampleActivation.recorded_once)
    /\ (forall msg,
           fst (activate_endpoints_or_exit Sample.batch 0 ["source"; "destination"]
                  SampleActivation.recorded_once)
           = Exit ENDPOINT_ACTIVATION_ERROR msg ->
           exists unactivated,
             unactivated <> []
             /\ msg = "Was not able to activate endpoints: "
                      +++ Py.join " " unactivated
             /\ attr_writes evs = activation_attrs 0 unactivated
             /\ forall i e, nth_error unactivated i = Some e ->
                            dict_get (activation_key i)
                                     (current_ad (snd (activate_endpoints_or_exit
                                                         Sample.batch 0
                                                         ["source"; "destination"]
                                                         SampleActivation.recorded_once)))
                            = Some (AdString e)).
Proof.
  apply (activation_error_matches_record Sample.batch 0 ["source"; "destination"]
           SampleActivation.recorded_once).
  reflexivity.
Defined.

(** ** Hold resolution, further *)

Lemma dict_set_keys {V} key (value : V) d :
  map fst (dict_set key value d)
  = if in_dec string_dec key (map fst d) then map fst d else map fst d ++ [key].
Proof.
  induction d as [|[k v] rest IH]; cbn [dict_set map fst].
  - reflexivity.
  - destruct (String.eqb_spec k key) as [->|Hne]; cbn [map fst].
    + destruct (in_dec string_dec key (key :: map fst rest)) as [_|Hn];
        [reflexivity | destruct Hn; now left].
    + rewrite IH.
      destruct (in_dec string_dec key (map fst rest)) as [Hin|Hnin];
        destruct (in_dec string_dec key (k :: map fst rest)) as [Hin'|Hnin'];
        try reflexivity.
      * destruct Hnin'. now right.
      * destruct Hin' as [Heq|Hin']; [congruence | contradiction].
Qed.

Lemma dict_set_nodup {V} key (value : V) d :
  NoDup (map fst d) -> NoDup (map fst (dict_set key value d)).
Proof.
  intros Hnd. rewrite dict_set_keys.
  destruct (in_dec string_dec key (map fst d)) as [Hin|Hnin]; [exact Hnd|].
  apply NoDup_app; [exact Hnd | repeat constructor; intros [] |].
  intros x Hx [<-|[]]. contradiction.
Qed.

Lemma dict_get_in {V} key (value : V) d :
  dict_get key d = Some value -> In (key, value) d.
Proof.
  induction d as [|[k v] rest IH]; cbn; [discriminate|].
  destruct (String.eqb_spec k key) as [->|Hne].
  - intros H. inversion H. now left.
  - intros H. right. now apply IH.
Qed.

Lemma manual_endpoints_of_fold job :
  manual_endpoints_of job = fold_left collect (attrs job) [].
Proof. reflexivity. Qed.

Lemma collect_nodup kvs : forall d,
  NoDup (map fst d) -> NoDup (map fst (fold_left collect kvs d)).
Proof.
  induction kvs as [|[k v] kvs IH]; intros d Hd; [exact Hd|].
  cbn [fold_left]. apply IH. unfold collect. cbn [fst snd].
  destruct v as [e|]; [|exact Hd].
  destruct (Py.startswith ENDPOINT_ACTIVATION_REQUIRED k); [|exact Hd].
  now apply dict_set_nodup.
Qed.

Lemma collect_keys kvs : forall d e,
  In e (map fst (fold_left collect kvs d))
  <-> In e (map fst d)
      \/ exists key, In (key, AdString e) kvs
                     /\ Py.startswith ENDPOINT_ACTIVATION_REQUIRED key = true.
Proof.
  induction kvs as [|[k v] kvs IH]; intros d e.
  - cbn. split; [now left | intros [H | (key & [] & _)]; exact H].
  - cbn [fold_left]. rewrite IH. unfold collect at 1. cbn [fst snd].
    destruct v as [e'|].
    + destruct (Py.startswith ENDPOINT_ACTIVATION_REQUIRED k) eqn:Ep.
      * rewrite dict_set_keys.
        destruct (in_dec string_dec e' (map fst d)) as [Hin|Hnin]; split.
        -- intros [H | (key & Hk & Hp)]; [now left|].
           right. exists key. split; [now right | exact Hp].
        -- intros [H | (key & [Hk|Hk] & Hp)]; [now left | | right; now exists key].
           inversion Hk; subst. now left.
        -- intros [H | (key & Hk & Hp)].
           ++ apply in_app_or in H as [H | [<-|[]]]; [now left|].
              right. exists k. split; [now left | exact Ep].
           ++ right. exists key. split; [now right | exact Hp].
        -- intros [H | (key & [Hk|Hk] & Hp)].
           ++ left. apply in_or_app. now left.
           ++ inversion Hk; subst. left. apply in_or_app. right. now left.
           ++ right. now exists key.
      * split.
        -- intros [H | (key & Hk & Hp)]; [now left|].
           right. exists key. split; [now right | exact Hp].
        -- intros [H | (key & [Hk|Hk] & Hp)]; [now left | | right; now exists key].
           inversion Hk; subst. congruence.
    + split.
      * intros [H | (key & Hk & Hp)]; [now left|].
        right. exists key. split; [now right | exact Hp].
      * intros [H | (key & [Hk|Hk] & Hp)]; [now left | discriminate | right; now exists key].
Qed.

Lemma collect_keeps kvs : forall d e key,
  dict_get e d = Some key ->
  (forall key', In (key', AdString e) kvs ->
                Py.startswith ENDPOINT_ACTIVATION_REQUIRED key' = false) ->
  dict_get e (fold_left collect kvs d) = Some key.
Proof.
  induction kvs as [|[k v] kvs IH]; intros d e key Hget Hafter; [exact Hget|].
  cbn [fold_left]. apply IH; [|intros key' Hin; apply Hafter; now right].
  unfold collect. cbn [fst snd]. destruct v as [e'|]; [|exact Hget].
  destruct (Py.startswith ENDPOINT_ACTIVATION_REQUIRED k) eqn:Ep; [|exact Hget].
  destruct (String.eqb_spec e' e) as [->|Hne].
  - rewrite (Hafter k) in Ep; [discriminate | now left].
  - now rewrite dict_get_set_other.
Qed.

Lemma collect_last before key e after : forall d,
  Py.startswith ENDPOINT_ACTIVATION_REQUIRED key = true ->
  (forall key', In (key', AdString e) after ->
                Py.startswith ENDPOINT_ACTIVATION_REQUIRED key' = false) ->
  dict_get e (fold_left collect (before ++ (key, AdString e) :: after) d) = Some key.
Proof.
  intros d Hp Hafter. rewrite fold_left_app. cbn [fold_left].
  apply collect_keeps; [|exact Hafter].
  unfold collect at 1. cbn [fst snd]. rewrite Hp. apply dict_get_set_same.
Qed.

(** X10: the endpoints [release] hands to manual activation are exactly
    those held by an attribute whose name starts with the prefix and whose
    value is not [Undefined], each of them once however many attributes
    record it; the attribute that will be reset for an endpoint is the last
    one that records it. *)
Theorem recorded_endpoints_collected job :
  NoDup (map fst (manual_endpoints_of job))
  /\ (forall e,
         In e (map fst (manual_endpoints_of job))
         <-> exists key, In (key, AdString e) (attrs job)
                         /\ Py.startswith ENDPOINT_ACTIVATION_REQUIRED key = true)
  /\ (forall before key e after,
         attrs job = before ++ (key, AdString e) :: after ->
         Py.startswith ENDPOINT_ACTIVATION_REQUIRED key = true ->
         (forall key', In (key', AdString e) after ->
                       Py.startswith ENDPOINT_ACTIVATION_REQUIRED key' = false) ->
         dict_get e (manual_endpoints_of job) = Some key
         /\ In key (map snd (manual_endpoints_of job))).
Proof.
  rewrite manual_endpoints_of_fold. split; [|split].
  - apply collect_nodup. constructor.
  - intros e. rewrite collect_keys. cbn. tauto.
  - intros before key e after -> Hp Hafter.
    pose proof (collect_last before key e after [] Hp Hafter) as Hget.
    split; [exact Hget|]. apply dict_get_in in Hget.
    apply in_map_iff. now exists (e, key).
Qed.

Lemma recorded_endpoints_collected_witness :
  dict_get "campus" (manual_endpoints_of SampleRecords.twice_recorded)
  = Some "ENDPOINT_ACTIVATION_REQUIRED_3"
  /\ In "ENDPOINT_ACTIVATION_REQUIRED_3"
        (map snd (manual_endpoints_of SampleRecords.twice_recorded)).
Proof.
  apply (proj2 (proj2 (recorded_endpoints_collected SampleRecords.twice_recorded))
           [("ENDPOINT_ACTIVATION_REQUIRED_0", AdString "campus");
            ("ENDPOINT_ACTIVATION_REQUIRED_1", AdString "archive");
            ("ENDPOINT_ACTIVATION_REQUIRED_2", AdUndefined)]
           "ENDPOINT_ACTIVATION_REQUIRED_3" "campus" []).
  - reflexivity.
  - reflexivity.
  - intros key' [].
Defined.

(** The first attribute of the doubly recorded endpoint is not among the
    keys to reset. *)
Example twice_recorded_resets_last_only :
  manual_endpoints_of SampleRecords.twice_recorded
  = [("campus", "ENDPOINT_ACTIVATION_REQUIRED_3");
     ("archive", "ENDPOINT_ACTIVATION_REQUIRED_1")].
Proof. reflexivity. Qed.

Lemma in_dict_get {V} key (value : V) d :
  NoDup (map fst d) -> In (key, value) d -> dict_get key d = Some value.
Proof.
  induction d as [|[k v] rest IH]; cbn [map fst dict_get]; [intros _ []|].
  intros Hnd [Heq|Hin].
  - inversion Heq; subst. now rewrite String.eqb_refl.
  - inversion Hnd as [|? ? Hnotin Hnd']; subst.
    destruct (String.eqb_spec k key) as [->|Hne]; [|now apply IH].
    destruct Hnotin. apply in_map_iff. now exists (key, value).
Qed.

Lemma manual_endpoints_complete job e key :
  In (key, AdString e) (attrs job) ->
  Py.startswith ENDPOINT_ACTIVATION_REQUIRED key = true ->
  In e (map fst (manual_endpoints_of job)).
Proof.
  intros Hin Hp. rewrite manual_endpoints_of_fold. apply collect_keys.
  right. now exists key.
Qed.

Lemma nothing_pending_collects_nothing job :
  nothing_pending job -> manual_endpoints_of job = [].
Proof.
  intros Hnone. destruct (manual_endpoints_of job) as [|[e key] rest] eqn:E;
    [reflexivity|].
  destruct (manual_endpoints_of_in job e key) as [Hin Hp]; [rewrite E; now left|].
  rewrite (Hnone _ _ Hin) in Hp. discriminate.
Qed.

Section PlainRelease.

Variable env : Env.

Lemma resolve_job_plain fuel job w :
  manual_endpoints_of job = [] ->
  resolve_job env fuel job w
  = (Ret tt,
     {| trace := trace w ++ plain_release_events job;
        clock := clock w;
        current_ad := current_ad w;
        queue := map (fun j => if cluster_id j =? cluster_id job
                               then with_held j false else j) (queue w) |}).
Proof.
  intros Hnil. unfold resolve_job. rewrite Hnil.
  unfold bind, secho, ret, schedd_act_release, emit, plain_release_events.
  cbn [List.length Nat.ltb Nat.leb trace clock current_ad queue].
  now rewrite <- !app_assoc.
Qed.

Lemma release_loop_plain fuel jobs :
  forall w,
    Forall (fun job => manual_endpoints_of job = []) jobs ->
    exists w',
      release_loop env fuel jobs w = (Ret tt, w')
      /\ trace w' = trace w ++ flat_map plain_release_events jobs
      /\ clock w' = clock w
      /\ current_ad w' = current_ad w
      /\ map attrs (queue w') = map attrs (queue w).
Proof.
  induction jobs as [|job rest IH]; intros w Hall.
  - exists w. cbn. now rewrite app_nil_r.
  - inversion Hall as [|? ? Hjob Hrest]; subst.
    cbn [release_loop]. unfold bind at 1. rewrite (resolve_job_plain _ _ _ Hjob).
    match goal with |- context [release_loop env fuel rest ?w1] =>
      destruct (IH w1 Hrest) as (w' & Hrun & Htr & Hck & Had & Hq) end.
    exists w'. split; [exact Hrun|].
    cbn [trace clock current_ad queue] in *.
    split; [rewrite Htr; cbn [flat_map]; now rewrite <- app_assoc|].
    split; [exact Hck|]. split; [exact Had|].
    rewrite Hq, map_map. apply map_ext. intros j.
    now destruct (cluster_id j =? cluster_id job).
Qed.

End PlainRelease.

(** X11: when no owned job records a pending endpoint (every attribute
    under the prefix reads [Undefined]), [release] needs neither a
    credential nor a terminal nor the transfer service: whatever the
    environment, it returns, its whole output is the two lines and the
    release of each owned job in listing order, and no attribute of any
    record changes. *)
Theorem release_without_pending env fuel w :
  (forall job, In job (owned_jobs w) -> nothing_pending job) ->
  exists w',
    release env fuel w = (Ret tt, w')
    /\ trace w' = trace w ++ flat_map plain_release_events (owned_jobs w)
    /\ clock w' = clock w
    /\ current_ad w' = current_ad w
    /\ map attrs (queue w') = map attrs (queue w).
Proof.
  intros Hnone. unfold release, get_globus_jobs. unfold bind at 1.
  apply release_loop_plain. apply Forall_forall. intros job Hin.
  apply nothing_pending_collects_nothing, Hnone, Hin.
Qed.

Lemma release_without_pending_witness :
  exists w',
    release SampleQueue.anonymous 0 SampleRecords.settled = (Ret tt, w')
    /\ trace w' = trace SampleRecords.settled
                  ++ flat_map plain_release_events (owned_jobs SampleRecords.settled)
    /\ clock w' = clock SampleRecords.settled
    /\ current_ad w' = current_ad SampleRecords.settled
    /\ map attrs (queue w') = map attrs (queue SampleRecords.settled).
Proof.
  apply (release_without_pending SampleQueue.anonymous 0 SampleRecords.settled).
  intros job Hin key e Hattr.
  cbn in Hin. destruct Hin as [<-|[<-|[]]]; cbn in Hattr;
    repeat (destruct Hattr as [H|Hattr]; [inversion H; reflexivity|]);
    destruct Hattr.
Defined.

(** ** What the resets leave on the records *)

Lemma cleared_refl j : cleared [] j j.
Proof.
  split; [reflexivity|]. split; [reflexivity|]. split; [auto|].
  split; [auto|]. split; [auto|]. intros key [].
Qed.

Lemma cleared_trans T1 T2 j j1 j2 :
  cleared T1 j j1 -> cleared T2 j1 j2 -> cleared (T1 ++ T2) j j2.
Proof.
  intros (Hc1 & Hg1 & Hn1 & Hs1 & Hp1 & Ht1) (Hc2 & Hg2 & Hn2 & Hs2 & Hp2 & Ht2).
  split; [congruence|]. split; [congruence|]. split; [auto|].
  split; [auto|]. split; [auto|].
  intros key Hin. apply in_app_or in Hin as [Hin|Hin].
  - apply Hp2, Ht1, Hin.
  - apply Ht2. now rewrite Hc1.
Qed.

Lemma queue_cleared_refl q : Forall2 (cleared []) q q.
Proof. induction q; constructor; auto using cleared_refl. Qed.

Lemma queue_cleared_trans T1 T2 q q1 q2 :
  Forall2 (cleared T1) q q1 -> Forall2 (cleared T2) q1 q2 ->
  Forall2 (cleared (T1 ++ T2)) q q2.
Proof.
  intros H1. revert q2. induction H1 as [|j j1 q q1 Hj Hq IH]; intros q2 H2.
  - inversion H2; subst. constructor.
  - inversion H2 as [|? j2 ? q2' Hj2 Hq2]; subst.
    constructor; [now apply (cleared_trans T1 T2 j j1) | now apply IH].
Qed.

Lemma queue_cleared_held c q :
  Forall2 (cleared [])
          q (map (fun j => if cluster_id j =? c then with_held j false else j) q).
Proof.
  induction q as [|j q IH]; cbn [map]; constructor; [|exact IH].
  destruct (cluster_id j =? c); [|apply cleared_refl].
  split; [reflexivity|]. split; [reflexivity|]. split; [auto|].
  split; [auto|]. split; [auto|]. intros key [].
Qed.

Lemma queue_cleared_set_attr c key q :
  Forall2 (cleared [(c, key)])
          q (map (fun j => if cluster_id j =? c
                           then with_attrs j (dict_set key AdUndefined (attrs j))
                           else j) q).
Proof.
  induction q as [|j q IH]; cbn [map]; constructor; [|exact IH].
  destruct (Z.eqb_spec (cluster_id j) c) as [Heq|Hne].
  - split; [reflexivity|]. split; [reflexivity|]. cbn [attrs with_attrs].
    split; [apply dict_set_nodup|].
    split.
    { intros k e Hin. apply dict_set_in in Hin as [Hin|Hin];
        [discriminate | exact Hin]. }
    split.
    { intros k Hk. destruct (string_dec key k) as [->|Hd].
      - apply dict_get_set_same.
      - now rewrite dict_get_set_other. }
    intros k [Hin|[]]. inversion Hin; subst. apply dict_get_set_same.
  - split; [reflexivity|]. split; [reflexivity|]. split; [auto|].
    split; [auto|]. split; [auto|].
    intros k [Hin|[]]. inversion Hin; subst. contradiction.
Qed.

Lemma queue_cleared_in T q q' j' :
  Forall2 (cleared T) q q' -> In j' q' -> exists j, In j q /\ cleared T j j'.
Proof.
  induction 1 as [|j0 j0' q q' Hj Hq IH]; intros Hin; [destruct Hin|].
  destruct Hin as [<-|Hin].
  - exists j0. split; [now left | exact Hj].
  - destruct (IH Hin) as (j & Hjq & Hc). exists j. split; [now right | exact Hc].
Qed.


Section Resets.

Variable env : Env.

Lemma reset_attrs_cleared job keys :
  forall w w',
    reset_attrs keys job w = (Ret tt, w') ->
    Forall2 (cleared (map (pair (cluster_id job)) keys)) (queue w) (queue w').
Proof.
  induction keys as [|k rest IH]; intros w w' Hrun.
  - inversion Hrun; subst. apply queue_cleared_refl.
  - cbn [reset_attrs] in Hrun. unfold bind at 1 in Hrun.
    unfold set_job_attr at 1 in Hrun. apply IH in Hrun.
    cbn [queue emit map] in *.
    change (Forall2 (cleared ([(cluster_id job, k)] ++ map (pair (cluster_id job)) rest))
                    (queue w) (queue w')).
    eapply queue_cleared_trans; [|exact Hrun]. apply queue_cleared_set_attr.
Qed.

Lemma resolve_job_cleared fuel job w w' :
  resolve_job env fuel job w = (Ret tt, w') ->
  Forall2 (cleared (reset_targets job)) (queue w) (queue w').
Proof.
  intros Hrun. unfold resolve_job in Hrun.
  unfold bind at 1 in Hrun. unfold secho at 1 in Hrun.
  set (w1 := emit (EvOut ("Attempting to resolve holds for job "
                          +++ Py.str_of_Z (cluster_id job))) w) in *.
  unfold bind at 1 in Hrun. unfold reset_targets.
  destruct (manual_endpoints_of job) as [|ek rest] eqn:EM.
  - cbn [List.length Nat.ltb Nat.leb] in Hrun.
    unfold ret, bind, secho, schedd_act_release in Hrun.
    inversion Hrun; subst w'; clear Hrun. cbn [queue emit map].
    apply queue_cleared_held.
  - cbn [List.length Nat.ltb Nat.leb] in Hrun.
    unfold bind at 1 in Hrun. unfold get_transfer_client_or_exit in Hrun.
    destruct (refresh_token env) as [token|]; [|discriminate].
    unfold ret at 1 in Hrun. unfold bind at 1 in Hrun.
    unfold activate_endpoints_manually in Hrun.
    destruct (manual_loop env fuel 0 (map fst (ek :: rest)) [] w1) as [o3 w3] eqn:E3.
    destruct (manual_loop_run env _ _ _ _ _ _ _ E3) as (_ & _ & Hq3 & _).
    destruct o3 as [u3|code3 msg3|exn3| |]; try discriminate.
    destruct (reset_attrs (map snd (ek :: rest)) job w3) as [o4 w4] eqn:E4.
    destruct (reset_attrs_run job (map snd (ek :: rest)) w3) as (w4' & E4' & _).
    rewrite E4 in E4'. inversion E4'; subst o4 w4'; clear E4'.
    apply reset_attrs_cleared in E4.
    unfold bind, secho, schedd_act_release in Hrun.
    inversion Hrun; subst w'; clear Hrun. cbn [queue emit].
    rewrite Hq3 in E4. subst w1. cbn [queue emit] in E4.
    rewrite map_map in E4.
    rewrite <- (app_nil_r (map _ (ek :: rest))).
    eapply queue_cleared_trans; [exact E4 | apply queue_cleared_held].
Qed.

Lemma release_loop_cleared fuel jobs :
  forall w w',
    release_loop env fuel jobs w = (Ret tt, w') ->
    Forall2 (cleared (flat_map reset_targets jobs)) (queue w) (queue w').
Proof.
  induction jobs as [|job rest IH]; intros w w' Hrun.
  - inversion Hrun; subst. apply queue_cleared_refl.
  - cbn [release_loop] in Hrun. unfold bind at 1 in Hrun.
    destruct (resolve_job env fuel job w) as [o1 w1] eqn:E1.
    destruct o1 as [[]|code1 msg1|exn1| |]; try discriminate.
    apply resolve_job_cleared in E1. apply IH in Hrun. cbn [flat_map].
    now apply (queue_cleared_trans _ _ _ (queue w1)).
Qed.

Lemma release_cleared fuel w w' :
  release env fuel w = (Ret tt, w') ->
  Forall2 (cleared (flat_map reset_targets (owned_jobs w))) (queue w) (queue w').
Proof.
  unfold release, get_globus_jobs. unfold bind at 1. apply release_loop_cleared.
Qed.

End Resets.

Lemma reset_targets_in job jobs e key :
  In job jobs -> In (e, key) (manual_endpoints_of job) ->
  In (cluster_id job, key) (flat_map reset_targets jobs).
Proof.
  intros Hjob Hin. apply in_flat_map. exists job. split; [exact Hjob|].
  unfold reset_targets. apply in_map_iff. now exists (e, key).
Qed.



(** X13: on a queue whose owned jobs have one attribute per name and
    record each pending endpoint once, a run of [release] with a terminal
    that returns has written nothing onto the record of the job it runs as
    and leaves no owned job with a pending endpoint; a second run then
    returns in any environment, needs no credential, makes no call to the
    transfer service and writes no attribute. *)
Theorem release_settles_queue env fuel w w' :
  is_interactive env = true ->
  (forall job, In job (owned_jobs w) ->
               NoDup (map fst (attrs job)) /\ recorded_once job) ->
  release env fuel w = (Ret tt, w') ->
  (exists evs, trace w' = trace w ++ evs
               /\ forall key v, ~ In (EvSetJobAttr None key v) evs)
  /\ map cluster_id (owned_jobs w') = map cluster_id (owned_jobs w)
  /\ (forall job', In job' (owned_jobs w') -> nothing_pending job')
  /\ forall env2 fuel2, exists w'',
       release env2 fuel2 w' = (Ret tt, w'')
       /\ trace w'' = trace w' ++ flat_map plain_release_events (owned_jobs w')
       /\ clock w'' = clock w'
       /\ map attrs (queue w'') = map attrs (queue w').
Proof.
  intros Hterm Hwf Hrun. split.
  { destruct (release_run env fuel w _ w' Hrun) as (evs & n & Htr & _ & _ & _ & _ & Hres).
    exists evs. split; [exact Htr|]. intros key v Hin.
    destruct (Hres Hterm _ _ _ Hin) as (_ & job & e & _ & Hsc & _). discriminate. }
  apply release_cleared in Hrun.
  assert (Hnone : forall job', In job' (owned_jobs w') -> nothing_pending job').
  { intros job' Hin'. apply filter_In in Hin' as [Hin' Hg'].
    destruct (queue_cleared_in _ _ _ _ Hrun Hin')
      as (j & Hj & Hc & Hg & Hn & Hs & _ & Ht).
    assert (Hown : In j (owned_jobs w)) by (apply filter_In; split; congruence).
    destruct (Hwf j Hown) as [Hnd Honce].
    intros key e Hattr.
    destruct (Py.startswith ENDPOINT_ACTIVATION_REQUIRED key) eqn:Ep; [|reflexivity].
    pose proof (Hs _ _ Hattr) as Hold.
    pose proof (manual_endpoints_complete j e key Hold Ep) as Hcol.
    apply in_map_iff in Hcol as ([e0 k] & He0 & Hek). cbn in He0. subst e0.
    destruct (manual_endpoints_of_in j e k Hek) as [Hk Hpk].
    assert (k = key) by (apply (Honce k key e); assumption). subst k.
    pose proof (Ht key (reset_targets_in j _ e key Hown Hek)) as Hread.
    rewrite (in_dict_get key (AdString e) (attrs job') (Hn Hnd) Hattr) in Hread.
    discriminate. }
  split.
  { unfold owned_jobs. clear Hwf Hnone.
    induction Hrun as [|j j' q q' Hj Hq IH]; [reflexivity|].
    destruct Hj as (Hc & Hg & _). cbn [filter]. rewrite Hg.
    destruct (is_globus_job j); cbn [map]; [rewrite Hc, IH; reflexivity | exact IH]. }
  split; [exact Hnone|].
  intros env2 fuel2. unfold release, get_globus_jobs. unfold bind at 1.
  destruct (release_loop_plain env2 fuel2 (filter is_globus_job (queue w')) w')
    as (w'' & Hrun2 & Htr & Hck & _ & Hq).
  { apply Forall_forall. intros job' Hin'.
    apply nothing_pending_collects_nothing, Hnone, Hin'. }
  exists w''. split; [exact Hrun2|]. split; [exact Htr|]. split; [exact Hck | exact Hq].
Qed.

Lemma release_settles_queue_witness :
  (exists evs,
      trace (snd (release SampleQueue.attended 5 SampleQueue.two_waiting))
      = trace SampleQueue.two_waiting ++ evs
      /\ forall key v, ~ In (EvSetJobAttr None key v) evs)
  /\ map cluster_id
      (owned_jobs (snd (release SampleQueue.attended 5 SampleQueue.two_waiting)))
  = map cluster_id (owned_jobs SampleQueue.two_waiting)
  /\ (forall job',
         In job' (owned_jobs (snd (release SampleQueue.attended 5 SampleQueue.two_waiting))) ->
         nothing_pending job')
  /\ forall env2 fuel2, exists w'',
       release env2 fuel2 (snd (release SampleQueue.attended 5 SampleQueue.two_waiting))
       = (Ret tt, w'')
       /\ trace w''
          = trace (snd (release SampleQueue.attended 5 SampleQueue.two_waiting))
            ++ flat_map plain_release_events
                 (owned_jobs (snd (release SampleQueue.attended 5 SampleQueue.two_waiting)))
       /\ clock w'' = clock (snd (release SampleQueue.attended 5 SampleQueue.two_waiting))
       /\ map attrs (queue w'')
          = map attrs (queue (snd (release SampleQueue.attended 5 SampleQueue.two_waiting))).
Proof.
  apply (release_settles_queue SampleQueue.attended 5 SampleQueue.two_waiting).
  - reflexivity.
  - intros job Hin. cbn in Hin. destruct Hin as [<-|[<-|[]]]; split.
    + cbn. repeat constructor; cbn; intuition discriminate.
    + intros key1 key2 e H1 H2 Hp1 Hp2; cbn in H1, H2;
        destruct H1 as [H1|[H1|[]]]; destruct H2 as [H2|[H2|[]]];
        inversion H1; inversion H2; subst; try reflexivity; discriminate.
    + cbn. repeat constructor; cbn; intuition discriminate.
    + intros key1 key2 e H1 H2 Hp1 Hp2; cbn in H1, H2;
        destruct H1 as [H1|[H1|[]]]; destruct H2 as [H2|[H2|[]]];
        inversion H1; inversion H2; subst; try reflexivity; discriminate.
  - vm_compute. reflexivity.
Defined.

(** Without [recorded_once] the queue is not settled: of an endpoint
    recorded twice only the later attribute is reset, and the job comes out
    of a successful run with the earlier one still pending. *)
Example twice_recorded_stays_pending :
  let w := {| trace := []; clock := 0; current_ad := [];
              queue := [SampleRecords.twice_recorded] |} in
  fst (release SampleQueue.attended 5 w) = Ret tt
  /\ map manual_endpoints_of (queue (snd (release SampleQueue.attended 5 w)))
     = [[("campus", "ENDPOINT_ACTIVATION_REQUIRED_0")]].
Proof. vm_compute. split; reflexivity. Qed.

(** ** Bookmarks *)

Lemma dict_get_notin {V} key (d : list (string * V)) :
  ~ In key (map fst d) -> dict_get key d = None.
Proof.
  induction d as [|[k v] rest IH]; cbn [map fst dict_get]; [reflexivity|].
  intros Hnotin. destruct (String.eqb_spec k key) as [->|Hne].
  - destruct Hnotin. now left.
  - apply IH. intros Hin. apply Hnotin. now right.
Qed.

Lemma filter_other_notin key (l : list string) :
  ~ In key l -> filter (fun k => negb (String.eqb k key)) l = l.
Proof.
  induction l as [|k rest IH]; cbn [filter]; [reflexivity|].
  intros Hnotin. destruct (String.eqb_spec k key) as [->|Hne]; cbn [negb].
  - destruct Hnotin. now left.
  - rewrite IH; [reflexivity|]. intros Hin. apply Hnotin. now right.
Qed.

Lemma dict_pop_none {V} key (d : list (string * V)) :
  dict_pop key d = None -> dict_get key d = None.
Proof.
  induction d as [|[k v] rest IH]; cbn [dict_pop dict_get]; [reflexivity|].
  destruct (String.eqb k key); [discriminate|].
  destruct (dict_pop key rest) as [[x rest']|]; [discriminate | exact IH].
Qed.

Lemma dict_pop_some {V} key (d : list (string * V)) :
  forall v rest,
    dict_pop key d = Some (v, rest) ->
    dict_get key d = Some v
    /\ (forall key', key' <> key -> dict_get key' rest = dict_get key' d)
    /\ List.length d = S (List.length rest)
    /\ (forall k, In k (map fst rest) -> In k (map fst d))
    /\ (NoDup (map fst d) ->
        NoDup (map fst rest)
        /\ dict_get key rest = None
        /\ map fst rest = filter (fun k => negb (String.eqb k key)) (map fst d)).
Proof.
  induction d as [|[k v0] tail IH]; intros v rest Hpop; [discriminate|].
  cbn [dict_pop] in Hpop. cbn [dict_get map fst List.length filter].
  destruct (String.eqb_spec k key) as [->|Hne].
  - inversion Hpop; subst v0 tail; clear Hpop.
    split; [reflexivity|].
    split.
    { intros key' Hk. destruct (String.eqb_spec key key') as [Heq|_];
        [now destruct Hk | reflexivity]. }
    split; [reflexivity|].
    split; [intros k Hin; now right|].
    intros Hnd. inversion Hnd as [|? ? Hnotin Hnd']; subst.
    split; [exact Hnd'|]. split; [now apply dict_get_notin|].
    cbn [negb]. symmetry. now apply filter_other_notin.
  - destruct (dict_pop key tail) as [[x rest']|] eqn:Etail; [|discriminate].
    inversion Hpop; subst x rest; clear Hpop.
    destruct (IH v rest' eq_refl) as (Hget & Hother & Hlen & Hsub & Huniq).
    split; [exact Hget|].
    split.
    { intros key' Hk. cbn [dict_get].
      destruct (String.eqb k key'); [reflexivity | now apply Hother]. }
    split; [cbn [List.length]; now rewrite Hlen|].
    split.
    { intros k' [Hin|Hin]; [now left | right; now apply Hsub]. }
    intros Hnd. inversion Hnd as [|? ? Hnotin Hnd']; subst.
    destruct (Huniq Hnd') as (Hnd'' & Hnone & Hkeys).
    split.
    { cbn [map fst]. constructor; [|exact Hnd'']. intros Hin. apply Hnotin.
      now apply Hsub. }
    split.
    { cbn [dict_get]. destruct (String.eqb_spec k key); [contradiction | exact Hnone]. }
    cbn [map fst negb]. now rewrite Hkeys.
Qed.

Lemma dict_set_length {V} key (value : V) d :
  List.length (dict_set key value d)
  = match dict_get key d with
    | Some _ => List.length d
    | None => S (List.length d)
    end.
Proof.
  induction d as [|[k v] rest IH]; cbn [dict_set dict_get List.length]; [reflexivity|].
  destruct (String.eqb k key); cbn [List.length]; [reflexivity|].
  rewrite IH. now destruct (dict_get key rest).
Qed.

(** X14: [bookmarks add] binds the name: afterwards the endpoint callback
    maps the bookmark to the endpoint as given (it is not resolved further,
    even when the endpoint is itself a bookmark name), every other value is
    mapped as before, a bookmark that existed keeps its place in the
    listing and a new one goes to the end; the credential is not
    touched. *)
Theorem add_binds_bookmark settings bookmark endpoint :
  exists settings',
    Bookmarks.add settings bookmark endpoint = Saved settings'
    /\ auth_refresh_token settings' = auth_refresh_token settings
    /\ _map_endpoint_through_bookmarks settings' bookmark = endpoint
    /\ (forall value, value <> bookmark ->
          _map_endpoint_through_bookmarks settings' value
          = _map_endpoint_through_bookmarks settings value)
    /\ map fst (bookmark_table settings')
       = (if in_dec string_dec bookmark (map fst (bookmark_table settings))
          then map fst (bookmark_table settings)
          else map fst (bookmark_table settings) ++ [bookmark]).
Proof.
  eexists. split; [reflexivity|]. cbn [auth_refresh_token with_bookmarks].
  split; [reflexivity|].
  unfold _map_endpoint_through_bookmarks. cbn [bookmark_table with_bookmarks].
  split; [now rewrite dict_get_set_same|].
  split; [|apply dict_set_keys].
  intros value Hne. rewrite dict_get_set_other; [reflexivity|].
  intros Heq. now apply Hne.
Qed.

(** X15: [bookmarks rename] of a name that is not a bookmark exits with
    code 1 and saves nothing.  Otherwise the new name is mapped to the
    endpoint of the old one, the old name is no bookmark any more, every
    other value is mapped as before; a bookmark that already carried the
    new name is overwritten without notice, so that the table loses an
    entry. *)
Theorem rename_moves_bookmark settings bookmark new_bookmark :
  NoDup (map fst (bookmark_table settings)) ->
  match dict_get bookmark (bookmark_table settings) with
  | None =>
      Bookmarks.rename settings bookmark new_bookmark
      = SysExit 1 ("No bookmark found with name " +++ bookmark)
  | Some endpoint =>
      exists settings',
        Bookmarks.rename settings bookmark new_bookmark = Saved settings'
        /\ auth_refresh_token settings' = auth_refresh_token settings
        /\ NoDup (map fst (bookmark_table settings'))
        /\ _map_endpoint_through_bookmarks settings' new_bookmark = endpoint
        /\ (bookmark <> new_bookmark ->
            _map_endpoint_through_bookmarks settings' bookmark = bookmark)
        /\ (forall value, value <> bookmark -> value <> new_bookmark ->
              _map_endpoint_through_bookmarks settings' value
              = _map_endpoint_through_bookmarks settings value)
        /\ (bookmark <> new_bookmark ->
            List.length (bookmark_table settings')
            = match dict_get new_bookmark (bookmark_table settings) with
              | Some _ => Nat.pred (List.length (bookmark_table settings))
              | None => List.length (bookmark_table settings)
              end)
  end.
Proof.
  intros Hnd. unfold Bookmarks.rename.
  destruct (dict_pop bookmark (bookmark_table settings)) as [[endpoint rest]|] eqn:Epop.
  - destruct (dict_pop_some _ _ _ _ Epop) as (Hget & Hother & Hlen & _ & Huniq).
    destruct (Huniq Hnd) as (Hnd' & Hnone & _).
    rewrite Hget. eexists. split; [reflexivity|].
    cbn [auth_refresh_token with_bookmarks]. split; [reflexivity|].
    unfold _map_endpoint_through_bookmarks. cbn [bookmark_table with_bookmarks].
    split; [now apply dict_set_nodup|].
    split; [now rewrite dict_get_set_same|].
    split.
    { intros Hne. rewrite dict_get_set_other by (intros Heq; now apply Hne).
      now rewrite Hnone. }
    split.
    { intros value Hv Hv'. rewrite dict_get_set_other by (intros Heq; now apply Hv').
      now rewrite Hother. }
    intros Hne. rewrite dict_set_length, Hother by (intros Heq; now apply Hne).
    rewrite Hlen. now destruct (dict_get new_bookmark (bookmark_table settings)).
  - now rewrite (dict_pop_none _ _ Epop).
Qed.

Lemma rename_moves_bookmark_witness :
  exists settings',
    Bookmarks.rename SampleSettings.two_bookmarks "home" "lab" = Saved settings'
    /\ auth_refresh_token settings' = Some "token"
    /\ NoDup (map fst (bookmark_table settings'))
    /\ _map_endpoint_through_bookmarks settings' "lab" = "endpoint-a"
    /\ ("home" <> "lab" -> _map_endpoint_through_bookmarks settings' "home" = "home")
    /\ (forall value, value <> "home" -> value <> "lab" ->
          _map_endpoint_through_bookmarks settings' value
          = _map_endpoint_through_bookmarks SampleSettings.two_bookmarks value)
    /\ ("home" <> "lab" -> List.length (bookmark_table settings') = 1%nat).
Proof.
  apply (rename_moves_bookmark SampleSettings.two_bookmarks "home" "lab").
  cbn. repeat constructor; cbn; intuition discriminate.
Defined.

(** X16: [bookmarks rm] of a name that is not a bookmark exits with code 1
    and saves nothing.  Otherwise the name is no bookmark any more, every
    other value is mapped as before and the remaining bookmarks keep their
    order.  Removing a bookmark that [add] has just created gives back the
    settings as they were. *)
Theorem rm_removes_bookmark settings bookmark :
  NoDup (map fst (bookmark_table settings)) ->
  match dict_get bookmark (bookmark_table settings) with
  | None =>
      Bookmarks.rm settings bookmark
      = SysExit 1 ("No bookmark found with name " +++ bookmark)
      /\ forall endpoint settings1,
           Bookmarks.add settings bookmark endpoint = Saved settings1 ->
           Bookmarks.rm settings1 bookmark = Saved settings
  | Some _ =>
      exists settings',
        Bookmarks.rm settings bookmark = Saved settings'
        /\ auth_refresh_token settings' = auth_refresh_token settings
        /\ _map_endpoint_through_bookmarks settings' bookmark = bookmark
        /\ (forall value, value <> bookmark ->
              _map_endpoint_through_bookmarks settings' value
              = _map_endpoint_through_bookmarks settings value)
        /\ map fst (bookmark_table settings')
           = filter (fun k => negb (String.eqb k bookmark))
                    (map fst (bookmark_table settings))
  end.
Proof.
  intros Hnd. unfold Bookmarks.rm.
  destruct (dict_pop bookmark (bookmark_table settings)) as [[endpoint rest]|] eqn:Epop.
  - destruct (dict_pop_some _ _ _ _ Epop) as (Hget & Hother & _ & _ & Huniq).
    destruct (Huniq Hnd) as (_ & Hnone & Hkeys).
    rewrite Hget. eexists. split; [reflexivity|].
    cbn [auth_refresh_token with_bookmarks]. split; [reflexivity|].
    unfold _map_endpoint_through_bookmarks. cbn [bookmark_table with_bookmarks].
    split; [now rewrite Hnone|].
    split; [|exact Hkeys].
    intros value Hv. now rewrite Hother.
  - pose proof (dict_pop_none _ _ Epop) as Hget. rewrite Hget.
    split; [reflexivity|].
    intros endpoint settings1 Hadd. unfold Bookmarks.add in Hadd.
    inversion Hadd; subst settings1; clear Hadd.
    cbn [bookmark_table with_bookmarks].
    assert (Hpop : forall d : list (string * string),
               dict_get bookmark d = None ->
               dict_pop bookmark (dict_set bookmark endpoint d) = Some (endpoint, d)).
    { induction d as [|[k v] tail IH]; cbn [dict_get dict_set dict_pop].
      - intros _. now rewrite String.eqb_refl.
      - destruct (String.eqb k bookmark) eqn:Ek; [discriminate|].
        intros Hd. cbn [dict_pop]. rewrite Ek, (IH Hd). reflexivity. }
    rewrite (Hpop _ Hget). destruct settings; reflexivity.
Qed.

Lemma rm_removes_bookmark_witness :
  exists settings',
    Bookmarks.rm SampleSettings.two_bookmarks "home" = Saved settings'
    /\ auth_refresh_token settings' = Some "token"
    /\ _map_endpoint_through_bookmarks settings' "home" = "home"
    /\ (forall value, value <> "home" ->
          _map_endpoint_through_bookmarks settings' value
          = _map_endpoint_through_bookmarks SampleSettings.two_bookmarks value)
    /\ map fst (bookmark_table settings') = ["lab"].
Proof.
  apply (rm_removes_bookmark SampleSettings.two_bookmarks "home").
  cbn. repeat constructor; cbn; intuition discriminate.
Defined.

(** ** Substrings *)

Lemma str_contains_unfold p s :
  str_contains p s
  = String.prefix p s
    || match s with
       | EmptyString => false
       | String _ rest => str_contains p rest
       end.
Proof. now destruct s. Qed.

Lemma str_contains_here p t : str_contains p (p +++ t) = true.
Proof. now rewrite str_contains_unfold, prefix_append. Qed.

Lemma str_contains_app_r s p t :
  str_contains p t = true -> str_contains p (s +++ t) = true.
Proof.
  intros H. induction s as [|c s IH]; [exact H|].
  cbn [String.append]. rewrite str_contains_unfold, IH. apply orb_true_r.
Qed.

Lemma prefix_free_sep c b x : forall p,
  free_of c p = true ->
  String.prefix p (x +++ String c b) = String.prefix p x.
Proof.
  induction x as [|d x IH]; intros [|a p] Hfree; try reflexivity.
  - cbn [free_of] in Hfree. apply andb_true_iff in Hfree as [Hac _].
    cbn [String.append String.prefix].
    destruct (ascii_dec a c) as [->|_]; [|reflexivity].
    now rewrite Ascii.eqb_refl in Hac.
  - cbn [free_of] in Hfree. apply andb_true_iff in Hfree as [_ Hfree].
    cbn [String.append String.prefix].
    destruct (ascii_dec a d); [now apply IH | reflexivity].
Qed.

Lemma str_contains_free_sep c p a b :
  free_of c p = true ->
  str_contains p (a +++ String c b) = str_contains p a || str_contains p b.
Proof.
  intros Hfree. induction a as [|d a IH].
  - cbn [String.append]. rewrite (str_contains_unfold p (String c b)).
    change (String c b) with ("" +++ String c b) at 1.
    rewrite (prefix_free_sep c b "" p Hfree).
    rewrite (str_contains_unfold p ""). now rewrite orb_false_r.
  - rewrite (str_contains_unfold p (String d a +++ String c b)).
    rewrite (prefix_free_sep c b (String d a) p Hfree).
    cbn [String.append]. rewrite IH.
    rewrite (str_contains_unfold p (String d a)). now rewrite !orb_assoc.
Qed.

Lemma str_contains_join p parts :
  free_of " " p = true -> String.prefix p "" = false ->
  str_contains p (Py.join " " parts) = existsb (str_contains p) parts.
Proof.
  intros Hfree Hne. induction parts as [|a rest IH].
  - cbn [Py.join existsb]. now rewrite str_contains_unfold, Hne.
  - destruct rest as [|b rest].
    + cbn [Py.join existsb]. now rewrite orb_false_r.
    + change (Py.join " " (a :: b :: rest))
        with (a +++ String " " (Py.join " " (b :: rest))).
      rewrite (str_contains_free_sep " " p a _ Hfree), IH. reflexivity.
Qed.

Lemma existsb_filter {A} (f g : A -> bool) l :
  existsb f (filter g l) = existsb (fun x => g x && f x) l.
Proof.
  induction l as [|x l IH]; [reflexivity|].
  cbn [filter existsb]. destruct (g x); cbn [existsb andb]; now rewrite IH.
Qed.

(** X17: the submit description marks the job [+IsTransferJob = True]
    exactly when one of the arguments, the flag itself apart, contains
    [transfer] as a substring: the test reads the joined argument string,
    so an endpoint, bookmark or path that contains the word marks the job
    whatever the subcommand is, while a match can never straddle two
    arguments. *)
Theorem transfer_job_flag_by_substring AS_JOB args :
  IsTransferJob AS_JOB args
  = existsb (fun arg => negb (String.eqb arg AS_JOB) && str_contains "transfer" arg)
            args.
Proof.
  unfold IsTransferJob, args_string.
  rewrite str_contains_join by reflexivity. apply existsb_filter.
Qed.

(** A listing of an endpoint whose bookmark contains the word. *)
Example listing_marked_as_transfer :
  IsTransferJob "--as-job" ["ls"; "my-transfers"; "--as-job"] = true.
Proof. reflexivity. Qed.

(** ** Shell completion *)

Lemma completion_block_contains shell text :
  str_contains (completion_command shell) (text +++ completion_block shell) = true.
Proof.
  unfold completion_block.
  apply str_contains_app_r, str_contains_app_r, str_contains_app_r,
        str_contains_app_r, str_contains_here.
Qed.

(** X18: without [--force], [enable_autocomplete] on an existing startup
    file leaves the file with the activation command in it, appended only
    if the file did not contain it, and touches no other file; a second
    run finds the command and changes nothing.  On a missing file it
    raises [FileNotFoundError] and creates nothing.  With [--force] the
    block is appended whatever the file holds. *)
Theorem enable_autocomplete_once home shell destination files :
  let dst := match destination with
             | Some d => d
             | None => default_destination home shell
             end in
  match dict_get dst files with
  | None =>
      enable_autocomplete home shell false destination files
      = (FileNotFoundError, files)
  | Some text =>
      exists msg files1,
        enable_autocomplete home shell false destination files = (Printed msg, files1)
        /\ dict_get dst files1
           = Some (if str_contains (completion_command shell) text
                   then text else text +++ completion_block shell)
        /\ (forall path, path <> dst -> dict_get path files1 = dict_get path files)
        /\ enable_autocomplete home shell false destination files1
           = (Printed ("Autocompletion already enabled for " +++ shell_name shell),
              files1)
  end
  /\ dict_get dst (snd (enable_autocomplete home shell true destination files))
     = Some (match dict_get dst files with Some text => text | None => "" end
             +++ completion_block shell).
Proof.
  intros dst. split.
  - unfold enable_autocomplete. fold dst.
    destruct (dict_get dst files) as [text|] eqn:Eget; [|reflexivity].
    destruct (str_contains (completion_command shell) text) eqn:Ein.
    + eexists; exists files. split; [reflexivity|]. split; [exact Eget|].
      split; [reflexivity|]. now rewrite Eget, Ein.
    + eexists; eexists. split; [reflexivity|].
      split; [apply dict_get_set_same|].
      split.
      { intros path Hne. apply dict_get_set_other. intros Heq. now apply Hne. }
      rewrite dict_get_set_same, completion_block_contains. reflexivity.
  - unfold enable_autocomplete. fold dst. cbn [snd]. apply dict_get_set_same.
Qed.
